(** * discodex: the Codex bridges (MCP transport and interactive tail transport)

    A shallow embedding of [internal/codex] of the discodex repository and
    the properties of its specification.

    Conventions of the embedding.
    - Go [int], [int64] and [time.Duration] values are integers of [Z]; where
      the source multiplies a configured number of seconds by [time.Second]
      the 64-bit wrap-around is written out ([wrap64]).
    - Instants ([time.Time]) are nanoseconds on one clock, in [Z]; the zero
      [time.Time] is [0].
    - Go strings are byte strings ([string]).  [TrimSpace] and [ToLower]
      cover the ASCII range of the Go functions.
    - Go maps are [gmap]s; a missing key reads as the zero value, as in Go.
    - Values decoded by [encoding/json] into [any] are terms of [json].
    - The operating system (process spawning, pipes, the agent's answers,
      the clock) is an explicit environment; what the bridge does to it is
      recorded in a trace of effects. *)

From Stdlib Require Import ZArith QArith Ascii.
From stdpp Require Import base gmap strings list.

#[local] Set Warnings "-clear-no-such-hyp".

Local Open Scope string_scope.
Local Open Scope list_scope.
Local Open Scope Z_scope.

(** ** Go library functions used by the bridges *)

Module strings.

(** The six bytes of Go's [asciiSpace] table. *)
Definition isSpace (c : ascii) : bool :=
  let n := nat_of_ascii c in
  ((9 <=? n) && (n <=? 13))%nat || (n =? 32)%nat.

Fixpoint TrimLeft (s : string) : string :=
  match s with
  | String c s' => if isSpace c then TrimLeft s' else s
  | EmptyString => EmptyString
  end.

Fixpoint TrimRight (s : string) : string :=
  match s with
  | EmptyString => EmptyString
  | String c s' =>
      match TrimRight s' with
      | EmptyString => if isSpace c then EmptyString else String c EmptyString
      | r => String c r
      end
  end.

Definition TrimSpace (s : string) : string := TrimRight (TrimLeft s).

Definition lowerByte (c : ascii) : ascii :=
  let n := nat_of_ascii c in
  if ((65 <=? n) && (n <=? 90))%nat then ascii_of_nat (n + 32) else c.

Fixpoint ToLower (s : string) : string :=
  match s with
  | EmptyString => EmptyString
  | String c s' => String (lowerByte c) (ToLower s')
  end.

Fixpoint HasPrefix (s p : string) : bool :=
  match p, s with
  | EmptyString, _ => true
  | String a p', String b s' => if decide (a = b) then HasPrefix s' p' else false
  | String _ _, EmptyString => false
  end.

(** [s[len(s)-len(suffix):] == suffix] *)
Definition HasSuffix (s suffix : string) : bool :=
  let n := String.length s in
  let k := String.length suffix in
  (k <=? n)%nat && bool_decide (String.substring (n - k) k s = suffix).

(** [strings.Contains(s, substr)]: [substr] begins at some byte of [s]. *)
Fixpoint Contains (s substr : string) : bool :=
  HasPrefix s substr ||
  match s with
  | String _ s' => Contains s' substr
  | EmptyString => false
  end.

(** [strings.ReplaceAll(s, old, new)].  With a non-empty [old] the
    occurrences of [old] that do not overlap, taken from the left, are
    replaced; [skip] counts the bytes of an occurrence that are still to
    be passed over.  With an empty [old], [new] is put before every byte
    and at the end (before every rune in Go; the same in the ASCII
    range). *)
Fixpoint replaceFrom (skip : nat) (s old new : string) : string :=
  match s with
  | EmptyString => EmptyString
  | String c s' =>
      match skip with
      | S k => replaceFrom k s' old new
      | O => if HasPrefix s old
             then new +:+ replaceFrom (String.length old - 1) s' old new
             else String c (replaceFrom 0 s' old new)
      end
  end.

Fixpoint insertAround (s new : string) : string :=
  match s with
  | EmptyString => new
  | String c s' => new +:+ String c (insertAround s' new)
  end.

Definition ReplaceAll (s old new : string) : string :=
  if decide (old = "") then insertAround s new else replaceFrom 0 s old new.

(** [strings.Join(elems, sep)] *)
Fixpoint Join (elems : list string) (sep : string) : string :=
  match elems with
  | [] => ""
  | [a] => a
  | a :: rest => a +:+ sep +:+ Join rest sep
  end.

End strings.

(** [len(s)] as a Go [int]. *)
Definition len (s : string) : Z := Z.of_nat (String.length s).

(** Two's-complement wrap-around of a 64-bit signed integer. *)
Definition wrap64 (z : Z) : Z := (z + 2 ^ 63) mod 2 ^ 64 - 2 ^ 63.

Module time.
Definition Duration := Z.
Definition Millisecond : Duration := 1000000.
Definition Second : Duration := 1000000000.
(** [time.Duration(n) * time.Second] *)
Definition Seconds (n : Z) : Duration := wrap64 (n * Second).
End time.

(** ** [limitedBuffer] (interactive_tail_bridge.go) *)

Module limitedBuffer.

Record t := mk { buf : list Byte.byte; max : Z }.

Definition newLimitedBuffer (max : Z) : t := {| buf := []; max := max |}.

(** [Write] returns the new buffer and the pair [(n, err)]; [err] is
    [None] for Go's [nil]. *)
Definition Write (b : t) (p : list Byte.byte) : t * (Z * option string) :=
  let remaining := max b - Z.of_nat (length (buf b)) in
  let b' :=
    if 0 <? remaining then
      if Z.of_nat (length p) <=? remaining
      then {| buf := buf b ++ p; max := max b |}
      else {| buf := buf b ++ take (Z.to_nat remaining) p; max := max b |}
    else b in
  (b', (Z.of_nat (length p), None)).

Definition String (b : t) : list Byte.byte := buf b.

(** A sequence of [Write] calls on one buffer: the final buffer and what
    each call returned. *)
Fixpoint WriteAll (b : t) (ps : list (list Byte.byte))
  : t * list (Z * option string) :=
  match ps with
  | [] => (b, [])
  | p :: ps' =>
      let '(b1, r) := Write b p in
      let '(b2, rs) := WriteAll b1 ps' in
      (b2, r :: rs)
  end.

End limitedBuffer.

(** ** Values decoded by [encoding/json] *)

(** What [json.Unmarshal] stores in an [any]: [nil], [bool], [float64],
    [string], [[]any] and [map[string]any].  A [float64] that comes from a
    JSON number is finite; it is represented by its exact rational value. *)
#[warnings="-register-all"]
Inductive json :=
| JNull
| JBool (b : bool)
| JNum (f : Q)
| JStr (s : string)
| JArr (l : list json)
| JObj (m : gmap string json).

(** [s, _ := v.(string)] on the result of a map read: the zero value when
    the key is missing or holds another type. *)
Definition asString (v : option json) : string :=
  match v with Some (JStr s) => s | _ => "" end.

(** [o, _ := v.(map[string]any)]: [None] is the nil map. *)
Definition asObject (v : option json) : option (gmap string json) :=
  match v with Some (JObj m) => Some m | _ => None end.

(** Reading a key of a possibly nil map. *)
Definition field (o : option (gmap string json)) (k : string) : option json :=
  match o with Some m => m !! k | None => None end.

(** [f, ok := v.(float64)] *)
Definition asFloat (v : option json) : option Q :=
  match v with Some (JNum f) => Some f | _ => None end.

(** [int64(f)] for a [float64]: truncation toward zero.  Go leaves the
    result open when the value does not fit; amd64 yields the smallest
    [int64], which is what the model returns. *)
Definition int64_of_float (f : Q) : Z :=
  let z := Z.quot (Qnum f) (Z.pos (Qden f)) in
  if (- 2 ^ 63 <=? z) && (z <? 2 ^ 63) then z else - 2 ^ 63.

(** [parseID]: a string id like ["1"] to [int64]; [None] is the error. *)
Fixpoint parseID_from (n : Z) (s : string) : option Z :=
  match s with
  | EmptyString => Some n
  | String c s' =>
      let d := Z.of_nat (nat_of_ascii c) in
      if (d <? 48) || (57 <? d) then None
      else parseID_from (wrap64 (n * 10 + (d - 48))) s'
  end.

Definition parseID (s : string) : option Z := parseID_from 0 s.

(** [%d] of [fmt.Sprintf] for an [int64]: the decimal digits, after a
    minus sign for a negative number.  An [int64] has at most 19 digits. *)
Module fmt.

Definition digit (n : Z) : ascii := ascii_of_nat (48 + Z.to_nat n).

Fixpoint digits (fuel : nat) (n : Z) (acc : string) : string :=
  match fuel with
  | O => acc
  | S fuel' =>
      let acc' := String (digit (n mod 10)) acc in
      if n <? 10 then acc' else digits fuel' (n / 10) acc'
  end.

Definition decimal (n : Z) : string :=
  if n <? 0 then "-" +:+ digits 20 (- n) "" else digits 20 n "".

End fmt.

Definition truncate (s : string) (n : Z) : string :=
  if len s <=? n then s
  else if n <=? 3 then String.substring 0 (Z.to_nat n) s
  else String.substring 0 (Z.to_nat (n - 3)) s +:+ "...".

(** ** Configuration ([internal/config]) *)

Module config.

Record Channel := {
  ChannelID : string;
  Command : string;
  Workdir : string;
  Env : list (string * string) }.

Record Codex := {
  CodexCommand : string;
  SessionRoot : string;
  TimeoutSeconds : Z;
  Debug : bool;
  IdleSeconds : Z;
  Preamble : string }.

End config.

(** ** The MCP bridge ([MCPBridge], the streaming revision) *)

Module mcp.

Inductive error :=
| StartError (e : string)      (* pipe setup or cmd.Start *)
| WriteError (e : string)      (* m.stdin.Write *)
| ContextError                 (* ctx.Err() *)
| RequestTimeout.              (* "mcp request timeout" *)

Inductive result (A : Type) :=
| Ok (a : A)
| Err (e : error).
Arguments Ok {A} a.
Arguments Err {A} e.

(** The [params] member of a line written to the agent. *)
Inductive params :=
| initParams
| callParams (Name : string) (Arguments : gmap string json)
| noParams.

(** One line of the wire protocol, as written by [request] and [notify]. *)
Inductive message :=
| Request (id : Z) (method : string) (p : params)
| Notification (method : string) (p : params).

Inductive callback :=
| Reasoning (channelID text : string)
| ReasoningEnd (channelID : string)
| AgentDelta (channelID : string) (requestID : Z) (delta : string)
| AgentDone (channelID : string) (requestID : Z) (final : string)
| Up
| Down.

Inductive effect :=
| Spawned (pid : nat)                     (* cmd.Start returned nil *)
| SpawnFailed
| Wrote (pipe : nat) (m : message)        (* a line accepted by the pipe *)
| WriteFailed (pipe : nat) (m : message) (e : string)
| ClosedStdin (pipe : nat)
| Killed (pid : nat)                      (* cmd.Process.Kill *)
| KilledGroup (pid : nat)                 (* killProcessGroup *)
| Called (c : callback)
| TimerStopped (fireAt : Z)
| TimerArmed (fireAt : Z).

(** What the bridge reads from a [context.Context]. *)
Record Context := { userTag : option string }.

(** The part of [MCPBridge] that does not change after [NewMCPBridge] and
    the [With...Handler] calls.  A callback field is [true] when the
    callback is not nil. *)
Record Options := {
  conf : config.Codex;
  debug : bool;
  onReasoning : bool;
  onReasoningEnd : bool;
  onAgentDelta : bool;
  onAgentDone : bool;
  onUp : bool;
  onDown : bool;
  idleSeconds : Z }.

Record MCPBridge := {
  opts : Options;  (* fixed once the bridge is set up *)
  cmd : option nat;  (* process handle; [None] is nil *)
  stdin : option nat;  (* write end of the child's stdin *)
  ready : bool;
  reqID : Z;
  pending : gmap Z nat;  (* request id -> response channel *)
  convo : gmap string string;  (* channelID -> conversationId *)
  deadCh : option nat;  (* closed when this process exits *)
  owners : gmap Z string;  (* request id -> owner channelID *)
  reasonBuf : gmap Z string;  (* reasoning text per request id *)
  idleTimer : option Z;  (* instant at which the armed timer fires *)
  lastActive : Z }.

Definition set_cmd (v : option nat) (m : MCPBridge) : MCPBridge :=
  {| opts := opts m; cmd := v; stdin := stdin m; ready := ready m; reqID
  := reqID m; pending := pending m; convo := convo m; deadCh := deadCh m;
  owners := owners m; reasonBuf := reasonBuf m; idleTimer := idleTimer m;
  lastActive := lastActive m |}.

Definition set_stdin (v : option nat) (m : MCPBridge) : MCPBridge :=
  {| opts := opts m; cmd := cmd m; stdin := v; ready := ready m; reqID :=
  reqID m; pending := pending m; convo := convo m; deadCh := deadCh m;
  owners := owners m; reasonBuf := reasonBuf m; idleTimer := idleTimer m;
  lastActive := lastActive m |}.

Definition set_ready (v : bool) (m : MCPBridge) : MCPBridge :=
  {| opts := opts m; cmd := cmd m; stdin := stdin m; ready := v; reqID :=
  reqID m; pending := pending m; convo := convo m; deadCh := deadCh m;
  owners := owners m; reasonBuf := reasonBuf m; idleTimer := idleTimer m;
  lastActive := lastActive m |}.

Definition set_reqID (v : Z) (m : MCPBridge) : MCPBridge :=
  {| opts := opts m; cmd := cmd m; stdin := stdin m; ready := ready m;
  reqID := v; pending := pending m; convo := convo m; deadCh := deadCh m;
  owners := owners m; reasonBuf := reasonBuf m; idleTimer := idleTimer m;
  lastActive := lastActive m |}.

Definition set_pending (v : gmap Z nat) (m : MCPBridge) : MCPBridge :=
  {| opts := opts m; cmd := cmd m; stdin := stdin m; ready := ready m;
  reqID := reqID m; pending := v; convo := convo m; deadCh := deadCh m;
  owners := owners m; reasonBuf := reasonBuf m; idleTimer := idleTimer m;
  lastActive := lastActive m |}.

Definition set_convo (v : gmap string string) (m : MCPBridge) : MCPBridge :=
  {| opts := opts m; cmd := cmd m; stdin := stdin m; ready := ready m;
  reqID := reqID m; pending := pending m; convo := v; deadCh := deadCh m;
  owners := owners m; reasonBuf := reasonBuf m; idleTimer := idleTimer m;
  lastActive := lastActive m |}.

Definition set_deadCh (v : option nat) (m : MCPBridge) : MCPBridge :=
  {| opts := opts m; cmd := cmd m; stdin := stdin m; ready := ready m;
  reqID := reqID m; pending := pending m; convo := convo m; deadCh := v;
  owners := owners m; reasonBuf := reasonBuf m; idleTimer := idleTimer m;
  lastActive := lastActive m |}.

Definition set_owners (v : gmap Z string) (m : MCPBridge) : MCPBridge :=
  {| opts := opts m; cmd := cmd m; stdin := stdin m; ready := ready m;
  reqID := reqID m; pending := pending m; convo := convo m; deadCh :=
  deadCh m; owners := v; reasonBuf := reasonBuf m; idleTimer := idleTimer
  m; lastActive := lastActive m |}.

Definition set_reasonBuf (v : gmap Z string) (m : MCPBridge) : MCPBridge :=
  {| opts := opts m; cmd := cmd m; stdin := stdin m; ready := ready m;
  reqID := reqID m; pending := pending m; convo := convo m; deadCh :=
  deadCh m; owners := owners m; reasonBuf := v; idleTimer := idleTimer m;
  lastActive := lastActive m |}.

Definition set_idleTimer (v : option Z) (m : MCPBridge) : MCPBridge :=
  {| opts := opts m; cmd := cmd m; stdin := stdin m; ready := ready m;
  reqID := reqID m; pending := pending m; convo := convo m; deadCh :=
  deadCh m; owners := owners m; reasonBuf := reasonBuf m; idleTimer := v;
  lastActive := lastActive m |}.

Definition set_lastActive (v : Z) (m : MCPBridge) : MCPBridge :=
  {| opts := opts m; cmd := cmd m; stdin := stdin m; ready := ready m;
  reqID := reqID m; pending := pending m; convo := convo m; deadCh :=
  deadCh m; owners := owners m; reasonBuf := reasonBuf m; idleTimer :=
  idleTimer m; lastActive := v |}.

Record World := {
  bridge : MCPBridge;
  chans : gmap nat (list json);  (* response channels, by reference *)
  exited : gset nat;  (* processes that have exited *)
  spawned : nat;  (* calls of cmd.Start so far *)
  written : nat;  (* writes to a stdin pipe so far *)
  clock : Z;  (* time.Now() *)
  trace : list effect }.  (* effects, oldest first *)

Definition with_bridge (v : MCPBridge) (w : World) : World :=
  {| bridge := v; chans := chans w; exited := exited w; spawned := spawned
  w; written := written w; clock := clock w; trace := trace w |}.

Definition with_chans (v : gmap nat (list json)) (w : World) : World :=
  {| bridge := bridge w; chans := v; exited := exited w; spawned :=
  spawned w; written := written w; clock := clock w; trace := trace w |}.

Definition with_exited (v : gset nat) (w : World) : World :=
  {| bridge := bridge w; chans := chans w; exited := v; spawned := spawned
  w; written := written w; clock := clock w; trace := trace w |}.

Definition with_spawned (v : nat) (w : World) : World :=
  {| bridge := bridge w; chans := chans w; exited := exited w; spawned :=
  v; written := written w; clock := clock w; trace := trace w |}.

Definition with_written (v : nat) (w : World) : World :=
  {| bridge := bridge w; chans := chans w; exited := exited w; spawned :=
  spawned w; written := v; clock := clock w; trace := trace w |}.

Definition with_clock (v : Z) (w : World) : World :=
  {| bridge := bridge w; chans := chans w; exited := exited w; spawned :=
  spawned w; written := written w; clock := v; trace := trace w |}.

Definition with_trace (v : list effect) (w : World) : World :=
  {| bridge := bridge w; chans := chans w; exited := exited w; spawned :=
  spawned w; written := written w; clock := clock w; trace := v |}.
(** [NewMCPBridge]; [envDebug] is what [DISCODEX_DEBUG] says. *)
Definition NewMCPBridge (c : config.Codex) (envDebug : bool) : MCPBridge :=
  {| opts := {| conf := c; debug := config.Debug c || envDebug;
                onReasoning := false; onReasoningEnd := false;
                onAgentDelta := false; onAgentDone := false;
                onUp := false; onDown := false;
                idleSeconds := config.IdleSeconds c |};
     cmd := None; stdin := None; ready := false; reqID := 0;
     pending := ∅; convo := ∅; deadCh := None; owners := ∅;
     reasonBuf := ∅; idleTimer := None; lastActive := 0 |}.

(** [WithReasoningHandler], [WithStreamHandler] and [WithStateHandler]
    with non-nil callbacks. *)
Definition WithHandlers (m : MCPBridge) : MCPBridge :=
  {| opts := {| conf := conf (opts m); debug := debug (opts m);
                onReasoning := true; onReasoningEnd := true;
                onAgentDelta := true; onAgentDone := true;
                onUp := true; onDown := true;
                idleSeconds := idleSeconds (opts m) |};
     cmd := cmd m; stdin := stdin m; ready := ready m; reqID := reqID m;
     pending := pending m; convo := convo m; deadCh := deadCh m;
     owners := owners m; reasonBuf := reasonBuf m;
     idleTimer := idleTimer m; lastActive := lastActive m |}.

(** The world in which a bridge begins, at instant [t]. *)
Definition boot (m : MCPBridge) (t : Z) : World :=
  {| bridge := m; chans := ∅; exited := ∅; spawned := 0; written := 0;
     clock := t; trace := [] |}.

(** *** The environment

    The child process, its pipes and the clock are outside the bridge.
    An [Env] fixes how they behave during one run: whether the [n]-th
    process start and the [n]-th pipe write fail, and how the wait for
    the response to request [id] ends. *)
Inductive wait :=
| Answered (v : json)      (* the reader delivers the response first *)
| Cancelled                (* [ctx.Done()] first *)
| TimedOut.                (* [time.After] first *)

Record Env := {
  startError : nat -> option string;
  writeError : nat -> option string;
  waitFor : Z -> wait;
  elapsed : Z -> time.Duration;   (* how long an answered or cancelled wait took *)
  exitsOnClose : nat -> bool }.   (* the process exits within the second [Close] grants *)

(** *** State passing

    A method of [*MCPBridge] is a function of the world that returns a
    value and the new world, or panics. *)
Inductive run (A : Type) :=
| Returns (a : A) (w : World)
| Panics (w : World).
Arguments Returns {A} a w.
Arguments Panics {A} w.

Definition M (A : Type) : Type := World -> run A.

#[global] Instance M_ret : MRet M := fun A a w => Returns a w.
#[global] Instance M_bind : MBind M := fun A B k c w =>
  match c w with
  | Returns a w' => k a w'
  | Panics w' => Panics w'
  end.

Definition get : M MCPBridge := fun w => Returns (bridge w) w.
Definition update (f : MCPBridge -> MCPBridge) : M unit :=
  fun w => Returns tt (with_bridge (f (bridge w)) w).
Definition emit (e : effect) : M unit :=
  fun w => Returns tt (with_trace (trace w ++ [e]) w).
Definition now : M Z := fun w => Returns (clock w) w.
Definition sleep (d : time.Duration) : M unit :=
  fun w => Returns tt (with_clock (clock w + d) w).
Definition panic {A : Type} : M A := fun w => Panics w.
Definition skip : M unit := mret tt.

(** [if m.on != nil { m.on(...) }] *)
Definition call (on : Options -> bool) (c : callback) : M unit :=
  m ← get; if on (opts m) then emit (Called c) else skip.

(** *** Channels of responses: [make(chan json.RawMessage, 1)] *)
Definition makeChan : M nat := fun w =>
  let ch := fresh (dom (chans w)) in
  Returns ch (with_chans (<[ch := []]> (chans w)) w).
Definition send (ch : nat) (v : json) : M unit := fun w =>
  Returns tt (with_chans (<[ch := default [] (chans w !! ch) ++ [v]]> (chans w)) w).
Definition recv (ch : nat) : M (option json) := fun w =>
  match chans w !! ch with
  | Some (v :: q) => Returns (Some v) (with_chans (<[ch := q]> (chans w)) w)
  | _ => Returns None w
  end.

(** *** Idle supervision *)

Definition touchActivity : M unit :=
  m ← get;
  if idleSeconds (opts m) <=? 0 then skip else
  t ← now;
  update (set_lastActive t);;
  match idleTimer m with
  | Some d => emit (TimerStopped d)
  | None => skip
  end;;
  let sec := idleSeconds (opts m) in
  update (set_idleTimer (Some (t + time.Seconds sec)));;
  emit (TimerArmed (t + time.Seconds sec)).

(** *** Requests and responses *)

(** [m.stdin.Write(append(b, '\n'))]; the result is the error, if any. *)
Definition countWrite : M nat :=
  fun w => Returns (written w) (with_written (S (written w)) w).

Definition write (env : Env) (msg : message) : M (option error) :=
  m ← get;
  match stdin m with
  | None => panic
  | Some p =>
      n ← countWrite;
      match writeError env n with
      | Some e => emit (WriteFailed p msg e);; mret (Some (WriteError e))
      | None => emit (Wrote p msg);; mret None
      end
  end.

Definition deliver (id : Z) (v : json) : M unit :=
  m ← get;
  match pending m !! id with
  | Some ch => update (set_pending (delete id (pending m)));; send ch v
  | None => skip
  end.

(** The [select] that ends [request] and [requestForChannel].  When the
    environment answers, the reader goroutine runs [deliver] and the
    waiter receives from its channel. *)
Definition await (env : Env) (id : Z) (ch : nat) : M (result json) :=
  m ← get;
  let to := config.TimeoutSeconds (conf (opts m)) in
  let to := if to <=? 0 then 180 else to in
  match waitFor env id with
  | Cancelled => sleep (elapsed env id);; mret (Err ContextError)
  | TimedOut => sleep (Z.max 0 (time.Seconds to));; mret (Err RequestTimeout)
  | Answered v =>
      sleep (elapsed env id);;
      deliver id v;;
      res ← recv ch;
      match res with
      | Some b => mret (Ok b)
      | None => sleep (Z.max 0 (time.Seconds to));; mret (Err RequestTimeout)
      end
  end.

(** [atomic.AddInt64(&m.reqID, 1)] *)
Definition nextID : M Z :=
  m ← get;
  let id := wrap64 (reqID m + 1) in
  update (set_reqID id);; mret id.

Definition request (env : Env) (method : string) (p : params) : M (result json) :=
  id ← nextID;
  ch ← makeChan;
  update (fun m => set_pending (<[id := ch]> (pending m)) m);;
  werr ← write env (Request id method p);
  match werr with
  | Some e => mret (Err e)
  | None => await env id ch
  end.

Definition requestForChannel (env : Env) (method : string) (p : params)
    (channelID : string) : M (result json) :=
  id ← nextID;
  ch ← makeChan;
  update (fun m => set_pending (<[id := ch]> (pending m)) m);;
  (if decide (channelID = "") then skip
   else update (fun m => set_owners (<[id := channelID]> (owners m)) m));;
  werr ← write env (Request id method p);
  match werr with
  | Some e => mret (Err e)
  | None => await env id ch
  end.

Definition notify (env : Env) (method : string) (p : params) : M (option error) :=
  write env (Notification method p).

(** *** Process supervision *)

(** [isDead], which is only asked when [m.deadCh] is not nil. *)
Definition isDead (w : World) : bool :=
  match deadCh (bridge w) with
  | Some pid => bool_decide (pid ∈ exited w)
  | None => false
  end.

(** [m.ready && m.deadCh != nil && !m.isDead()] *)
Definition already (w : World) : bool :=
  ready (bridge w) && bool_decide (is_Some (deadCh (bridge w))) && negb (isDead w).

Definition countStart : M nat :=
  fun w => Returns (spawned w) (with_spawned (S (spawned w)) w).

(** [start].  Which command line is run (the channel's, the global one or
    the built-in [codex mcp]) does not matter to the bridge's protocol and
    is left to the environment, as is the failure of the pipes or of
    [cmd.Start].  The process handle doubles as the name of its stdin pipe
    and of its [dead] channel. *)
Definition start (env : Env) (ch : config.Channel) : M (option error) :=
  n ← countStart;
  match startError env n with
  | Some e => emit SpawnFailed;; mret (Some (StartError e))
  | None =>
      emit (Spawned n);;
      update (fun m => set_deadCh (Some n) (set_stdin (Some n) (set_cmd (Some n) m)));;
      _ ← request env "initialize" initParams;
      _ ← notify env "initialized" noParams;
      update (set_ready true);;
      call onUp Up;;
      touchActivity;;
      mret None
  end.

Definition ensureStarted (env : Env) (ch : config.Channel) : M (option error) :=
  ok ← (fun w => Returns (already w) w);
  if ok : bool then mret None else start env ch.

(** *** Concurrent callers of [ensureStarted]

    [ensureStarted] reads the three fields under the mutex, releases the
    mutex and only then calls [start]; other goroutines run in between.
    A caller is in one of three places, and a schedule says which caller
    moves next.  Each move is a stretch of the source that one goroutine
    can run without another one intervening. *)
Inductive caller :=
| Calling                       (* has not taken the mutex yet *)
| Starting                      (* saw "not started" and released the mutex *)
| Finished (e : option error).

Definition advance (env : Env) (ch : config.Channel) (i : nat)
    (s : World * list caller) : World * list caller :=
  let '(w, cs) := s in
  match cs !! i with
  | Some Calling =>
      (w, <[i := if already w then Finished None else Starting]> cs)
  | Some Starting =>
      match start env ch w with
      | Returns e w' => (w', <[i := Finished e]> cs)
      | Panics w' => (w', cs)
      end
  | _ => s
  end.

Definition interleave (env : Env) (ch : config.Channel) (sched : list nat)
    (s : World * list caller) : World * list caller :=
  foldl (fun s i => advance env ch i s) s sched.

(** The processes that a trace has spawned. *)
Definition spawnedIn (t : list effect) : list nat :=
  omap (fun e => match e with Spawned pid => Some pid | _ => None end) t.

(** The goroutine that [start] leaves waiting on [cmd.Wait()]: it runs
    when process [pid] exits. *)
Definition procExit (pid : nat) : M unit :=
  update (set_ready false);;
  (fun w => Returns tt (with_exited ({[pid]} ∪ exited w) w));;
  call onDown Down.

(** [Close]: the graceful sequence, then the kill. *)
Definition Close (env : Env) : M unit :=
  m ← get;
  match stdin m with
  | Some p =>
      _ ← request env "shutdown" noParams;
      _ ← notify env "exit" noParams;
      sleep (100 * time.Millisecond);;
      emit (ClosedStdin p)
  | None => skip
  end;;
  match cmd m with
  | Some pid =>
      if exitsOnClose env pid then skip
      else sleep (1 * time.Second);; emit (KilledGroup pid);; emit (Killed pid)
  | None => skip
  end.

(** The function handed to [time.AfterFunc] by [touchActivity]; [sec] is
    the value of [m.idleSeconds] it captured. *)
Definition idleExpired (env : Env) (sec : Z) : M unit :=
  m ← get;
  if idleSeconds (opts m) <=? 0 then skip else
  let last := lastActive m in
  t ← now;
  if t - last <? time.Seconds sec then skip else Close env.

(** *** Chat turns *)

Definition nl : string := String (ascii_of_nat 10) EmptyString.

(** The tool and its arguments, as [ChatMulti] decides them. *)
Definition toolCall (m : MCPBridge) (ctx : Context) (ch : config.Channel)
    (prompt : string) : string * gmap string json :=
  let args : gmap string json := {[ "prompt" := JStr prompt ]} in
  let args := match userTag ctx with
              | Some v => <["user" := JStr v]> args
              | None => args
              end in
  match convo m !! config.ChannelID ch with
  | Some v => ("codex-reply", <["conversationId" := JStr v]> args)
  | None =>
      let pre := strings.TrimSpace (config.Preamble (conf (opts m))) in
      let args := if decide (pre = "") then args
                  else <["prompt" := JStr (pre +:+ nl +:+ nl +:+ strings.TrimSpace prompt)]> args in
      let args := <["sandbox" := JStr "workspace-write"]> args in
      let args := <["approval-policy" := JStr "never"]> args in
      let args := if decide (config.Workdir ch = "") then args
                  else <["cwd" := JStr (config.Workdir ch)]> args in
      ("codex", args)
  end.

(** What [ChatMulti] does to the session after a failed attempt. *)
Definition teardown : M unit :=
  m ← get;
  match stdin m with
  | Some p => emit (ClosedStdin p);; update (set_stdin None)
  | None => skip
  end;;
  match cmd m with
  | Some pid => emit (Killed pid)
  | None => skip
  end;;
  update (set_ready false);;
  update (set_pending ∅).

(** [m.convo.Store] of a non-empty [conversationId] string of the result. *)
Definition bindConversation (ch : config.Channel) (res : json) : M unit :=
  match res with
  | JObj obj =>
      match obj !! "conversationId" with
      | Some (JStr cid) =>
          if decide (cid = "") then skip
          else update (fun m => set_convo (<[config.ChannelID ch := cid]> (convo m)) m)
      | _ => skip
      end
  | _ => skip
  end.

(** [ChatMulti] once the first [ensureStarted] has returned nil. *)
Definition turn (env : Env) (ctx : Context) (ch : config.Channel)
    (prompt : string) : M (result json) :=
  touchActivity;;
  m ← get;
  let '(tool, args) := toolCall m ctx ch prompt in
  r ← requestForChannel env "tools/call" (callParams tool args) (config.ChannelID ch);
  r ← match r with
      | Ok res => mret (Ok res)
      | Err err =>
          teardown;;
          e ← ensureStarted env ch;
          match e with
          | None =>
              requestForChannel env "tools/call" (callParams tool args)
                (config.ChannelID ch)
          | Some _ => mret (Err err)
          end
      end;
  match r with
  | Err err => mret (Err err)
  | Ok res => touchActivity;; bindConversation ch res;; mret (Ok res)
  end.

(** [ChatMulti].  The model returns the result of the call as the agent
    sent it; the texts that the source then extracts from it for the chat
    front-end are not part of the model. *)
Definition ChatMulti (env : Env) (ctx : Context) (ch : config.Channel)
    (prompt : string) : M (result json) :=
  e ← ensureStarted env ch;
  match e with
  | Some err => mret (Err err)
  | None => turn env ctx ch prompt
  end.

(** *** The reader *)

(** The owner of an event: [m.owners[id]] for the id under
    [_meta.requestId], a number or a numeric string; the empty string
    when there is none. *)
Definition ownerOf (m : MCPBridge) (meta : option (gmap string json)) : string :=
  match field meta "requestId" with
  | Some (JNum t) => default "" (owners m !! int64_of_float t)
  | Some (JStr t) =>
      match parseID t with
      | Some id => default "" (owners m !! id)
      | None => ""
      end
  | _ => ""
  end.

(** [var key int64; if rv, ok := meta["requestId"].(float64); ok { key = int64(rv) }] *)
Definition requestKey (meta : option (gmap string json)) : Z :=
  match asFloat (field meta "requestId") with
  | Some rv => int64_of_float rv
  | None => 0
  end.

(** [if on != nil && owner != "" { on(owner, ...) }] *)
Definition callOwner (on : Options -> bool) (owner : string) (c : callback) : M unit :=
  if decide (owner = "") then skip else call on c.

(** The [task_complete] case, into which [agent_message] falls through. *)
Definition reasoningDone (meta : option (gmap string json)) (owner : string) : M unit :=
  let key := requestKey meta in
  update (fun m => set_reasonBuf (delete key (reasonBuf m)) m);;
  callOwner onReasoningEnd owner (ReasoningEnd owner).

Definition handleNotify (raw : gmap string json) : M unit :=
  let method := asString (raw !! "method") in
  if decide (method = "codex/event") then
    let params := asObject (raw !! "params") in
    let meta := asObject (field params "_meta") in
    m ← get;
    let owner := ownerOf m meta in
    match asObject (field params "msg") with
    | None => skip
    | Some msg =>
        let typ := asString (msg !! "type") in
        touchActivity;;
        if decide (typ = "agent_reasoning_delta") then
          let delta := asString (msg !! "delta") in
          if decide (delta = "") then skip else
          let key := requestKey meta in
          update (fun m => set_reasonBuf
                    (<[key := default "" (reasonBuf m !! key) +:+ delta]> (reasonBuf m)) m);;
          m ← get;
          let text := default "" (reasonBuf m !! key) in
          callOwner onReasoning owner (Reasoning owner (truncate text 120))
        else if decide (typ = "agent_reasoning") then
          let final := asString (msg !! "message") in
          if decide (final = "") then skip else
          callOwner onReasoning owner (Reasoning owner (truncate final 120))
        else if decide (typ = "agent_message_delta") then
          let d := asString (msg !! "delta") in
          if decide (d = "") then skip else
          callOwner onAgentDelta owner (AgentDelta owner (requestKey meta) d)
        else if decide (typ = "agent_message") then
          let final := asString (msg !! "message") in
          callOwner onAgentDone owner (AgentDone owner (requestKey meta) final);;
          reasoningDone meta owner
        else if decide (typ = "task_complete") then
          reasoningDone meta owner
        else skip
    end
  else skip.

(** One line of the agent's output, after [strings.TrimSpace] and
    [json.Unmarshal] into a [map[string]any]. *)
Inductive line :=
| Blank                              (* empty after trimming *)
| Malformed                          (* [json.Unmarshal] fails *)
| Object (raw : gmap string json).

(** The [result] of a response, or else its [error]. *)
Definition respond (id : Z) (raw : gmap string json) : M unit :=
  match raw !! "result" with
  | Some res => deliver id res
  | None =>
      match raw !! "error" with
      | Some errObj => deliver id errObj
      | None => skip
      end
  end.

(** The body of the loop of [readLoop]. *)
Definition readLine (l : line) : M unit :=
  match l with
  | Blank | Malformed => skip
  | Object raw =>
      if decide (asString (raw !! "method") = "") then
        match raw !! "id" with
        | Some (JNum v) => respond (int64_of_float v) raw
        | Some (JStr v) =>
            match parseID v with
            | Some id => respond id raw
            | None => skip
            end
        | _ => skip
        end
      else handleNotify raw
  end.

(** [readLoop] over the lines that the scanner yields; each comes with
    the time the reader waited for it. *)
Fixpoint readLoop (lines : list (time.Duration * line)) : M unit :=
  match lines with
  | [] => skip
  | (d, l) :: rest => sleep d;; readLine l;; readLoop rest
  end.

(** [Reset] clears conversation state for the channel. *)
Definition Reset (channelID : string) : M unit :=
  if decide (channelID = "") then skip
  else update (fun m => set_convo (delete channelID (convo m)) m).

(** *** What the properties speak of *)

(** [wp c Q w]: run from [w], [c] returns (it does not panic) and [Q]
    holds of its value and of the world it leaves. *)
Definition wp {A : Type} (c : M A) (Q : A -> World -> Prop) (w : World) : Prop :=
  match c w with
  | Returns a w' => Q a w'
  | Panics _ => False
  end.

(** [w'] comes after [w], with the effects [new] in between. *)
Definition after (w : World) (new : list effect) (w' : World) : Prop :=
  trace w' = trace w ++ new.

Definition isToolsCall (msg : message) : bool :=
  match msg with
  | Request _ method _ => bool_decide (method = "tools/call")
  | Notification _ _ => false
  end.

(** The effects that make the life of a session and of a chat turn:
    starting, closing and killing the process, and [tools/call]
    requests. *)
Definition lifecycle (e : effect) : bool :=
  match e with
  | Spawned _ | SpawnFailed | ClosedStdin _ | Killed _ | KilledGroup _ => true
  | Wrote _ msg | WriteFailed _ msg _ => isToolsCall msg
  | Called _ | TimerStopped _ | TimerArmed _ => false
  end.

Definition life (t : list effect) : list effect := List.filter lifecycle t.

(** What requests, events and timers leave alone: the session, the
    bindings and the processes. *)
Definition sameSession (w w' : World) : Prop :=
  opts (bridge w') = opts (bridge w) ∧
  cmd (bridge w') = cmd (bridge w) ∧
  stdin (bridge w') = stdin (bridge w) ∧
  ready (bridge w') = ready (bridge w) ∧
  deadCh (bridge w') = deadCh (bridge w) ∧
  convo (bridge w') = convo (bridge w) ∧
  exited w' = exited w ∧
  spawned w' = spawned w.

(** What also a restart leaves alone. *)
Definition sameBindings (w w' : World) : Prop :=
  opts (bridge w') = opts (bridge w) ∧
  convo (bridge w') = convo (bridge w) ∧
  exited w' = exited w.

(** The state that [start] and the teardown in [ChatMulti] maintain: a
    bridge that is marked ready has a process and its stdin. *)
Definition consistent (w : World) : Prop :=
  ready (bridge w) = true →
  ∃ p, stdin (bridge w) = Some p ∧ cmd (bridge w) = Some p.

(** How the wait for request [id] ends, as [request] reports it. *)
Definition answer (env : Env) (id : Z) : result json :=
  match waitFor env id with
  | Answered v => Ok v
  | Cancelled => Err ContextError
  | TimedOut => Err RequestTimeout
  end.

(** What a request does to the world, whether or not it records an
    owner: one line is tried on the pipe, and the slot is left in the
    table unless the agent answers. *)
Definition requested (env : Env) (pipe : nat) (req : message) (id : Z)
    (w : World) (r : result json) (w' : World) : Prop :=
  sameSession w w' ∧ reqID (bridge w') = id ∧ written w' = S (written w) ∧
  idleTimer (bridge w') = idleTimer (bridge w) ∧
  lastActive (bridge w') = lastActive (bridge w) ∧
  dom (chans w) ⊆ dom (chans w') ∧
  match writeError env (written w) with
  | Some e =>
      r = Err (WriteError e) ∧ after w [WriteFailed pipe req e] w' ∧
      pending (bridge w') = <[id := fresh (dom (chans w))]> (pending (bridge w))
  | None =>
      r = answer env id ∧ after w [Wrote pipe req] w' ∧
      pending (bridge w') =
        match waitFor env id with
        | Answered _ => delete id (pending (bridge w))
        | _ => <[id := fresh (dom (chans w))]> (pending (bridge w))
        end
  end.

(** No slot of the table is one of the channels [D]. *)
Definition slotsOutside (D : gset nat) (w : World) : Prop :=
  ∀ id ch, pending (bridge w) !! id = Some ch → ch ∉ D.

(** From [w] to [w'] channels are only added, and a slot that is in the
    table of [w'] was there in [w] or is a channel made since. *)
Definition slotsKept (w w' : World) : Prop :=
  dom (chans w) ⊆ dom (chans w') ∧
  ∀ D, D ⊆ dom (chans w) → slotsOutside D w → slotsOutside D w'.

(** A started session: process [n] with its stdin and its death signal,
    marked ready. *)
Definition started (n : nat) (w' : World) : Prop :=
  stdin (bridge w') = Some n ∧ cmd (bridge w') = Some n ∧
  deadCh (bridge w') = Some n ∧ ready (bridge w') = true.

(** The parameters of a [tools/call] request that an effect tried to
    write, and those of a whole trace. *)
Definition callOf (e : effect) : option params :=
  match e with
  | Wrote _ (Request _ method p)
  | WriteFailed _ (Request _ method p) _ =>
      if decide (method = "tools/call") then Some p else None
  | _ => None
  end.

Definition calls (t : list effect) : list params := omap callOf t.

(** A request whose line is the [n]-th write: the effect it leaves and
    the result it reports. *)
Definition attemptEffect (env : Env) (n : nat) (pipe : nat) (req : message) : effect :=
  match writeError env n with
  | Some e => WriteFailed pipe req e
  | None => Wrote pipe req
  end.

Definition attemptResult (env : Env) (n : nat) (id : Z) : result json :=
  match writeError env n with
  | Some e => Err (WriteError e)
  | None => answer env id
  end.

(** The bindings after a turn of [channelID] that reported [r]. *)
Definition bound (channelID : string) (r : result json)
    (cv : gmap string string) : gmap string string :=
  match r with
  | Ok (JObj obj) =>
      match obj !! "conversationId" with
      | Some (JStr cid) => if decide (cid = "") then cv else <[channelID := cid]> cv
      | _ => cv
      end
  | _ => cv
  end.

(** What [touchActivity] leaves in the trace at [w]: with idle
    supervision on, the armed timer is stopped and one is armed for the
    instant [now + idleSeconds]. *)
Definition touchEffects (w : World) : list effect :=
  if idleSeconds (opts (bridge w)) <=? 0 then []
  else match idleTimer (bridge w) with
       | Some d => [TimerStopped d]
       | None => []
       end ++
       [TimerArmed (clock w + time.Seconds (idleSeconds (opts (bridge w))))].

(** The idle state right after activity at instant [t]. *)
Definition touchedAt (t : Z) (w' : World) : Prop :=
  0 < idleSeconds (opts (bridge w')) →
  lastActive (bridge w') = t ∧
  idleTimer (bridge w') = Some (t + time.Seconds (idleSeconds (opts (bridge w')))).

(** What a turn does, from the world [w1] in which the first
    [ensureStarted] returned nil with process [p1]: the first attempt
    and, when it fails, the teardown, the restart and the retry. *)
Definition turned (env : Env) (ch : config.Channel) (call : params)
    (p1 : nat) (w1 : World) (r : result json) (w' : World) : Prop :=
  let id1 := wrap64 (reqID (bridge w1) + 1) in
  let n1 := written w1 in
  let A1 := attemptEffect env n1 p1 (Request id1 "tools/call" call) in
  opts (bridge w') = opts (bridge w1) ∧ exited w' = exited w1 ∧
  convo (bridge w') = bound (config.ChannelID ch) r (convo (bridge w1)) ∧
  (∀ res, r = Ok res → touchedAt (clock w') w') ∧
  ∃ rest, after w1 (touchEffects w1 ++ A1 :: rest) w' ∧
    match attemptResult env n1 id1 with
    | Ok res =>
        r = Ok res ∧ life rest = [] ∧ touchedAt (clock w') w' ∧
        stdin (bridge w') = Some p1 ∧ cmd (bridge w') = Some p1 ∧
        ready (bridge w') = ready (bridge w1) ∧
        deadCh (bridge w') = deadCh (bridge w1) ∧ spawned w' = spawned w1
    | Err e1 =>
        slotsOutside (dom (chans w1)) w' ∧ spawned w' = S (spawned w1) ∧
        match startError env (spawned w1) with
        | Some _ =>
            r = Err e1 ∧
            life rest = [ClosedStdin p1; Killed p1; SpawnFailed] ∧
            stdin (bridge w') = None ∧ ready (bridge w') = false
        | None =>
            let p2 := spawned w1 in
            let id2 := wrap64 (wrap64 (id1 + 1) + 1) in
            let n2 := S (S (S n1)) in
            r = attemptResult env n2 id2 ∧
            life rest = [ClosedStdin p1; Killed p1; Spawned p2;
                         attemptEffect env n2 p2 (Request id2 "tools/call" call)] ∧
            started p2 w'
        end
    end.

(** The arguments of a "start" call: the prompt, behind the trimmed
    preamble and a blank line when the trimmed preamble is not empty
    (the prompt is then trimmed too); the fixed sandbox and approval
    policy; [cwd] when the channel has a working directory; the user tag
    when the context carries one; and nothing else. *)
Definition startArguments (c : config.Codex) (ctx : Context) (ch : config.Channel)
    (prompt : string) (args : gmap string json) : Prop :=
  let pre := strings.TrimSpace (config.Preamble c) in
  args !! "prompt" =
    Some (JStr (if decide (pre = "") then prompt
                else pre +:+ nl +:+ nl +:+ strings.TrimSpace prompt)) ∧
  args !! "sandbox" = Some (JStr "workspace-write") ∧
  args !! "approval-policy" = Some (JStr "never") ∧
  args !! "cwd" = (if decide (config.Workdir ch = "") then None
                   else Some (JStr (config.Workdir ch))) ∧
  args !! "user" = JStr <$> userTag ctx ∧
  dom args ⊆ {[ "prompt"; "sandbox"; "approval-policy"; "cwd"; "user" ]}.

(** The arguments of a "reply" call: the stored conversation id, the
    prompt as given, the user tag when the context carries one, and
    nothing else. *)
Definition replyArguments (cid : string) (ctx : Context) (prompt : string)
    (args : gmap string json) : Prop :=
  args !! "conversationId" = Some (JStr cid) ∧
  args !! "prompt" = Some (JStr prompt) ∧
  args !! "user" = JStr <$> userTag ctx ∧
  dom args ⊆ {[ "conversationId"; "prompt"; "user" ]}.

(** What a whole [ChatMulti] leaves behind, as far as the calls and the
    bindings go: every [tools/call] it tried to write is [call]; it
    wrote none only if no process could be started; the binding of the
    channel follows the result. *)
Definition chatted (ch : config.Channel) (call : params) (w : World)
    (r : result json) (w' : World) : Prop :=
  consistent w' ∧ opts (bridge w') = opts (bridge w) ∧
  convo (bridge w') = bound (config.ChannelID ch) r (convo (bridge w)) ∧
  ∃ new, after w new w' ∧
    Forall (λ c, c = call) (calls new) ∧
    (calls new = [] → ∃ s, r = Err (StartError s)).

(** The callbacks that a trace has called. *)
Definition callbacksIn (t : list effect) : list callback :=
  omap (λ e, match e with Called c => Some c | _ => None end) t.

(** The [_meta] and [msg] objects of a notification. *)
Definition metaOf (raw : gmap string json) : option (gmap string json) :=
  asObject (field (asObject (raw !! "params")) "_meta").

Definition msgOf (raw : gmap string json) : option (gmap string json) :=
  asObject (field (asObject (raw !! "params")) "msg").

(** The line is a notification of method [codex/event]. *)
Definition isEvent (raw : gmap string json) : Prop :=
  asString (raw !! "method") = "codex/event".

(** The request id that an event embeds, a number or a numeric string,
    has no registered owner. *)
Definition unowned (m : MCPBridge) (raw : gmap string json) : Prop :=
  match field (metaOf raw) "requestId" with
  | Some (JNum t) => owners m !! int64_of_float t = None
  | Some (JStr t) => ∀ id, parseID t = Some id → owners m !! id = None
  | _ => True
  end.

(** What the handling of a notification leaves alone: everything but the
    reasoning buffers, the idle timer and the trace. *)
Definition eventKept (w w' : World) : Prop :=
  sameSession w w' ∧
  pending (bridge w') = pending (bridge w) ∧
  owners (bridge w') = owners (bridge w) ∧
  reqID (bridge w') = reqID (bridge w) ∧
  chans w' = chans w ∧ written w' = written w ∧ clock w' = clock w.

End mcp.

(** ** The interactive tail bridge ([InteractiveTailBridge]) *)

Module tail.

Inductive error :=
| RootError                        (* os.UserHomeDir fails in waitRoot *)
| StartError (e : string)          (* pipe setup or cmd.Start *)
| SessionNotFound (root : string)  (* "session file not found in %q" *)
| WriteError (e : string)          (* io.WriteString on the session's stdin *)
| ContextError                     (* ctx.Err() *)
| TailTimeout.                     (* "interactive tail timeout" *)

Inductive result (A : Type) :=
| Ok (a : A)
| Err (e : error).
Arguments Ok {A} a.
Arguments Err {A} e.

Inductive effect :=
| Spawned (pid : nat)
| Killed (pid : nat)                   (* cmd.Process.Kill *)
| Tailing (file : string) (out : nat)  (* go tailJSONL(sessPath, out) *)
| Wrote (pipe : nat) (text : string).  (* io.WriteString(s.stdin, text) *)

(** *** Session discovery *)

(** One call of the function that [filepath.WalkDir] is given: the path,
    the entry and the error it is called with, and what [d.Info()]
    returns. *)
Record DirEntry := {
  path : string;
  name : string;          (* d.Name() *)
  isDir : bool;           (* d.IsDir() *)
  walkErr : bool;         (* err != nil *)
  infoErr : bool;         (* d.Info() fails *)
  modTime : Z }.          (* info.ModTime() *)

(** The first four tests of both walk functions. *)
Definition skipped (e : DirEntry) : bool :=
  if walkErr e then true
  else if isDir e then true
  else if negb (strings.HasSuffix (strings.ToLower (name e)) ".jsonl") then true
  else infoErr e.

(** [snapshotSessionFiles]: path -> modification time. *)
Definition snapshotSessionFiles (entries : list DirEntry) : gmap string Z :=
  foldl (fun snap e => if skipped e then snap else <[path e := modTime e]> snap)
        ∅ entries.

(** The walk function of [waitNewSessionFileFromSnapshot], on the pair
    [(candidate, latest)]. *)
Definition visit (before : gmap string Z) (since : Z)
    (acc : string * Z) (e : DirEntry) : string * Z :=
  if skipped e then acc else
  let mt := modTime e in
  if mt <? since - 2 * time.Second then acc else
  match before !! path e with
  | Some bt => if negb (bt <? mt) then acc
               else if snd acc <? mt then (path e, mt) else acc
  | None => if snd acc <? mt then (path e, mt) else acc
  end.

Definition walk (before : gmap string Z) (since : Z)
    (entries : list DirEntry) : string * Z :=
  foldl (visit before since) ("", 0) entries.

(** The sessions directory over time: what a walk started at instant [t]
    visits, and by how much the loop oversleeps after it. *)
Record Dir := {
  listing : Z -> list DirEntry;
  lag : Z -> time.Duration }.

(** The loop of [waitNewSessionFileFromSnapshot] from instant [t] on. *)
Fixpoint poll (fuel : nat) (dir : Dir) (root : string) (before : gmap string Z)
    (since deadline t : Z) : option (result string) :=
  match fuel with
  | O => None
  | S fuel' =>
      if t <? deadline then
        let candidate := fst (walk before since (listing dir t)) in
        if decide (candidate = "") then
          poll fuel' dir root before since deadline
               (t + 300 * time.Millisecond + lag dir t)
        else Some (Ok candidate)
      else Some (Err (SessionNotFound root))
  end.

(** Every round of the loop sleeps 300ms, so [timeout / 300ms + 2] rounds
    are all that a [timeout] leaves room for. *)
Definition rounds (timeout : time.Duration) : nat :=
  Z.to_nat (timeout / (300 * time.Millisecond)) + 2.

Definition waitNewSessionFileFromSnapshot (dir : Dir) (root : string)
    (before : gmap string Z) (since : Z) (timeout : time.Duration) (t : Z)
    : option (result string) :=
  poll (rounds timeout) dir root before since (t + timeout) t.

(** *** Sessions *)

Record itSession := { cmd : nat; stdin : nat; out : nat }.

Record InteractiveTailBridge := {
  conf : config.Codex;
  m : gmap string itSession }.     (* channelID -> session *)

Record Env := {
  root : option string;            (* what waitRoot resolves, if it can *)
  startError : option string;      (* failure of the pipes or of cmd.Start *)
  pid : nat;                       (* the process that cmd.Start creates *)
  dir : Dir }.

(** [ensure] at instant [t]: the session or the error, the bridge and the
    effects.  [None] only if the discovery loop does not come back. *)
Definition ensure (env : Env) (b : InteractiveTailBridge) (ch : config.Channel)
    (t : Z) : option (result itSession * InteractiveTailBridge * list effect) :=
  match m b !! config.ChannelID ch with
  | Some s => Some (Ok s, b, [])
  | None =>
      match root env with
      | None => Some (Err RootError, b, [])
      | Some r =>
          let before := snapshotSessionFiles (listing (dir env) t) in
          match startError env with
          | Some e => Some (Err (StartError e), b, [])
          | None =>
              let start := t in
              match waitNewSessionFileFromSnapshot (dir env) r before start
                      (20 * time.Second) t with
              | None => None
              | Some (Err e) => Some (Err e, b, [Spawned (pid env); Killed (pid env)])
              | Some (Ok sessPath) =>
                  let ns := {| cmd := pid env; stdin := pid env; out := pid env |} in
                  Some (Ok ns,
                        {| conf := conf b; m := <[config.ChannelID ch := ns]> (m b) |},
                        [Spawned (pid env); Tailing sessPath (out ns)])
              end
          end
      end
  end.

(** *** Collecting the reply *)

(** The case that a round of the [select] in [Chat] takes. *)
Inductive selected :=
| CtxDone                  (* <-ctx.Done() *)
| DeadlineFired            (* <-deadline.C *)
| Received (msg : string)  (* m := <-s.out *)
| IdleFired.               (* <-idle.C *)

Inductive collected :=
| Returned (r : result string)
| Waiting                  (* the loop is in its [select] *)
| Infeasible.              (* a timer channel delivered before its time *)

Definition idleGap : time.Duration := 1200 * time.Millisecond.

(** The loop of [Chat] against the cases taken, each with the instant at
    which it is taken.  A timer's channel can be taken only once its time
    has come; [idleAt] is the time of the idle timer, [prev] the instant
    of the previous round. *)
Fixpoint collect (deadline idleAt prev : Z) (last : string)
    (evs : list (Z * selected)) : collected :=
  match evs with
  | [] => Waiting
  | (t, ev) :: evs' =>
      if t <? prev then Infeasible else
      match ev with
      | CtxDone =>
          Returned (if decide (last = "") then Err ContextError else Ok last)
      | DeadlineFired =>
          if t <? deadline then Infeasible else
          Returned (if decide (last = "") then Err TailTimeout else Ok last)
      | Received msg =>
          collect deadline (t + idleGap) t
                  (if decide (msg = "") then last else msg) evs'
      | IdleFired =>
          if t <? idleAt then Infeasible else
          if decide (last = "") then collect deadline (t + idleGap) t last evs'
          else Returned (Ok last)
      end
  end.

(** What one [Chat] meets: the failure of its write, if any, and the
    cases its [select] takes. *)
Record Turn := {
  writeError : option string;
  writtenAt : Z;                   (* the instant after the write *)
  taken : list (Z * selected) }.

(** [Chat], called at instant [t]. *)
Definition Chat (env : Env) (turn : Turn) (b : InteractiveTailBridge)
    (ch : config.Channel) (prompt : string) (t : Z)
    : option (collected * InteractiveTailBridge * list effect) :=
  match ensure env b ch t with
  | None => None
  | Some (Err e, b', eff) => Some (Returned (Err e), b', eff)
  | Some (Ok s, b', eff) =>
      let text := strings.TrimSpace prompt +:+ String (ascii_of_nat 10) EmptyString in
      match writeError turn with
      | Some e => Some (Returned (Err (WriteError e)), b', eff)
      | None =>
          let to := config.TimeoutSeconds (conf b) in
          let to := if to <=? 0 then 180 else to in
          let t0 := writtenAt turn in
          Some (collect (t0 + time.Seconds to) (t0 + idleGap) t0 "" (taken turn),
                b', eff ++ [Wrote (stdin s) text])
      end
  end.

(** *** What the properties speak of *)

(** The latest non-empty message among the cases taken, starting from
    [last]. *)
Definition latest (last : string) (evs : list (Z * selected)) : string :=
  foldl (fun l e => match snd e with
                    | Received msg => if decide (msg = "") then l else msg
                    | _ => l
                    end) last evs.

(** A file that discovery may return: a [.jsonl] file, new or advanced
    against the baseline, modified no earlier than 2s before [since]. *)
Definition qualifies (before : gmap string Z) (since : Z) (e : DirEntry) : Prop :=
  walkErr e = false ∧ isDir e = false ∧ infoErr e = false ∧
  strings.HasSuffix (strings.ToLower (name e)) ".jsonl" = true ∧
  since - 2 * time.Second ≤ modTime e ∧
  match before !! path e with
  | Some bt => bt < modTime e
  | None => True
  end.

(** The instant of the last of the cases taken, [t0] if there is none. *)
Definition lastAt (t0 : Z) (evs : list (Z * selected)) : Z :=
  foldl (λ _ e, fst e) t0 evs.

(** The time of the idle timer after the cases [evs]: every one of them
    reset it. *)
Definition idleAfter (idleAt : Z) (evs : list (Z * selected)) : Z :=
  match evs with
  | [] => idleAt
  | _ => lastAt 0 evs + idleGap
  end.

End tail.

(** ** Concrete runs

    The worlds, environments and inputs at which the properties are
    exercised. *)

Module scenario.
Import mcp.

Definition conf : config.Codex :=
  {| config.CodexCommand := ""; config.SessionRoot := "";
     config.TimeoutSeconds := 120; config.Debug := false;
     config.IdleSeconds := 600; config.Preamble := "" |}.

(** Owner C of the specification's scenario. *)
Definition C : config.Channel :=
  {| config.ChannelID := "C"; config.Command := ""; config.Workdir := "";
     config.Env := [] |}.

(** A bridge that has not started anything, at instant 0. *)
Definition fresh : World := boot (NewMCPBridge conf false) 0.

Definition anonymous : Context := {| userTag := None |}.
Definition alice : Context := {| userTag := Some "alice" |}.

(** An agent that answers every request; the first [tools/call] (request
    2, after [initialize]) is answered with the token and the text of the
    specification's scenario. *)
Definition listing : json :=
  JObj {[ "conversationId" := JStr "abc123"; "content" := JStr "a.txt b.txt" ]}.

Definition healthy : Env :=
  {| startError := λ _, None;
     writeError := λ _, None;
     waitFor := λ id, if id =? 2 then Answered listing else Answered (JObj ∅);
     elapsed := λ _, 5 * time.Millisecond;
     exitsOnClose := λ _, true |}.

(** The first process starts, the pipe breaks under the first
    [tools/call] (the third write, after [initialize] and [initialized]),
    and no further process can be started. *)
Definition broken : Env :=
  {| startError := λ n, if (n =? 0)%nat then None else Some "exec: codex: not found";
     writeError := λ n, if (n =? 2)%nat then Some "write |1: broken pipe" else None;
     waitFor := λ _, Answered (JObj ∅);
     elapsed := λ _, 5 * time.Millisecond;
     exitsOnClose := λ _, true |}.

(** The pipe breaks under the first [tools/call] and the restart works. *)
Definition flaky : Env :=
  {| startError := λ _, None;
     writeError := λ n, if (n =? 2)%nat then Some "write |1: broken pipe" else None;
     waitFor := λ _, Answered (JObj ∅);
     elapsed := λ _, 5 * time.Millisecond;
     exitsOnClose := λ _, true |}.

(** An agent that never answers. *)
Definition silent : Env :=
  {| startError := λ _, None;
     writeError := λ _, None;
     waitFor := λ _, TimedOut;
     elapsed := λ _, 0;
     exitsOnClose := λ _, true |}.

(** The world that a run leaves, [w] itself if the run panics. *)
Definition left {A : Type} (c : M A) (w : World) : World :=
  match c w with
  | Returns _ w' => w'
  | Panics w' => w'
  end.

(** A bridge with a running process: [fresh] after one [ensureStarted]. *)
Definition running : World := left (ensureStarted healthy C) fresh.

(** The same, half a minute later. *)
Definition later : World := with_clock (30 * time.Second) running.

(** An event of request 7, which nobody has sent. *)
Definition strayDelta : gmap string json :=
  {[ "jsonrpc" := JStr "2.0"; "method" := JStr "codex/event";
     "params" := JObj {[ "_meta" := JObj {[ "requestId" := JNum 7 ]};
                         "msg" := JObj {[ "type" := JStr "agent_message_delta";
                                          "delta" := JStr "Hel" ]} ]} ]}.

(** A notification that is not an event. *)
Definition progress : gmap string json :=
  {[ "jsonrpc" := JStr "2.0"; "method" := JStr "notifications/progress";
     "params" := JObj {[ "msg" := JObj {[ "type" := JStr "progress" ]} ]} ]}.

(** A bridge with all callbacks registered, after C's first turn (request
    2), and events of that request. *)
Definition streaming : World :=
  left (ChatMulti healthy alice C "list files")
       (boot (WithHandlers (NewMCPBridge conf false)) 0).

Definition event (requestId : Q) (msg : gmap string json) : gmap string json :=
  {[ "jsonrpc" := JStr "2.0"; "method" := JStr "codex/event";
     "params" := JObj {[ "_meta" := JObj {[ "requestId" := JNum requestId ]};
                         "msg" := JObj msg ]} ]}.

Definition delta (text : string) : gmap string json :=
  {[ "type" := JStr "agent_message_delta"; "delta" := JStr text ]}.

Definition final (text : string) : gmap string json :=
  {[ "type" := JStr "agent_message"; "message" := JStr text ]}.

End scenario.

Module tailScenario.
Import tail.

Definition file (p n : string) (mt : Z) : DirEntry :=
  {| path := p; name := n; isDir := false; walkErr := false; infoErr := false;
     modTime := mt |}.

Definition oldLog : DirEntry := file "/s/2024/old.jsonl" "old.jsonl" (50 * time.Second).
Definition newLog : DirEntry :=
  file "/s/2024/new.JSONL" "new.JSONL" (100 * time.Second + 400 * time.Millisecond).

(** The sessions directory holds an old log; half a second after instant
    100s the agent has created a new one. *)
Definition sessions : Dir :=
  {| listing := λ t, if t <? 100 * time.Second + 500 * time.Millisecond
                     then [oldLog] else [oldLog; newLog];
     lag := λ _, 0 |}.

(** The same directory when the agent never writes a log. *)
Definition stale : Dir := {| listing := λ _, [oldLog]; lag := λ _, 0 |}.

(** The same directory when the agent writes its log only 25s after
    instant 100s. *)
Definition lateLog : DirEntry :=
  file "/s/2024/late.jsonl" "late.jsonl" (125 * time.Second).

Definition tardy : Dir :=
  {| listing := λ t, if t <? 125 * time.Second then [oldLog] else [oldLog; lateLog];
     lag := λ _, 0 |}.

Definition env (d : Dir) : Env :=
  {| root := Some "/s"; startError := None; pid := 7; dir := d |}.

Definition bridge : InteractiveTailBridge := {| conf := scenario.conf; m := ∅ |}.

(** A bridge that has a session for C, and a turn in which two messages
    arrive and then nothing for 1.2s. *)
Definition session : itSession := {| cmd := 7; stdin := 7; out := 7 |}.

Definition chatting : InteractiveTailBridge :=
  {| conf := scenario.conf; m := {[ "C" := session ]} |}.

Definition arrivals : list (Z * selected) :=
  [(1000 * time.Millisecond, Received "Hel");
   (1500 * time.Millisecond, Received "Hello")].

Definition quiet : Turn :=
  {| writeError := None; writtenAt := 0;
     taken := arrivals ++ [(2700 * time.Millisecond, IdleFired)] |}.

(** The first turn of C, on a bridge without session: the prompt is
    written a second after instant 100s, two messages arrive and then
    nothing for 1.2s. *)
Definition firstArrivals : list (Z * selected) :=
  [(102 * time.Second, Received "Hel");
   (102 * time.Second + 500 * time.Millisecond, Received "Hello")].

Definition first : Turn :=
  {| writeError := None; writtenAt := 101 * time.Second;
     taken := firstArrivals
                ++ [(103 * time.Second + 700 * time.Millisecond, IdleFired)] |}.

End tailScenario.

(** ** The texts of a result ([extractTextFromResult],
    [extractAgentMessages], [Chat])

    The two extraction functions descend into the objects under [result]
    and [data].  The recursive call is written through [<$>], which applies
    the function to the values of the object, so that the recursion is
    structural; [extractText_unfold] and [agentMessages_unfold] give the
    equations in the shape of the source. *)

Module codex.
Import mcp.

(** A string that [strings.TrimSpace] leaves as it is. *)
Definition trimmed (s : string) : Prop := strings.TrimSpace s = s.

(** The number of nodes of a value: the measure by which the properties
    of the two recursive functions are proved. *)
Fixpoint size (v : json) : nat :=
  match v with
  | JArr l => S (foldr (fun x n => size x + n)%nat 0%nat l)
  | JObj m => S (map_fold (fun _ x n => size x + n)%nat 0%nat m)
  | _ => 1%nat
  end.

(** The loop [for i := len(arr) - 1; i >= 0; i--] that returns at the
    first element, a map, in which [pick] finds a string. *)
Fixpoint fromEnd (pick : gmap string json -> option string) (arr : list json)
    : option string :=
  match arr with
  | [] => None
  | v :: rest =>
      match fromEnd pick rest with
      | Some s => Some s
      | None => match v with JObj m => pick m | _ => None end
      end
  end.

(** [m["message"].(string)], else [m["content"].(string)], trimmed. *)
Definition pickMessage (m : gmap string json) : option string :=
  match m !! "message" with
  | Some (JStr s) => Some (strings.TrimSpace s)
  | _ =>
      match m !! "content" with
      | Some (JStr s) => Some (strings.TrimSpace s)
      | _ => None
      end
  end.

(** [part["text"].(string)], trimmed. *)
Definition pickText (part : gmap string json) : option string :=
  match part !! "text" with
  | Some (JStr t) => Some (strings.TrimSpace t)
  | _ => None
  end.

(** [v.([]any)] on the result of a map read. *)
Definition asArray (v : option json) : option (list json) :=
  match v with Some (JArr l) => Some l | _ => None end.

Fixpoint extractText (v : json) : string :=
  match v with
  | JObj obj =>
      match obj !! "message" with
      | Some (JStr s) => strings.TrimSpace s
      | _ =>
      match obj !! "content" with
      | Some (JStr s) => strings.TrimSpace s
      | _ =>
      match asArray (obj !! "messages") ≫= fromEnd pickMessage with
      | Some s => s
      | None =>
      match asArray (obj !! "content") ≫= fromEnd pickText with
      | Some s => s
      | None =>
          let under (k : string) : string :=
            match obj !! k with
            | Some (JObj _) => default "" ((extractText <$> obj) !! k)
            | _ => ""
            end in
          if decide (under "result" = "") then under "data" else under "result"
      end end end end
  | _ => ""
  end.

Definition extractTextFromResult (obj : gmap string json) : string :=
  extractText (JObj obj).

(** The text that the parts of a [content] array make. *)
Definition partsText (parts : list json) : string :=
  foldl (fun b p =>
           match p with
           | JObj pm =>
               let txt := asString (pm !! "text") in
               if decide (txt = "") then b else b +:+ txt
           | _ => b
           end) "" parts.

(** What one element of [messages] adds to [out], if anything. *)
Definition agentMessage (it : json) : option string :=
  match it with
  | JObj m =>
      if decide (asString (m !! "type") = "agent_message") then
        let s := asString (m !! "message") in
        if decide (strings.TrimSpace s = "") then
          let s := asString (m !! "content") in
          if decide (strings.TrimSpace s = "") then
            match m !! "content" with
            | Some (JArr parts) =>
                let s := strings.TrimSpace (partsText parts) in
                if decide (s = "") then None else Some s
            | _ => None
            end
          else Some (strings.TrimSpace s)
        else Some (strings.TrimSpace s)
      else None
  | _ => None
  end.

Fixpoint agentMessages (v : json) : list string :=
  match v with
  | JObj obj =>
      let under (k : string) : list string :=
        match obj !! k with
        | Some (JObj _) => default [] ((agentMessages <$> obj) !! k)
        | _ => []
        end in
      match under "result" with
      | (_ :: _) as out => out
      | [] =>
          match under "data" with
          | (_ :: _) as out => out
          | [] => omap agentMessage (default [] (asArray (obj !! "messages")))
          end
      end
  | _ => []
  end.

Definition extractAgentMessages (obj : gmap string json) : list string :=
  agentMessages (JObj obj).

(** The end of [ChatMulti], from [json.Unmarshal(res, &obj)] on: the
    messages it returns for the result [res] of the call.  [text] is
    [string(res)], the JSON text that [deliver] made of the result.
    [json.Unmarshal] into a map succeeds on an object and on [null], which
    leaves the map nil. *)
Definition replies (o : Options) (res : json) (text : string) : list string :=
  let whole := let s := strings.TrimSpace text in
               if decide (s = "") then [] else [s] in
  match match res with
        | JObj obj => Some obj
        | JNull => Some ∅
        | _ => None
        end with
  | Some obj =>
      if onAgentDelta o || onAgentDone o then []
      else match extractAgentMessages obj with
           | (_ :: _) as arr => arr
           | [] =>
               let msg := extractTextFromResult obj in
               if decide (msg = "") then whole else [msg]
           end
  | None => whole
  end.

(** [ChatMulti] with the messages it returns; [marshal] is
    [json.Marshal]. *)
Definition ChatMultiMessages (marshal : json -> string) (env : Env) (ctx : Context)
    (ch : config.Channel) (prompt : string) : M (result (list string)) :=
  r ← ChatMulti env ctx ch prompt;
  match r with
  | Err e => mret (Err e)
  | Ok res => m ← get; mret (Ok (replies (opts m) res (marshal res)))
  end.

(** [Chat]: the messages of [ChatMulti], joined by blank lines. *)
Definition Chat (marshal : json -> string) (env : Env) (ctx : Context)
    (ch : config.Channel) (prompt : string) : M (result string) :=
  r ← ChatMultiMessages marshal env ctx ch prompt;
  match r with
  | Err e => mret (Err e)
  | Ok msgs =>
      match msgs with
      | [] => mret (Ok "")
      | _ => mret (Ok (strings.Join msgs (nl +:+ nl)))
      end
  end.

(** [osDebug]; [v] is what [os.LookupEnv("DISCODEX_DEBUG")] finds. *)
Definition osDebug (v : option string) : bool :=
  match v with
  | Some v =>
      negb (bool_decide (v = "")) && negb (bool_decide (v = "0")) &&
      negb (bool_decide (strings.ToLower v = "false"))
  | None => false
  end.

End codex.

(** ** The tailer of the session log ([tailJSONL],
    [extractAgentMessageFromAnyJSON]) and the older discovery loop
    ([waitLatestSessionFileAt]) *)

Module tailer.
Import tail.

(** The message of a map of type [agent_message], when it is a string
    that is not empty. *)
Definition agentText (m : gmap string json) : option string :=
  if decide (asString (m !! "type") = "agent_message") then
    let s := asString (m !! "message") in
    if decide (s = "") then None else Some (strings.TrimSpace s)
  else None.

(** [extractAgentMessageFromAnyJSON] on a line, trimmed and decoded as
    for [readLoop]. *)
Definition extractAgentMessageFromAnyJSON (l : mcp.line) : string :=
  match l with
  | mcp.Blank | mcp.Malformed => ""
  | mcp.Object v =>
      match asObject (v !! "msg") ≫= agentText with
      | Some s => s
      | None =>
          match agentText v with
          | Some s => s
          | None =>
              match codex.asArray (v !! "messages") ≫= codex.fromEnd agentText with
              | Some s => s
              | None => ""
              end
          end
      end
  end.

(** [tailJSONL]: what it sends on [out] for the lines that are appended
    to the file, in their order. *)
Definition tailJSONL (lines : list mcp.line) : list string :=
  omap (fun l => let m := extractAgentMessageFromAnyJSON l in
                 if decide (m = "") then None else Some m) lines.

(** The messages among the cases that the [select] of [Chat] takes. *)
Definition received (evs : list (Z * selected)) : list string :=
  omap (fun e => match snd e with Received msg => Some msg | _ => None end) evs.

(** The walk function of [waitLatestSessionFileAt], on the pair
    [(latestPath, latestMod)]. *)
Definition visitLatest (since : Z) (acc : string * Z) (e : DirEntry) : string * Z :=
  if skipped e then acc else
  let mt := modTime e in
  if mt <? since - 2 * time.Second then acc
  else if snd acc <? mt then (path e, mt) else acc.

Fixpoint pollLatest (fuel : nat) (dir : Dir) (root : string)
    (since deadline t : Z) : option (result string) :=
  match fuel with
  | O => None
  | S fuel' =>
      if t <? deadline then
        let latestPath := fst (foldl (visitLatest since) ("", 0) (listing dir t)) in
        if decide (latestPath = "") then
          pollLatest fuel' dir root since deadline
                     (t + 300 * time.Millisecond + lag dir t)
        else Some (Ok latestPath)
      else Some (Err (SessionNotFound root))
  end.

(** [waitLatestSessionFileAt]; [Clean] is [filepath.Clean]. *)
Definition waitLatestSessionFileAt (Clean : string -> string) (dir : Dir)
    (root : string) (since : Z) (timeout : time.Duration) (t : Z)
    : option (result string) :=
  let root := Clean root in
  pollLatest (rounds timeout) dir root since (t + timeout) t.

End tailer.

(** ** Loading the configuration ([config.Load]) and the channel map of
    [main] *)

Module loader.

Record Discord := {
  BotToken : string;
  GuildID : string;
  LogChannelID : string }.

Record Config := {
  discord : Discord;
  Channels : list config.Channel;
  Codex : config.Codex }.

(** What [os.ReadFile] and [toml.Decode] make of the file. *)
Inductive file :=
| Unreadable (e : string)
| Undecodable (e : string)
| Decoded (c : Config).

Inductive error :=
| ReadError (e : string)
| DecodeError (e : string)
| EmptyChannelID (i : nat).     (* "channels[%d].channel_id is empty" *)

(** The validation loop, from index [i] on: the index of the first
    channel without id. *)
Fixpoint firstEmpty (i : nat) (chs : list config.Channel) : option nat :=
  match chs with
  | [] => None
  | ch :: rest =>
      if decide (config.ChannelID ch = "") then Some i else firstEmpty (S i) rest
  end.

Definition Load (f : file) : Config + error :=
  match f with
  | Unreadable e => inr (ReadError e)
  | Undecodable e => inr (DecodeError e)
  | Decoded c =>
      match firstEmpty 0 (Channels c) with
      | Some i => inr (EmptyChannelID i)
      | None => inl c
      end
  end.

(** The map that [main] builds: [cmap[ch.ChannelID] = ch] for the
    channels in their order. *)
Definition channelMap (chs : list config.Channel) : gmap string config.Channel :=
  foldl (fun cmap ch => <[config.ChannelID ch := ch]> cmap) ∅ chs.

End loader.

(** ** The Discord front-end ([internal/discordbot])

    The maps of the bot are those that [New] makes; the session is there
    or nil.  What the bot does to Discord and to its two handlers is a
    list of effects. *)

Module discordgo.

Record User := {
  ID : string;
  Bot : bool;
  Username : string;
  GlobalName : string;
  Discriminator : string }.

Record GuildMember := { Nick : string }.

Record MessageCreate := {
  Author : option User;
  Member : option GuildMember;
  Content : string;
  ChannelID : string;
  Mentions : list (option User) }.

End discordgo.

Module discordbot.
Import discordgo.

Definition isMentioned (content botID : string) : bool :=
  strings.Contains content ("<@" +:+ botID +:+ ">") ||
  strings.Contains content ("<@!" +:+ botID +:+ ">").

Definition stripMention (content botID : string) : string :=
  let content := strings.ReplaceAll content ("<@" +:+ botID +:+ ">") "" in
  let content := strings.ReplaceAll content ("<@!" +:+ botID +:+ ">") "" in
  strings.TrimSpace content.

Definition isMentionedByArray (mentions : list (option User)) (botID : string) : bool :=
  existsb (fun u => match u with
                    | Some u => bool_decide (ID u = botID)
                    | None => false
                    end) mentions.

(** [debugEnabled]; [v] is what [os.LookupEnv("DISCODEX_DEBUG")] finds. *)
Definition debugEnabled (v : option string) : bool :=
  match v with
  | Some v =>
      let v := strings.ToLower (strings.TrimSpace v) in
      negb (bool_decide (v = "")) && negb (bool_decide (v = "0")) &&
      negb (bool_decide (v = "false"))
  | None => false
  end.

(** [splitDiscordMessage]: the loop [for i := 0; i < len(s); i += lim].
    It ends within [len(s)] rounds. *)
Definition lim : Z := 1900.

Fixpoint chunksFrom (fuel : nat) (s : string) (i : Z) : list string :=
  match fuel with
  | O => []
  | S fuel' =>
      if i <? len s then
        let j := i + lim in
        let j := if len s <? j then len s else j in
        String.substring (Z.to_nat i) (Z.to_nat (j - i)) s :: chunksFrom fuel' s (i + lim)
      else []
  end.

Definition splitDiscordMessage (s : string) : list string :=
  if len s <=? lim then [s] else chunksFrom (String.length s) s 0.

(** The chunks put together again. *)
Definition joined (l : list string) : string := foldr String.append "" l.

(** [buildUserTag], for a message that is not nil. *)
Definition buildUserTag (m : MessageCreate) : string :=
  match Author m with
  | None => ""
  | Some user =>
      let display :=
        match Member m with
        | Some mem => if decide (strings.TrimSpace (Nick mem) = "") then "" else Nick mem
        | None => ""
        end in
      let display :=
        if decide (display = "") then
          if decide (strings.TrimSpace (GlobalName user) = "") then display
          else GlobalName user
        else display in
      let display := if decide (display = "") then Username user else display in
      let d := strings.TrimSpace (Discriminator user) in
      if decide (d = "") then display
      else if decide (d = "0") then display
      else display +:+ "#" +:+ d
  end.

Record streamState := {
  messageID : string;
  content : string;
  lastEdit : Z }.

Record Bot := {
  session : bool;                          (* b.session != nil *)
  channelMap : gmap string config.Channel;
  onChat : bool;                           (* b.onChat != nil *)
  onReset : bool;                          (* b.onReset != nil *)
  streams : gmap string streamState;
  logChannelID : string;
  typing : gset string }.                  (* channels with a typing ticker *)

Definition set_streams (v : gmap string streamState) (b : Bot) : Bot :=
  {| session := session b; channelMap := channelMap b; onChat := onChat b;
     onReset := onReset b; streams := v; logChannelID := logChannelID b;
     typing := typing b |}.

Definition set_typing (v : gset string) (b : Bot) : Bot :=
  {| session := session b; channelMap := channelMap b; onChat := onChat b;
     onReset := onReset b; streams := streams b; logChannelID := logChannelID b;
     typing := v |}.

Inductive effect :=
| Send (channelID content : string)               (* ChannelMessageSend *)
| Edit (channelID messageID content : string)     (* ChannelMessageEdit *)
| TypingStarted (channelID : string)   (* the ticker goroutine of startTyping *)
| TypingStopped (channelID : string)   (* its cancel *)
| Status (status : string) (activity : option string)  (* UpdateStatusComplex *)
| ResetCalled (ch : config.Channel)                    (* b.onReset(ctx, ch) *)
| ChatCalled (ctx : mcp.Context) (ch : config.Channel) (prompt : string)
| Logged (msg : string).                               (* log.Printf *)

Definition startTyping (channelID : string) (b : Bot) : Bot * list effect :=
  if negb (session b) || bool_decide (channelID = "") then (b, [])
  else if bool_decide (channelID ∈ typing b) then (b, [])
  else (set_typing ({[channelID]} ∪ typing b) b, [TypingStarted channelID]).

Definition stopTyping (channelID : string) (b : Bot) : Bot * list effect :=
  if bool_decide (channelID ∈ typing b)
  then (set_typing (typing b ∖ {[channelID]}) b, [TypingStopped channelID])
  else (b, []).

(** [fmt.Sprintf("%s#%d", channelID, requestID)] *)
Definition streamKey (channelID : string) (requestID : Z) : string :=
  channelID +:+ "#" +:+ fmt.decimal requestID.

(** [ApplyStreamDelta] at instant [now]; [sent] is the id of the message
    that [ChannelMessageSend] creates, [None] when it fails. *)
Definition ApplyStreamDelta (now : Z) (sent : option string)
    (channelID : string) (requestID : Z) (delta : string) (b : Bot)
    : Bot * list effect :=
  if negb (session b) then (b, []) else
  let '(b, e0) := startTyping channelID b in
  let key := streamKey channelID requestID in
  match streams b !! key with
  | None =>
      match sent with
      | None => (b, e0 ++ [Send channelID delta])
      | Some id =>
          (set_streams (<[key := {| messageID := id; content := delta;
                                    lastEdit := now |}]> (streams b)) b,
           e0 ++ [Send channelID delta])
      end
  | Some st =>
      let text := content st +:+ delta in
      if now - lastEdit st <? 250 * time.Millisecond then
        (set_streams (<[key := {| messageID := messageID st; content := text;
                                  lastEdit := lastEdit st |}]> (streams b)) b, e0)
      else
        (set_streams (<[key := {| messageID := messageID st; content := text;
                                  lastEdit := now |}]> (streams b)) b,
         e0 ++ [Edit channelID (messageID st) text])
  end.

Definition EndStream (channelID : string) (requestID : Z) (final : string) (b : Bot)
    : Bot * list effect :=
  if negb (session b) then (b, []) else
  let key := streamKey channelID requestID in
  match streams b !! key with
  | None =>
      (b, if decide (strings.TrimSpace final = "") then [] else [Send channelID final])
  | Some st =>
      let text := if decide (strings.TrimSpace final = "") then content st else final in
      let '(b', e) := stopTyping channelID (set_streams (delete key (streams b)) b) in
      (b', Edit channelID (messageID st) text :: e)
  end.

(** [ResetChannelStreams]: the loop deletes the keys that begin with
    [channelID + "#"]. *)
Definition ResetChannelStreams (channelID : string) (b : Bot) : Bot * list effect :=
  stopTyping channelID
    (set_streams
       (filter (fun kv => strings.HasPrefix (fst kv) (channelID +:+ "#") = false)
               (streams b)) b).

Definition SetReasoningStatus (text : string) (b : Bot) : list effect :=
  if negb (session b) then [] else
  let text := strings.TrimSpace text in
  if decide (text = "") then [] else
  let text := if 120 <? len text then String.substring 0 120 text else text in
  [Status "online" (Some text)].

Definition ClearStatus (b : Bot) : list effect :=
  if negb (session b) then [] else [Status "online" None].

(** [reportErrorf]; [err] is the text of the error, which is not nil. *)
Definition reportErrorf (tag err : string) (b : Bot) : list effect :=
  let msg := "[" +:+ tag +:+ "] " +:+ err in
  if negb (bool_decide (logChannelID b = "")) && session b
  then Send (logChannelID b) <$> splitDiscordMessage msg
  else [Logged msg].

(** The fixed texts that the bot posts. *)
Definition resetFailed : string := "リセットに失敗した".
Definition resetDone : string := "会話をリセットした".
Definition notImplemented : string := "ごめん、まだ会話は未実装だよ".
Definition errorOccurred : string := "エラーが発生した".

(** What the two handlers return when [onMessageCreate] calls them:
    the error of [onReset], if any, and the replies or the error of
    [onChat]. *)
Record Handlers := {
  resetError : config.Channel -> option string;
  chatResult : mcp.Context -> config.Channel -> string -> list string + string }.

Definition zeroChannel : config.Channel :=
  {| config.ChannelID := ""; config.Command := ""; config.Workdir := "";
     config.Env := [] |}.

Definition withChannelID (id : string) (ch : config.Channel) : config.Channel :=
  {| config.ChannelID := id; config.Command := config.Command ch;
     config.Workdir := config.Workdir ch; config.Env := config.Env ch |}.

(** The loop that posts the replies. *)
Definition post (channelID : string) (replies : list string) : list effect :=
  omap (fun msg => let msg := strings.TrimSpace msg in
                   if decide (msg = "") then None else Some (Send channelID msg))
       replies.

(** [onMessageCreate]; [botID] is [s.State.User.ID]. *)
Definition onMessageCreate (h : Handlers) (botID : string) (m : MessageCreate)
    (b : Bot) : Bot * list effect :=
  match Author m with
  | None => (b, [])
  | Some author =>
      if discordgo.Bot author then (b, []) else
      let mapped := channelMap b !! ChannelID m in
      let ch := default zeroChannel mapped in
      match match mapped with
            | Some _ => Some (strings.TrimSpace (Content m), ch)
            | None =>
                if negb (isMentioned (Content m) botID) &&
                   negb (isMentionedByArray (Mentions m) botID)
                then None
                else Some (stripMention (Content m) botID,
                           if decide (config.ChannelID ch = "")
                           then withChannelID (ChannelID m) ch else ch)
            end with
      | None => (b, [])
      | Some (prompt, ch) =>
          let prompt := strings.TrimSpace prompt in
          if decide (prompt = "/reset") then
            if onReset b then
              match resetError h ch with
              | Some err =>
                  (b, ResetCalled ch :: reportErrorf "reset" err b
                        ++ [Send (ChannelID m) resetFailed])
              | None =>
                  let '(b', e) := ResetChannelStreams (ChannelID m) b in
                  (b', ResetCalled ch :: e ++ ClearStatus b'
                         ++ [Send (ChannelID m) resetDone])
              end
            else (b, [])
          else if decide (strings.TrimSpace prompt = "") then (b, [])
          else
            let '(b1, e1) := startTyping (ChannelID m) b in
            let tag := buildUserTag m in
            let ctx := {| mcp.userTag := if decide (tag = "") then None else Some tag |} in
            if negb (onChat b1) then (b1, e1 ++ [Send (ChannelID m) notImplemented])
            else
              let '(replies, e2) :=
                match chatResult h ctx ch prompt with
                | inl replies => (replies, [])
                | inr err => ([errorOccurred], reportErrorf "chat" err b1)
                end in
              match replies with
              | [] => (b1, e1 ++ ChatCalled ctx ch prompt :: e2)
              | _ =>
                  let '(b2, e3) := stopTyping (ChannelID m) b1 in
                  (b2, e1 ++ ChatCalled ctx ch prompt :: e2 ++ e3
                         ++ post (ChannelID m) replies)
              end
      end
  end.

(** The calls of the two handlers among the effects. *)
Definition isHandlerCall (e : effect) : bool :=
  match e with
  | ResetCalled _ | ChatCalled _ _ _ => true
  | _ => false
  end.

Definition handlerCalls (es : list effect) : list effect := List.filter isHandlerCall es.

(** A run of [ApplyStreamDelta] for one request: each delta with its
    instant and with what [ChannelMessageSend] would return. *)
Definition applyDeltas (channelID : string) (requestID : Z)
    (ds : list (Z * option string * string)) (b : Bot) : Bot :=
  foldl (fun b x => fst (ApplyStreamDelta (fst (fst x)) (snd (fst x))
                           channelID requestID (snd x) b)) b ds.

End discordbot.

Module botScenario.
Import discordgo discordbot.

Definition alice : User :=
  {| ID := "1001"; discordgo.Bot := false; Username := "alice"; GlobalName := "";
     Discriminator := "0" |}.

(** A message of alice in the mapped channel C. *)
Definition message (text : string) : MessageCreate :=
  {| Author := Some alice; Member := None; Content := text; ChannelID := "C";
     Mentions := [] |}.

(** The bot as [main] sets it up for a configuration with channel C. *)
Definition bot : discordbot.Bot :=
  {| session := true; channelMap := loader.channelMap [scenario.C];
     onChat := true; onReset := true; streams := ∅; logChannelID := "";
     typing := ∅ |}.

(** Handlers that succeed; the chat handler answers as the agent of the
    specification's scenario. *)
Definition handlers : Handlers :=
  {| resetError := fun _ => None;
     chatResult := fun _ _ _ => inl ["a.txt b.txt"] |}.

End botScenario.

(** * Properties *)

(** ** [limitedBuffer] *)

Section limitedBuffer_facts.
Import limitedBuffer.

Lemma Write_returns (b : t) (p : list Byte.byte) :
  snd (Write b p) = (Z.of_nat (length p), None).
Proof. reflexivity. Qed.

Lemma Write_max (b : t) (p : list Byte.byte) : max (fst (Write b p)) = max b.
Proof.
  unfold Write; simpl.
  destruct (0 <? _); [destruct (_ <=? _)|]; reflexivity.
Qed.

(** A write appends as much of [p] as the room left allows. *)
Lemma Write_buf (b : t) (p : list Byte.byte) :
  buf (fst (Write b p)) =
  buf b ++ take (Z.to_nat (max b - Z.of_nat (length (buf b)))) p.
Proof.
  unfold Write; simpl.
  destruct (Z.ltb_spec 0 (max b - Z.of_nat (length (buf b)))) as [Hpos|Hfull].
  - destruct (Z.leb_spec (Z.of_nat (length p)) (max b - Z.of_nat (length (buf b))));
      simpl; [|done].
    by rewrite take_ge by lia.
  - replace (Z.to_nat _) with 0%nat by lia. by rewrite take_0, app_nil_r.
Qed.

Lemma WriteAll_spec (ps : list (list Byte.byte)) : ∀ b : t,
  snd (WriteAll b ps) = map (λ p, (Z.of_nat (length p), None)) ps ∧
  max (fst (WriteAll b ps)) = max b ∧
  buf (fst (WriteAll b ps)) =
    buf b ++ take (Z.to_nat (max b - Z.of_nat (length (buf b)))) (concat ps).
Proof.
  induction ps as [|p ps IH]; intros b; cbn [WriteAll].
  - simpl. by rewrite take_nil, app_nil_r.
  - pose proof (Write_buf b p) as Hbuf. pose proof (Write_max b p) as Hmax.
    pose proof (Write_returns b p) as Hret.
    destruct (Write b p) as [b1 r]. simpl in Hbuf, Hmax, Hret. subst r.
    specialize (IH b1). destruct (WriteAll b1 ps) as [b2 rs]. simpl in *.
    destruct IH as (-> & Hmax2 & ->). split_and!; [done|congruence|].
    rewrite Hbuf, Hmax, <-(assoc_L (++)). f_equal.
    rewrite length_app, length_take.
    set (room := Z.to_nat (max b - Z.of_nat (length (buf b)))).
    destruct (decide (length p ≤ room)%nat) as [Hle|Hgt].
    + rewrite take_app_ge, (take_ge p) by lia. do 2 f_equal. lia.
    + rewrite take_app_le by lia.
      replace (Z.to_nat _) with 0%nat by lia. by rewrite take_0, app_nil_r.
Qed.

End limitedBuffer_facts.

(** C10.  For every [limitedBuffer] made with capacity [max] and every
    sequence of [Write] calls, each call returns [(len(p), nil)], never an
    error and never a short count, and what is stored is a prefix of the
    concatenation of all inputs; it holds at most [max] bytes (a capacity
    is not negative). *)
Theorem limitedBuffer_Write_full_count_and_prefix
    (max : Z) (ps : list (list Byte.byte)) :
  let run := limitedBuffer.WriteAll (limitedBuffer.newLimitedBuffer max) ps in
  snd run = map (λ p, (Z.of_nat (length p), None)) ps ∧
  limitedBuffer.String (fst run) `prefix_of` concat ps ∧
  (0 ≤ max → Z.of_nat (length (limitedBuffer.String (fst run))) ≤ max).
Proof.
  destruct (WriteAll_spec ps (limitedBuffer.newLimitedBuffer max)) as (Hr & _ & Hb).
  simpl in *. unfold limitedBuffer.String. rewrite Hb. split_and!.
  - done.
  - eexists. symmetry. apply take_drop.
  - intros Hmax. rewrite length_take. lia.
Qed.

Lemma limitedBuffer_Write_witness :
  let run := limitedBuffer.WriteAll (limitedBuffer.newLimitedBuffer 3)
               [[Byte.x61; Byte.x62]; [Byte.x63; Byte.x64]; [Byte.x65]] in
  snd run = [(2, None); (2, None); (1, None)] ∧
  limitedBuffer.String (fst run) = [Byte.x61; Byte.x62; Byte.x63] ∧
  Z.of_nat (length (limitedBuffer.String (fst run))) ≤ 3.
Proof.
  pose proof (limitedBuffer_Write_full_count_and_prefix 3
                [[Byte.x61; Byte.x62]; [Byte.x63; Byte.x64]; [Byte.x65]]) as H.
  destruct H as (H1 & _ & H3).
  split; [exact H1|]. split; [reflexivity|]. apply H3. lia.
Defined.


(** ** The MCP bridge: running the state-passing code *)

Section running.
Import mcp.

Lemma wp_returns {A} (c : M A) (Q : A → World → Prop) (w : World) :
  wp c Q w ↔ ∃ a w', c w = Returns a w' ∧ Q a w'.
Proof.
  unfold wp. destruct (c w) as [a w'|w']; split.
  - eauto.
  - by intros (? & ? & [= <- <-] & ?).
  - done.
  - by intros (? & ? & ? & ?).
Qed.

Lemma wp_bind {A B} (c : M A) (k : A → M B) (Q : B → World → Prop) (w : World) :
  wp c (λ a, wp (k a) Q) w → wp (c ≫= k) Q w.
Proof. unfold wp, mbind, M_bind. by destruct (c w). Qed.

Lemma wp_mono {A} (c : M A) (Q Q' : A → World → Prop) (w : World) :
  wp c Q w → (∀ a w', Q a w' → Q' a w') → wp c Q' w.
Proof. unfold wp. destruct (c w); eauto. Qed.

Lemma wp_ret {A} (a : A) (Q : A → World → Prop) (w : World) :
  Q a w → wp (mret a) Q w.
Proof. done. Qed.

Lemma wp_skip (Q : unit → World → Prop) (w : World) : Q tt w → wp skip Q w.
Proof. done. Qed.

Lemma wp_get (Q : MCPBridge → World → Prop) (w : World) :
  Q (bridge w) w → wp get Q w.
Proof. done. Qed.

Lemma wp_update (f : MCPBridge → MCPBridge) (Q : unit → World → Prop) (w : World) :
  Q tt (with_bridge (f (bridge w)) w) → wp (update f) Q w.
Proof. done. Qed.

Lemma wp_emit (e : effect) (Q : unit → World → Prop) (w : World) :
  Q tt (with_trace (trace w ++ [e]) w) → wp (emit e) Q w.
Proof. done. Qed.

Lemma wp_now (Q : Z → World → Prop) (w : World) : Q (clock w) w → wp now Q w.
Proof. done. Qed.

Lemma wp_sleep (d : Z) (Q : unit → World → Prop) (w : World) :
  Q tt (with_clock (clock w + d) w) → wp (sleep d) Q w.
Proof. done. Qed.

Lemma wp_call (on : Options → bool) (c : callback)
    (Q : unit → World → Prop) (w : World) :
  Q tt (if on (opts (bridge w)) then with_trace (trace w ++ [Called c]) w else w) →
  wp (call on c) Q w.
Proof. unfold call, wp, mbind, M_bind, get. by destruct (on _). Qed.

Lemma wp_makeChan (Q : nat → World → Prop) (w : World) :
  Q (fresh (dom (chans w)))
    (with_chans (<[fresh (dom (chans w)) := []]> (chans w)) w) →
  wp makeChan Q w.
Proof. done. Qed.

Lemma wp_countWrite (Q : nat → World → Prop) (w : World) :
  Q (written w) (with_written (S (written w)) w) → wp countWrite Q w.
Proof. done. Qed.

Lemma wp_countStart (Q : nat → World → Prop) (w : World) :
  Q (spawned w) (with_spawned (S (spawned w)) w) → wp countStart Q w.
Proof. done. Qed.

Lemma life_app (t1 t2 : list effect) : life (t1 ++ t2) = life t1 ++ life t2.
Proof. apply List.filter_app. Qed.

Lemma after_refl (w : World) : after w [] w.
Proof. unfold after. by rewrite app_nil_r. Qed.

Lemma after_trans (w1 w2 w3 : World) (n1 n2 : list effect) :
  after w1 n1 w2 → after w2 n2 w3 → after w1 (n1 ++ n2) w3.
Proof. unfold after. intros H1 H2. by rewrite H2, H1, (assoc_L (++)). Qed.

Lemma sameSession_refl (w : World) : sameSession w w.
Proof. by unfold sameSession. Qed.

Lemma sameSession_trans (w1 w2 w3 : World) :
  sameSession w1 w2 → sameSession w2 w3 → sameSession w1 w3.
Proof. unfold sameSession. intuition congruence. Qed.

Lemma sameSession_bindings (w w' : World) : sameSession w w' → sameBindings w w'.
Proof. unfold sameSession, sameBindings. intuition. Qed.

Lemma sameBindings_trans (w1 w2 w3 : World) :
  sameBindings w1 w2 → sameBindings w2 w3 → sameBindings w1 w3.
Proof. unfold sameBindings. intuition congruence. Qed.

End running.

(** Reduces the projections of worlds and bridges that were built by the
    setters. *)
Ltac wsimpl :=
  cbn [mcp.bridge mcp.chans mcp.exited mcp.spawned mcp.written mcp.clock
       mcp.trace mcp.with_bridge mcp.with_chans mcp.with_exited
       mcp.with_spawned mcp.with_written mcp.with_clock mcp.with_trace
       mcp.opts mcp.cmd mcp.stdin mcp.ready mcp.reqID mcp.pending mcp.convo
       mcp.deadCh mcp.owners mcp.reasonBuf mcp.idleTimer mcp.lastActive
       mcp.set_cmd mcp.set_stdin mcp.set_ready mcp.set_reqID mcp.set_pending
       mcp.set_convo mcp.set_deadCh mcp.set_owners mcp.set_reasonBuf
       mcp.set_idleTimer mcp.set_lastActive] in *.

(** One step of a run: a bind, or a primitive of the state passing. *)
Ltac wp_step :=
  lazymatch goal with
  | |- mcp.wp (mbind _ _) _ _ => apply wp_bind
  | |- mcp.wp (mret _) _ _ => apply wp_ret
  | |- mcp.wp mcp.skip _ _ => apply wp_skip
  | |- mcp.wp mcp.get _ _ => apply wp_get
  | |- mcp.wp (mcp.update _) _ _ => apply wp_update
  | |- mcp.wp (mcp.emit _) _ _ => apply wp_emit
  | |- mcp.wp mcp.now _ _ => apply wp_now
  | |- mcp.wp (mcp.sleep _) _ _ => apply wp_sleep
  | |- mcp.wp (mcp.call _ _) _ _ => apply wp_call
  | |- mcp.wp mcp.makeChan _ _ => apply wp_makeChan
  | |- mcp.wp mcp.countWrite _ _ => apply wp_countWrite
  | |- mcp.wp mcp.countStart _ _ => apply wp_countStart
  | |- mcp.wp mcp.nextID _ _ => unfold mcp.nextID
  end; cbv beta zeta; wsimpl.

Ltac wp_run := repeat wp_step.

Section operations.
Import mcp.

(** *** [touchActivity] *)

Lemma life_touchEffects (w : World) : life (touchEffects w) = [].
Proof.
  unfold touchEffects. destruct (_ <=? 0); [done|].
  by destruct (idleTimer (bridge w)).
Qed.

Lemma touchActivity_spec (w : World) :
  wp touchActivity (λ _ w',
    sameSession w w' ∧
    pending (bridge w') = pending (bridge w) ∧
    reqID (bridge w') = reqID (bridge w) ∧
    owners (bridge w') = owners (bridge w) ∧
    chans w' = chans w ∧ written w' = written w ∧ clock w' = clock w ∧
    after w (touchEffects w) w' ∧ touchedAt (clock w) w' ∧
    (idleSeconds (opts (bridge w)) ≤ 0 →
     lastActive (bridge w') = lastActive (bridge w) ∧
     idleTimer (bridge w') = idleTimer (bridge w))) w.
Proof.
  unfold touchActivity, sameSession, after, touchEffects, touchedAt. wp_run.
  destruct (Z.leb_spec (idleSeconds (opts (bridge w))) 0); wp_run.
  { split_and!; try done; [by rewrite app_nil_r|lia]. }
  destruct (idleTimer (bridge w)); wp_run; split_and!; try done; try lia.
  by rewrite <-(assoc_L (++)).
Qed.

(** *** [request] and [requestForChannel] *)

Lemma write_spec (env : Env) (msg : message) (w : World) (p : nat) :
  stdin (bridge w) = Some p →
  wp (write env msg) (λ r w',
    bridge w' = bridge w ∧ chans w' = chans w ∧ exited w' = exited w ∧
    spawned w' = spawned w ∧ clock w' = clock w ∧
    written w' = S (written w) ∧
    match writeError env (written w) with
    | Some e => r = Some (WriteError e) ∧ after w [WriteFailed p msg e] w'
    | None => r = None ∧ after w [Wrote p msg] w'
    end) w.
Proof.
  intros Hp. unfold write, after. wp_run. rewrite Hp. wp_run.
  destruct (writeError env (written w)); by wp_run.
Qed.

(** [deliver] takes the slot out of the table and fills it; with no slot
    under the id it does nothing. *)
Lemma deliver_spec (id : Z) (v : json) (w : World) :
  wp (deliver id v) (λ _ w',
    w' = match pending (bridge w) !! id with
         | Some ch =>
             with_chans (<[ch := default [] (chans w !! ch) ++ [v]]> (chans w))
               (with_bridge (set_pending (delete id (pending (bridge w))) (bridge w)) w)
         | None => w
         end) w.
Proof.
  unfold deliver. wp_run. by destruct (pending (bridge w) !! id); wp_run.
Qed.

(** The [select] of a request whose line was written: the reader's
    [deliver] empties the slot when the agent answers; otherwise the slot
    stays in the table. *)
Lemma await_spec (env : Env) (id : Z) (ch : nat) (w : World) :
  pending (bridge w) !! id = Some ch →
  chans w !! ch = Some [] →
  wp (await env id ch) (λ r w',
    r = answer env id ∧ sameSession w w' ∧ trace w' = trace w ∧
    reqID (bridge w') = reqID (bridge w) ∧ written w' = written w ∧
    owners (bridge w') = owners (bridge w) ∧
    idleTimer (bridge w') = idleTimer (bridge w) ∧
    lastActive (bridge w') = lastActive (bridge w) ∧
    dom (chans w') = dom (chans w) ∧
    pending (bridge w') =
      match waitFor env id with
      | Answered _ => delete id (pending (bridge w))
      | _ => pending (bridge w)
      end) w.
Proof.
  intros Hid Hch. unfold await, answer, sameSession. wp_run.
  destruct (waitFor env id) as [v| |]; wp_run; [|done..].
  eapply wp_mono; [apply deliver_spec|]. intros _ w' ->. wsimpl. rewrite Hid.
  wp_run. unfold recv, wp. wsimpl. rewrite lookup_insert_eq, Hch. cbn.
  split_and!; try done.
  rewrite !dom_insert_L. apply (elem_of_dom_2 (D:=gset nat)) in Hch. set_solver.
Qed.

Lemma write_then_await (env : Env) (req : message) (id : Z) (w0 w : World)
    (pipe : nat) :
  stdin (bridge w) = Some pipe →
  sameSession w0 w → reqID (bridge w) = id → written w = written w0 →
  idleTimer (bridge w) = idleTimer (bridge w0) →
  lastActive (bridge w) = lastActive (bridge w0) →
  trace w = trace w0 →
  chans w = <[fresh (dom (chans w0)) := []]> (chans w0) →
  pending (bridge w) = <[id := fresh (dom (chans w0))]> (pending (bridge w0)) →
  wp (write env req) (λ werr,
        wp match werr with
           | Some e => mret (Err e)
           | None => await env id (fresh (dom (chans w0)))
           end
           (requested env pipe req id w0)) w.
Proof.
  intros Hp Hs Hid Hwr Hti Hla Htr Hch Hpe.
  eapply wp_mono; [by apply write_spec|]. cbv beta.
  intros werr w1 (Hb & Hc1 & He1 & Hs1 & _ & Hw1 & Hcase).
  assert (sameSession w0 w1) as Hs01.
  { unfold sameSession in *. rewrite Hb. intuition congruence. }
  unfold requested. rewrite <-Hwr.
  destruct (writeError env (written w)) as [e|]; destruct Hcase as [-> Ht1].
  - wp_run. unfold after in *. rewrite Hb, Hw1, Hc1, Hch, Ht1, Htr, dom_insert_L.
    split_and!; try done. set_solver.
  - eapply wp_mono.
    { apply await_spec; rewrite ?Hb, ?Hc1, ?Hpe, ?Hch; apply lookup_insert_eq. }
    cbv beta. intros r w' (-> & Hs' & Ht' & Hid' & Hw' & _ & Hti' & Hla' & Hd' & Hpe').
    unfold after in *. rewrite Ht', Ht1, Htr, Hid', Hw', Hti', Hla', Hd', Hpe', Hb.
    rewrite Hc1, Hch, Hpe, dom_insert_L.
    split_and!; try done.
    + by eapply sameSession_trans.
    + set_solver.
    + destruct (waitFor env id); try done. by rewrite delete_insert_eq.
Qed.

Lemma request_spec (env : Env) (method : string) (p : params)
    (w : World) (pipe : nat) :
  stdin (bridge w) = Some pipe →
  let id := wrap64 (reqID (bridge w) + 1) in
  wp (request env method p) (requested env pipe (Request id method p) id w) w.
Proof.
  intros Hp id. unfold request. wp_run.
  eapply wp_mono; [eapply write_then_await with (w0 := w) (pipe := pipe)|];
    done.
Qed.

Lemma requestForChannel_spec (env : Env) (method : string) (p : params)
    (owner : string) (w : World) (pipe : nat) :
  stdin (bridge w) = Some pipe →
  let id := wrap64 (reqID (bridge w) + 1) in
  wp (requestForChannel env method p owner)
     (requested env pipe (Request id method p) id w) w.
Proof.
  intros Hp id. unfold requestForChannel. wp_run.
  destruct (decide (owner = "")); wp_run.
  all: eapply wp_mono;
    [eapply write_then_await with (w0 := w) (pipe := pipe)|]; done.
Qed.

Lemma notify_spec (env : Env) (method : string) (p : params) (w : World) (pipe : nat) :
  stdin (bridge w) = Some pipe →
  wp (notify env method p) (λ _ w',
    bridge w' = bridge w ∧ chans w' = chans w ∧ exited w' = exited w ∧
    spawned w' = spawned w ∧ clock w' = clock w ∧
    written w' = S (written w) ∧
    ∃ new, after w new w' ∧ life new = []) w.
Proof.
  intros Hp. unfold notify. eapply wp_mono; [by apply write_spec|].
  cbv beta. intros r w' (? & ? & ? & ? & ? & ? & Hcase). split_and!; try done.
  destruct (writeError env (written w)); destruct Hcase as [_ ?]; eauto.
Qed.

Lemma slotsKept_refl (w : World) : slotsKept w w.
Proof. by split. Qed.

Lemma slotsKept_trans (w1 w2 w3 : World) :
  slotsKept w1 w2 → slotsKept w2 w3 → slotsKept w1 w3.
Proof.
  intros [Hd1 H1] [Hd2 H2]. split; [set_solver|].
  intros D HD Hout. apply H2; [set_solver|]. by apply H1.
Qed.

Lemma slotsKept_same (w w' : World) :
  chans w' = chans w → pending (bridge w') = pending (bridge w) → slotsKept w w'.
Proof. intros Hc Hp. unfold slotsKept, slotsOutside. by rewrite Hc, Hp. Qed.

Lemma requested_slotsKept env pipe req id w r w' :
  requested env pipe req id w r w' → slotsKept w w'.
Proof.
  intros (_ & _ & _ & _ & _ & Hd & Hcase). split; [done|].
  intros D HD Hout id' ch'.
  assert (fresh (dom (chans w)) ∉ D) as Hfresh.
  { intros Hin. apply (is_fresh (dom (chans w))). set_solver. }
  assert (pending (bridge w') = <[id := fresh (dom (chans w))]> (pending (bridge w))
          ∨ pending (bridge w') = delete id (pending (bridge w))) as [->| ->].
  { destruct (writeError env (written w)); destruct Hcase as (_ & _ & ->); auto.
    destruct (waitFor env id); auto. }
  - intros [[_ <-]|[_ ?]]%lookup_insert_Some; eauto.
  - intros [_ ?]%lookup_delete_Some. eauto.
Qed.

(** *** [start], [ensureStarted] and the teardown *)

Lemma start_spec (env : Env) (ch : config.Channel) (w : World) :
  wp (start env ch) (λ e w',
    sameBindings w w' ∧ slotsKept w w' ∧ spawned w' = S (spawned w) ∧
    match startError env (spawned w) with
    | Some s =>
        e = Some (StartError s) ∧ after w [SpawnFailed] w' ∧ bridge w' = bridge w
    | None =>
        e = None ∧ started (spawned w) w' ∧
        written w' = S (S (written w)) ∧
        reqID (bridge w') = wrap64 (reqID (bridge w) + 1) ∧
        ∃ new, after w (Spawned (spawned w) :: new) w' ∧ life new = []
    end) w.
Proof.
  unfold start. wp_run.
  destruct (startError env (spawned w)) as [s|]; wp_run.
  { split_and!; try done; by apply slotsKept_same. }
  eapply wp_mono; [by eapply request_spec|]. cbv beta.
  intros r1 w1 Hreq. pose proof (requested_slotsKept _ _ _ _ _ _ _ Hreq) as Hk1.
  destruct Hreq as (Hs1 & Hid1 & Hw1 & _ & _ & _ & Hcase1).
  assert (∃ n1, after w (Spawned (spawned w) :: n1) w1 ∧ life n1 = [])
    as (n1 & Ht1 & Hl1).
  { unfold after in *. wsimpl.
    destruct (writeError env (written w)); destruct Hcase1 as (_ & -> & _);
      rewrite <-(assoc_L (++)); by eexists [_]. }
  unfold sameSession in Hs1. wsimpl. destruct Hs1 as (Ho & Hc & Hi & Hr & Hd & Hcv & Hex & Hsp).
  wp_run. eapply wp_mono; [eapply notify_spec; by rewrite Hi|]. cbv beta.
  intros _ w2 (Hb2 & Hc2 & Hex2 & Hsp2 & _ & Hw2 & n2 & Ht2 & Hl2).
  wp_run.
  eapply wp_mono; [apply touchActivity_spec|]. cbv beta.
  intros _ w3 (Hs3 & Hp3 & Hid3 & _ & Hc3 & Hw3 & _ & Ht3 & _). wp_run.
  match type of Ht3 with after _ ?n _ => set (n3 := n) in *;
    assert (life n3 = []) as Hl3 by apply life_touchEffects; clearbody n3 end.
  unfold sameSession in Hs3.
  destruct (onUp (opts (bridge w2))); wsimpl;
    destruct Hs3 as (Ho3 & Hcmd3 & Hin3 & Hr3 & Hd3 & Hcv3 & Hex3 & Hsp3).
  all: assert (slotsKept w w3) as Hk
    by (unfold slotsKept, slotsOutside in *; wsimpl;
        rewrite Hc3, Hc2, Hp3, Hb2; exact Hk1).
  all: unfold sameBindings, started, after in *; wsimpl.
  all: rewrite ?Ho3, ?Hcmd3, ?Hin3, ?Hd3, ?Hcv3, ?Hex3, ?Hsp3, ?Hid3, ?Hw3, ?Hb2, ?Hex2, ?Hsp2.
  all: split_and!; try done; try congruence.
  - exists (n1 ++ n2 ++ Called Up :: n3). split.
    + rewrite Ht3, Ht2, Ht1. by rewrite <-!(assoc_L (++)).
    + rewrite !life_app. change (life (Called Up :: n3)) with (life n3).
      by rewrite Hl1, Hl2, Hl3.
  - exists (n1 ++ n2 ++ n3). split.
    + rewrite Ht3, Ht2, Ht1. by rewrite <-!(assoc_L (++)).
    + rewrite !life_app. by rewrite Hl1, Hl2, Hl3.
Qed.

Lemma ensureStarted_spec (env : Env) (ch : config.Channel) (w : World) :
  wp (ensureStarted env ch) (λ e w',
    if already w then e = None ∧ w' = w
    else
      sameBindings w w' ∧ slotsKept w w' ∧ spawned w' = S (spawned w) ∧
      match startError env (spawned w) with
      | Some s =>
          e = Some (StartError s) ∧ after w [SpawnFailed] w' ∧ bridge w' = bridge w
      | None =>
          e = None ∧ started (spawned w) w' ∧
          written w' = S (S (written w)) ∧
          reqID (bridge w') = wrap64 (reqID (bridge w) + 1) ∧
          ∃ new, after w (Spawned (spawned w) :: new) w' ∧ life new = []
      end) w.
Proof.
  unfold ensureStarted. apply wp_bind. unfold wp at 1.
  destruct (already w); [done|]. apply start_spec.
Qed.

Lemma teardown_spec (w : World) (p : nat) :
  stdin (bridge w) = Some p → cmd (bridge w) = Some p →
  wp teardown (λ _ w',
    sameBindings w w' ∧ spawned w' = spawned w ∧ written w' = written w ∧
    chans w' = chans w ∧ reqID (bridge w') = reqID (bridge w) ∧
    cmd (bridge w') = Some p ∧ deadCh (bridge w') = deadCh (bridge w) ∧
    stdin (bridge w') = None ∧ ready (bridge w') = false ∧
    pending (bridge w') = ∅ ∧
    after w [ClosedStdin p; Killed p] w') w.
Proof.
  intros Hin Hcmd. unfold teardown, sameBindings, after. wp_run.
  rewrite Hin. wp_run. rewrite Hcmd. wp_run.
  split_and!; try done. by rewrite <-(assoc_L (++)).
Qed.

Lemma bindConversation_spec (ch : config.Channel) (res : json) (w : World) :
  wp (bindConversation ch res) (λ _ w',
    opts (bridge w') = opts (bridge w) ∧ cmd (bridge w') = cmd (bridge w) ∧
    stdin (bridge w') = stdin (bridge w) ∧ ready (bridge w') = ready (bridge w) ∧
    deadCh (bridge w') = deadCh (bridge w) ∧
    pending (bridge w') = pending (bridge w) ∧
    idleTimer (bridge w') = idleTimer (bridge w) ∧
    lastActive (bridge w') = lastActive (bridge w) ∧
    exited w' = exited w ∧ spawned w' = spawned w ∧ chans w' = chans w ∧
    trace w' = trace w ∧
    convo (bridge w') = bound (config.ChannelID ch) (Ok res) (convo (bridge w)) ∧
    clock w' = clock w) w.
Proof.
  unfold bindConversation, bound.
  destruct res as [| | | | |obj]; try by wp_run.
  destruct (obj !! "conversationId") as [[| | |cid| |]|]; try by wp_run.
  destruct (decide (cid = "")); by wp_run.
Qed.

(** The tool and its arguments depend on the options and the bindings
    only. *)
Lemma toolCall_ext (m m' : MCPBridge) ctx ch prompt :
  opts m' = opts m → convo m' = convo m →
  toolCall m' ctx ch prompt = toolCall m ctx ch prompt.
Proof. unfold toolCall. by intros -> ->. Qed.

(** *** A chat turn *)

(** The end of a turn whose request reported [Ok res]. *)
Lemma turn_finish (ch : config.Channel) (res : json) (w : World) :
  wp (touchActivity;; bindConversation ch res;; mret (Ok res)) (λ r w',
    r = Ok res ∧
    opts (bridge w') = opts (bridge w) ∧ cmd (bridge w') = cmd (bridge w) ∧
    stdin (bridge w') = stdin (bridge w) ∧ ready (bridge w') = ready (bridge w) ∧
    deadCh (bridge w') = deadCh (bridge w) ∧
    pending (bridge w') = pending (bridge w) ∧
    exited w' = exited w ∧ spawned w' = spawned w ∧ chans w' = chans w ∧
    convo (bridge w') = bound (config.ChannelID ch) (Ok res) (convo (bridge w)) ∧
    touchedAt (clock w') w' ∧
    ∃ new, after w new w' ∧ life new = []) w.
Proof.
  apply wp_bind. eapply wp_mono; [apply touchActivity_spec|]. cbv beta.
  intros _ w1 (Hs & Hp & _ & _ & Hc & _ & Hck & Ht1 & Hta & _).
  apply wp_bind. eapply wp_mono; [apply bindConversation_spec|]. cbv beta.
  intros _ w2 (Ho & Hcmd & Hin & Hr & Hd & Hp2 & Hti & Hla & Hex & Hsp & Hc2 & Ht2 & Hcv & Hck2).
  wp_run. unfold sameSession, after, touchedAt in *.
  destruct Hs as (Ho1 & Hcmd1 & Hin1 & Hr1 & Hd1 & Hcv1 & Hex1 & Hsp1).
  rewrite Ho, Hcmd, Hin, Hr, Hd, Hp2, Hex, Hsp, Hc2, Hcv, Ht2, Hti, Hla, Hck2.
  rewrite Ho1, Hcmd1, Hin1, Hr1, Hd1, Hcv1, Hex1, Hsp1, Hp, Hc.
  split_and!; try done.
  - rewrite Hck. by rewrite Ho1 in Hta.
  - exists (touchEffects w). split; [done|apply life_touchEffects].
Qed.

(** After a failed attempt: the teardown, one [ensureStarted], which
    starts a process because the teardown cleared [ready], and the
    retry if the start succeeded. *)
Lemma recover_spec (env : Env) (ch : config.Channel) (call : params)
    (err : error) (w : World) (p1 : nat) :
  stdin (bridge w) = Some p1 → cmd (bridge w) = Some p1 →
  wp (teardown;;
      e ← ensureStarted env ch;
      match e with
      | None => requestForChannel env "tools/call" call (config.ChannelID ch)
      | Some _ => mret (Err err)
      end)
     (λ r w',
       sameBindings w w' ∧ slotsOutside (dom (chans w)) w' ∧
       spawned w' = S (spawned w) ∧
       match startError env (spawned w) with
       | Some _ =>
           r = Err err ∧ after w [ClosedStdin p1; Killed p1; SpawnFailed] w' ∧
           stdin (bridge w') = None ∧ ready (bridge w') = false
       | None =>
           let p2 := spawned w in
           let id2 := wrap64 (wrap64 (reqID (bridge w) + 1) + 1) in
           let n2 := S (S (written w)) in
           r = attemptResult env n2 id2 ∧ started p2 w' ∧
           ∃ new, after w new w' ∧
             life new = [ClosedStdin p1; Killed p1; Spawned p2;
                         attemptEffect env n2 p2 (Request id2 "tools/call" call)]
       end) w.
Proof.
  intros Hin Hcmd. apply wp_bind.
  eapply wp_mono; [by apply teardown_spec|]. cbv beta.
  intros _ w1 (Hb1 & Hsp1 & Hw1 & Hc1 & Hid1 & Hcmd1 & Hd1 & Hin1 & Hr1 & Hp1 & Ht1).
  assert (slotsOutside (dom (chans w)) w1) as Hout1.
  { intros id c. by rewrite Hp1, lookup_empty. }
  apply wp_bind. eapply wp_mono; [apply ensureStarted_spec|]. cbv beta.
  unfold already. rewrite Hr1. cbn [andb].
  intros e w2 (Hb2 & Hk2 & Hsp2 & Hcase). rewrite Hsp1 in Hcase, Hsp2.
  pose proof (sameBindings_trans _ _ _ Hb1 Hb2) as Hb.
  assert (slotsOutside (dom (chans w)) w2) as Hout2.
  { destruct Hk2 as [_ Hk2]. apply Hk2; [by rewrite Hc1|done]. }
  destruct (startError env (spawned w)) as [s|].
  - destruct Hcase as (-> & Ht2 & Hbr). wp_run. split_and!; try done.
    + unfold after in *. rewrite Ht2, Ht1. by rewrite <-(assoc_L (++)).
    + by rewrite Hbr.
    + by rewrite Hbr.
  - destruct Hcase as (-> & Hst & Hw2 & Hid2 & n2 & Ht2 & Hl2).
    pose proof Hst as (Hin2 & _).
    eapply wp_mono; [by eapply requestForChannel_spec|]. cbv beta.
    intros r w3 Hreq. pose proof (requested_slotsKept _ _ _ _ _ _ _ Hreq) as [_ Hk3].
    destruct Hreq as (Hs3 & _ & _ & _ & _ & _ & Hcase3).
    rewrite Hw2, Hw1, Hid2, Hid1 in Hcase3.
    assert (sameBindings w w3) as Hb3.
    { eapply sameBindings_trans; [done|]. by apply sameSession_bindings. }
    assert (started (spawned w) w3) as Hst3.
    { unfold started, sameSession in *. intuition congruence. }
    assert (spawned w3 = S (spawned w)) as Hsp3.
    { unfold sameSession in Hs3. intuition congruence. }
    assert (slotsOutside (dom (chans w)) w3) as Hout3.
    { apply Hk3; [|done]. destruct Hk2 as [Hk2 _]. by rewrite <-Hc1. }
    unfold attemptResult, attemptEffect. cbv zeta.
    split_and!; try done.
    + by destruct (writeError env _); destruct Hcase3 as (-> & _).
    + exists ([ClosedStdin p1; Killed p1] ++ (Spawned (spawned w) :: n2) ++
              [attemptEffect env (S (S (written w))) (spawned w)
                 (Request (wrap64 (wrap64 (reqID (bridge w) + 1) + 1))
                    "tools/call" call)]).
      unfold attemptEffect. split.
      * unfold after in *.
        destruct (writeError env _); destruct Hcase3 as (_ & -> & _);
          by rewrite Ht2, Ht1, <-!(assoc_L (++)).
      * rewrite !life_app.
        change (life (Spawned ?a :: ?l)) with (Spawned a :: life l). rewrite Hl2.
        by destruct (writeError env _).
Qed.

Lemma life_attempt (env : Env) (n pipe : nat) (id : Z) (call : params) :
  life [attemptEffect env n pipe (Request id "tools/call" call)] =
  [attemptEffect env n pipe (Request id "tools/call" call)].
Proof. unfold attemptEffect. by destruct (writeError env n). Qed.

Lemma turn_spec (env : Env) (ctx : Context) (ch : config.Channel)
    (prompt : string) (w : World) (p1 : nat) :
  stdin (bridge w) = Some p1 → cmd (bridge w) = Some p1 →
  wp (turn env ctx ch prompt)
     (turned env ch
        (callParams (toolCall (bridge w) ctx ch prompt).1
                    (toolCall (bridge w) ctx ch prompt).2) p1 w) w.
Proof.
  intros Hin Hcmd. unfold turn. apply wp_bind.
  eapply wp_mono; [apply touchActivity_spec|]. cbv beta.
  intros _ w1 (Hs1 & Hp1 & Hid1 & _ & Hc1 & Hw1 & _ & Ht1 & _).
  pose proof Hs1 as (Ho1 & Hcmd1 & Hin1 & Hr1 & Hd1 & Hcv1 & Hex1 & Hsp1).
  wp_run. rewrite (toolCall_ext (bridge w)) by done.
  destruct (toolCall (bridge w) ctx ch prompt) as [tool args]. cbn [fst snd].
  set (call := callParams tool args).
  apply wp_bind. eapply wp_mono.
  { eapply requestForChannel_spec with (pipe := p1). congruence. }
  cbv beta. intros r1 w2 Hreq.
  pose proof Hreq as (Hs2 & Hid2 & Hw2 & _ & _ & Hdom2 & Hcase2).
  pose proof (sameSession_trans _ _ _ Hs1 Hs2)
    as (Ho2 & Hcmd2 & Hin2 & Hr2 & Hd2 & Hcv2 & Hex2 & Hsp2).
  rewrite Hw1, Hid1, Hc1 in Hcase2. rewrite Hw1 in Hw2. rewrite Hid1 in Hid2.
  set (id1 := wrap64 (reqID (bridge w) + 1)) in *.
  set (req1 := Request id1 "tools/call" call) in *.
  set (A1 := attemptEffect env (written w) p1 req1).
  assert (∀ rest w', trace w2 = trace w1 ++ [A1] → after w2 rest w' →
            after w (touchEffects w ++ A1 :: rest) w') as Htr.
  { unfold after in *. intros rest w' H2 ->. rewrite H2, Ht1.
    by rewrite <-!(assoc_L (++)). }
  (* the turn ends here when the first attempt is answered *)
  assert (∀ res, r1 = Ok res → attemptResult env (written w) id1 = Ok res →
            trace w2 = trace w1 ++ [A1] →
            wp (mret (Ok res) ≫= λ r, match r with
                 | Err err => mret (Err err)
                 | Ok res => touchActivity;; bindConversation ch res;; mret (Ok res)
                 end) (turned env ch call p1 w) w2) as Hgood.
  { intros res -> Hres Ht2. apply wp_bind, wp_ret. cbv beta iota.
    eapply wp_mono; [apply turn_finish|]. cbv beta.
    intros r w3 (-> & Ho3 & Hcmd3 & Hin3 & Hr3 & Hd3 & _ & Hex3 & Hsp3 & _ & Hcv3 & Hta3 & n3 & Ht3 & Hl3).
    unfold turned. cbv zeta. fold id1 req1 A1. rewrite Hres.
    split_and!; try congruence; try (intros ? _; exact Hta3).
    exists n3. split; [by apply Htr|]. split_and!; try done; congruence. }
  (* and goes through teardown, restart and retry when it fails *)
  assert (∀ e1, r1 = Err e1 → attemptResult env (written w) id1 = Err e1 →
            trace w2 = trace w1 ++ [A1] →
            wp ((teardown;;
                 e ← ensureStarted env ch;
                 match e with
                 | None => requestForChannel env "tools/call" call (config.ChannelID ch)
                 | Some _ => mret (Err e1)
                 end) ≫= λ r, match r with
                 | Err err => mret (Err err)
                 | Ok res => touchActivity;; bindConversation ch res;; mret (Ok res)
                 end) (turned env ch call p1 w) w2) as Hbad.
  { intros e1 -> Hres Ht2. apply wp_bind. eapply wp_mono.
    { eapply recover_spec with (p1 := p1); congruence. }
    cbv beta. intros r w3 ((Ho3 & Hcv3 & Hex3) & Hout3 & Hsp3 & Hcase3).
    rewrite Hsp2, Hw2, Hid2 in Hcase3. rewrite Hsp2 in Hsp3.
    assert (slotsOutside (dom (chans w)) w3) as Hout.
    { intros id c Hl Hc. eapply Hout3; [done|]. rewrite <-Hc1 in Hc. set_solver. }
    destruct (startError env (spawned w)) as [s|] eqn:Hstart.
    - destruct Hcase3 as (-> & Ht3 & Hin3 & Hr3). wp_run.
      unfold turned. cbv zeta. fold id1 req1 A1. rewrite Hres, Hstart.
      split_and!; try congruence; try (cbn [bound]; congruence); try (by intros ? [=]).
      exists [ClosedStdin p1; Killed p1; SpawnFailed]. split; [by apply Htr|].
      by split_and!.
    - cbv zeta in Hcase3. destruct Hcase3 as (Hr3 & Hst3 & n3 & Ht3 & Hl3).
      destruct r as [res|e2].
      + eapply wp_mono; [apply turn_finish|]. cbv beta.
        intros r w4 (-> & Ho4 & Hcmd4 & Hin4 & Hr4 & Hd4 & Hp4 & Hex4 & Hsp4 & Hc4 & Hcv4 & Hta4 & n4 & Ht4 & Hl4).
        unfold turned. cbv zeta. fold id1 req1 A1. rewrite Hres, Hstart, <-Hr3.
        split_and!; try congruence; try (cbn [bound]; congruence); try (intros ? _; exact Hta4).
        exists (n3 ++ n4). split; [apply Htr; [done|by eapply after_trans]|].
        split_and!; try congruence.
        * unfold slotsOutside. by rewrite Hp4.
        * by rewrite life_app, Hl3, Hl4, app_nil_r.
        * unfold started in *. intuition congruence.
      + wp_run. unfold turned. cbv zeta. fold id1 req1 A1. rewrite Hres, Hstart, <-Hr3.
        split_and!; try congruence; try (cbn [bound]; congruence); try (by intros ? [=]).
        exists n3. split; [by apply Htr|]. by split_and!. }
  unfold attemptResult in Hgood, Hbad. unfold A1, attemptEffect in Hgood, Hbad.
  destruct (writeError env (written w)) as [e|].
  - destruct Hcase2 as (-> & Ht2 & _). by eapply Hbad.
  - destruct Hcase2 as (-> & Ht2 & _).
    destruct (answer env id1) as [res|e1]; [by eapply Hgood|by eapply Hbad].
Qed.

End operations.

(** ** Chat turns of the MCP bridge *)

Section turns.
Import mcp.

Lemma attemptResult_fails (env : Env) (n : nat) (id : Z) (e : string) :
  writeError env n = Some e → attemptResult env n id = Err (WriteError e).
Proof. unfold attemptResult. by intros ->. Qed.

Lemma attemptEffect_fails (env : Env) (n pipe : nat) (req : message) (e : string) :
  writeError env n = Some e → attemptEffect env n pipe req = WriteFailed pipe req e.
Proof. unfold attemptEffect. by intros ->. Qed.

Lemma ChatMulti_started (env : Env) (ctx : Context) (ch : config.Channel)
    (prompt : string) (w w1 : World) :
  ensureStarted env ch w = Returns None w1 →
  ChatMulti env ctx ch prompt w = turn env ctx ch prompt w1.
Proof. intros H. unfold ChatMulti, mbind, M_bind. by rewrite H. Qed.

(** When [ensureStarted] returns nil the bridge has a process and its
    stdin, and the options and bindings are as before. *)
Lemma ensureStarted_session (env : Env) (ch : config.Channel) (w w1 : World) :
  consistent w →
  ensureStarted env ch w = Returns None w1 →
  ∃ p, stdin (bridge w1) = Some p ∧ cmd (bridge w1) = Some p ∧
       opts (bridge w1) = opts (bridge w) ∧ convo (bridge w1) = convo (bridge w).
Proof.
  intros Hc He. pose proof (ensureStarted_spec env ch w) as H.
  unfold wp in H. rewrite He in H. unfold already in H.
  destruct (ready (bridge w)) eqn:Hr; cbn [andb] in H.
  - destruct (Hc Hr) as (p & ? & ?).
    destruct (_ && _); [destruct H as [_ ->]; eauto|].
    destruct H as ((? & ? & _) & _ & _ & H).
    destruct (startError env (spawned w)); [by destruct H|].
    destruct H as (_ & (? & ? & _) & _). eauto.
  - destruct H as ((? & ? & _) & _ & _ & H).
    destruct (startError env (spawned w)); [by destruct H|].
    destruct H as (_ & (? & ? & _) & _). eauto.
Qed.

Lemma toolCall_unbound (m : MCPBridge) (ctx : Context) (ch : config.Channel)
    (prompt : string) :
  convo m !! config.ChannelID ch = None →
  ∃ args, toolCall m ctx ch prompt = ("codex", args) ∧
          startArguments (conf (opts m)) ctx ch prompt args.
Proof.
  intros Hc. unfold toolCall, startArguments. rewrite Hc. eexists. split; [done|].
  destruct (userTag ctx), (decide (strings.TrimSpace _ = "")),
    (decide (config.Workdir ch = "")); cbn [fmap option_fmap option_map].
  all: split_and!; [by simplify_map_eq..|].
  all: rewrite ?dom_insert_L, dom_singleton_L; set_solver.
Qed.

Lemma toolCall_bound (m : MCPBridge) (ctx : Context) (ch : config.Channel)
    (prompt cid : string) :
  convo m !! config.ChannelID ch = Some cid →
  ∃ args, toolCall m ctx ch prompt = ("codex-reply", args) ∧
          replyArguments cid ctx prompt args.
Proof.
  intros Hc. unfold toolCall, replyArguments. rewrite Hc. eexists. split; [done|].
  destruct (userTag ctx); cbn [fmap option_fmap option_map].
  all: split_and!; [by simplify_map_eq..|].
  all: rewrite ?dom_insert_L, dom_singleton_L; set_solver.
Qed.

Lemma calls_cons (e : effect) (t : list effect) :
  calls (e :: t) = match callOf e with Some c => c :: calls t | None => calls t end.
Proof. done. Qed.

Lemma callOf_lifecycle (e : effect) : lifecycle e = false → callOf e = None.
Proof.
  destruct e as [| |pipe [id method p|method p]| pipe [id method p|method p] err| | | | | |];
    cbn; try done.
  all: case_bool_decide; case_decide; congruence.
Qed.

Lemma calls_life (t : list effect) : calls (life t) = calls t.
Proof.
  induction t as [|e t IH]; [done|].
  unfold life. cbn [List.filter]. fold (life t).
  destruct (lifecycle e) eqn:He; rewrite !calls_cons, ?IH; [done|].
  by rewrite callOf_lifecycle.
Qed.

Lemma calls_attempt (env : Env) (n pipe : nat) (id : Z) (call : params) (t : list effect) :
  calls (attemptEffect env n pipe (Request id "tools/call" call) :: t) = call :: calls t.
Proof. unfold attemptEffect. by destruct (writeError env n). Qed.

Lemma turned_chatted (env : Env) (ch : config.Channel) (call : params)
    (p1 : nat) (w w1 : World) (r : result json) (w' : World) (pre : list effect) :
  opts (bridge w1) = opts (bridge w) → convo (bridge w1) = convo (bridge w) →
  after w pre w1 → calls pre = [] →
  turned env ch call p1 w1 r w' → chatted ch call w r w'.
Proof.
  intros Ho Hcv Hpre Hnone (Ho' & _ & Hcv' & _ & rest & Hnew & Hcase).
  set (new := touchEffects w1 ++ _ :: rest) in Hnew.
  assert (calls new = [call] ∨ calls new = [call; call]) as Hcalls.
  { rewrite <-calls_life. unfold new.
    rewrite life_app, life_touchEffects. cbn [app].
    change (life (?a :: ?l)) with (life ([a] ++ l)). rewrite life_app, life_attempt.
    cbn [app]. rewrite calls_attempt.
    destruct (attemptResult env _ _).
    - destruct Hcase as (_ & -> & _). auto.
    - destruct Hcase as (_ & _ & Hcase). destruct (startError env _).
      + destruct Hcase as (_ & -> & _). auto.
      + destruct Hcase as (_ & -> & _).
        do 3 (rewrite calls_cons; cbn [callOf]). rewrite calls_attempt. auto. }
  assert (consistent w') as Hcons.
  { intros Hr. destruct (attemptResult env _ _).
    - destruct Hcase as (_ & _ & _ & ? & ? & _). eauto.
    - destruct Hcase as (_ & _ & Hcase). destruct (startError env _).
      + destruct Hcase as (_ & _ & _ & ?). congruence.
      + destruct Hcase as (_ & _ & (? & ? & _)). eauto. }
  split_and!; try done; try congruence.
  exists (pre ++ new). split; [by eapply after_trans|].
  assert (calls (pre ++ new) = calls new) as ->.
  { unfold calls in *. by rewrite omap_app, Hnone. }
  destruct Hcalls as [-> | ->]; split; try done; repeat constructor.
Qed.

Lemma ChatMulti_chatted (env : Env) (ctx : Context) (ch : config.Channel)
    (prompt : string) (w : World) :
  consistent w →
  wp (ChatMulti env ctx ch prompt)
     (chatted ch (callParams (toolCall (bridge w) ctx ch prompt).1
                             (toolCall (bridge w) ctx ch prompt).2) w) w.
Proof.
  intros Hc. unfold ChatMulti. apply wp_bind.
  eapply wp_mono; [apply ensureStarted_spec|]. cbv beta. intros e w1 H.
  destruct (already w) eqn:Hal.
  - destruct H as [-> ->]. unfold already in Hal.
    destruct (ready (bridge w)) eqn:Hr; [|done]. destruct (Hc Hr) as (p & Hin & Hcmd).
    eapply wp_mono; [by eapply turn_spec|]. cbv beta. intros r w'.
    apply turned_chatted with (pre := []); try done. apply after_refl.
  - destruct H as ((Ho & Hcv & _) & _ & _ & H).
    destruct (startError env (spawned w)) as [s|].
    + destruct H as (-> & Ht & Hb). wp_run. unfold chatted. split_and!.
      * unfold consistent. by rewrite Hb.
      * done.
      * done.
      * exists [SpawnFailed]. split_and!; [done|done|eauto].
    + destruct H as (-> & (Hin & Hcmd & _) & _ & _ & new & Ht & Hl).
      eapply wp_mono; [by eapply turn_spec|]. cbv beta. intros r w'.
      rewrite (toolCall_ext (bridge w)) by done.
      apply turned_chatted with (pre := Spawned (spawned w) :: new); try done.
      rewrite <-calls_life. change (life (Spawned ?a :: ?l)) with (Spawned a :: life l).
      by rewrite Hl.
Qed.

End turns.

(** C3 (as amended).  When the write of the first [tools/call] of a chat
    turn fails, the bridge closes the input stream, kills the process and
    clears the pending table, and calls [start] once.  If that start
    succeeds the request is written once more, to the new process, and
    what this second attempt reports, result or error, is returned as it
    is; if the start fails nothing is retried and the error of the first
    attempt is returned.  In both cases the turn ends there: there is no
    further restart and no further attempt, and no slot that was pending
    before the failure is pending afterwards. *)
Theorem ChatMulti_write_failure_restarts_and_retries_once
    (env : mcp.Env) (ctx : mcp.Context) (ch : config.Channel) (prompt : string)
    (w w1 : mcp.World) (e1 : string) :
  mcp.consistent w →
  mcp.ensureStarted env ch w = mcp.Returns None w1 →
  mcp.writeError env (mcp.written w1) = Some e1 →
  let call := mcp.callParams (mcp.toolCall (mcp.bridge w) ctx ch prompt).1
                             (mcp.toolCall (mcp.bridge w) ctx ch prompt).2 in
  let id1 := wrap64 (mcp.reqID (mcp.bridge w1) + 1) in
  let id2 := wrap64 (wrap64 (id1 + 1) + 1) in
  let n2 := S (S (S (mcp.written w1))) in
  let p2 := mcp.spawned w1 in
  ∃ p1 r w' new,
    mcp.stdin (mcp.bridge w1) = Some p1 ∧
    mcp.ChatMulti env ctx ch prompt w = mcp.Returns r w' ∧
    mcp.after w1 new w' ∧
    mcp.slotsOutside (dom (mcp.chans w1)) w' ∧
    match mcp.startError env (mcp.spawned w1) with
    | Some _ =>
        mcp.life new =
          [mcp.WriteFailed p1 (mcp.Request id1 "tools/call" call) e1;
           mcp.ClosedStdin p1; mcp.Killed p1; mcp.SpawnFailed] ∧
        r = mcp.Err (mcp.WriteError e1)
    | None =>
        mcp.life new =
          [mcp.WriteFailed p1 (mcp.Request id1 "tools/call" call) e1;
           mcp.ClosedStdin p1; mcp.Killed p1; mcp.Spawned p2;
           mcp.attemptEffect env n2 p2 (mcp.Request id2 "tools/call" call)] ∧
        r = mcp.attemptResult env n2 id2
    end.
Proof.
  intros Hc He Hw1 call id1 id2 n2 p2.
  destruct (ensureStarted_session env ch w w1 Hc He) as (p1 & Hin & Hcmd & Ho & Hcv).
  pose proof (turn_spec env ctx ch prompt w1 p1 Hin Hcmd) as Ht.
  rewrite (toolCall_ext (mcp.bridge w)) in Ht by done. fold call in Ht.
  apply wp_returns in Ht as (r & w' & Hrun & Ht).
  destruct Ht as (_ & _ & _ & _ & rest & Hnew & Hcase).
  rewrite (attemptResult_fails _ _ _ _ Hw1) in Hcase.
  rewrite (attemptEffect_fails _ _ _ _ _ Hw1) in Hnew.
  destruct Hcase as (Hout & _ & Hcase).
  exists p1, r, w'. eexists. rewrite (ChatMulti_started _ _ _ _ _ _ He).
  split; [done|]. split; [done|]. split; [exact Hnew|]. split; [done|].
  rewrite life_app, life_touchEffects. cbn [app].
  change (mcp.life (?a :: rest)) with (a :: mcp.life rest).
  destruct (mcp.startError env (mcp.spawned w1)).
  - by destruct Hcase as (-> & -> & _).
  - by destruct Hcase as (-> & -> & _).
Qed.

Lemma ChatMulti_write_failure_witness :
  let w1 := scenario.left (mcp.ensureStarted scenario.flaky scenario.C) scenario.fresh in
  mcp.consistent scenario.fresh ∧
  mcp.ensureStarted scenario.flaky scenario.C scenario.fresh = mcp.Returns None w1 ∧
  mcp.writeError scenario.flaky (mcp.written w1) = Some "write |1: broken pipe" ∧
  ∃ p1 r w' new,
    mcp.stdin (mcp.bridge w1) = Some p1 ∧
    mcp.ChatMulti scenario.flaky scenario.anonymous scenario.C "list files"
      scenario.fresh = mcp.Returns r w' ∧
    mcp.after w1 new w' ∧ length (mcp.calls new) = 2%nat ∧
    r = mcp.Ok (JObj ∅).
Proof.
  intros w1.
  assert (mcp.consistent scenario.fresh) as Hc by (intros H; discriminate H).
  assert (mcp.ensureStarted scenario.flaky scenario.C scenario.fresh
          = mcp.Returns None w1) as He by (vm_compute; reflexivity).
  assert (mcp.writeError scenario.flaky (mcp.written w1)
          = Some "write |1: broken pipe") as Hw by reflexivity.
  split_and!; [exact Hc|exact He|exact Hw|].
  destruct (ChatMulti_write_failure_restarts_and_retries_once
              scenario.flaky scenario.anonymous scenario.C "list files"
              scenario.fresh w1 _ Hc He Hw)
    as (p1 & r & w' & new & Hin & Hrun & Hnew & _ & Hlife & Hr).
  exists p1, r, w', new. split_and!; [exact Hin|exact Hrun|exact Hnew| |exact Hr].
  rewrite <-calls_life, Hlife. reflexivity.
Defined.

(** C3, as stated, fails when the restart itself fails: the request is
    then not retried at all, and what the caller gets is the error of the
    first attempt, not the failure of the restart. *)
Lemma ChatMulti_failed_restart_is_not_retried :
  ∃ w',
    mcp.ChatMulti scenario.broken scenario.anonymous scenario.C "list files"
      scenario.fresh
    = mcp.Returns (mcp.Err (mcp.WriteError "write |1: broken pipe")) w' ∧
    mcp.life (mcp.trace w') =
      [mcp.Spawned 0;
       mcp.WriteFailed 0
         (mcp.Request 2 "tools/call"
            (mcp.callParams "codex"
               {[ "prompt" := JStr "list files";
                  "sandbox" := JStr "workspace-write";
                  "approval-policy" := JStr "never" ]}))
         "write |1: broken pipe";
       mcp.ClosedStdin 0; mcp.Killed 0; mcp.SpawnFailed] ∧
    length (mcp.calls (mcp.trace w')) = 1%nat.
Proof.
  eexists. split; [vm_compute; reflexivity|].
  split; vm_compute; reflexivity.
Qed.

(** C2 (as amended).  For an owner with no binding, every [tools/call] of
    the turn names the tool "codex" and carries the prompt (behind the
    trimmed preamble and a blank line when the trimmed preamble is not
    empty), sandbox "workspace-write", approval-policy "never", [cwd] when
    the channel has a working directory, and the user tag when the
    context has one; the turn writes such a call unless no process could
    be started.  A non-empty [conversationId] string of the result is
    bound to the owner at once, so that every [tools/call] of the owner's
    next turn names "codex-reply" and carries exactly that
    [conversationId], the new prompt as given and, when its context has
    one, the user tag. *)
Theorem ChatMulti_starts_then_replies
    (env : mcp.Env) (ctx : mcp.Context) (ch : config.Channel) (prompt : string)
    (w : mcp.World) :
  mcp.consistent w →
  mcp.convo (mcp.bridge w) !! config.ChannelID ch = None →
  ∃ r w' new args,
    mcp.ChatMulti env ctx ch prompt w = mcp.Returns r w' ∧
    mcp.after w new w' ∧
    mcp.startArguments (mcp.conf (mcp.opts (mcp.bridge w))) ctx ch prompt args ∧
    Forall (λ c, c = mcp.callParams "codex" args) (mcp.calls new) ∧
    (mcp.calls new = [] → ∃ s, r = mcp.Err (mcp.StartError s)) ∧
    ∀ obj cid,
      r = mcp.Ok (JObj obj) → obj !! "conversationId" = Some (JStr cid) → cid ≠ "" →
      mcp.convo (mcp.bridge w') !! config.ChannelID ch = Some cid ∧
      ∀ env' ctx' prompt', ∃ r' w'' new' args',
        mcp.ChatMulti env' ctx' ch prompt' w' = mcp.Returns r' w'' ∧
        mcp.after w' new' w'' ∧
        mcp.replyArguments cid ctx' prompt' args' ∧
        Forall (λ c, c = mcp.callParams "codex-reply" args') (mcp.calls new') ∧
        (mcp.calls new' = [] → ∃ s, r' = mcp.Err (mcp.StartError s)).
Proof.
  intros Hc Hun.
  destruct (toolCall_unbound (mcp.bridge w) ctx ch prompt Hun) as (args & Htc & Hargs).
  pose proof (ChatMulti_chatted env ctx ch prompt w Hc) as H.
  rewrite Htc in H. apply wp_returns in H as (r & w' & Hrun & Hc' & Ho & Hcv & new & Hnew & Hall & Hnone).
  exists r, w', new, args. split_and!; try done.
  intros obj cid -> Hcid Hne.
  assert (mcp.convo (mcp.bridge w') !! config.ChannelID ch = Some cid) as Hb.
  { rewrite Hcv. cbn [mcp.bound]. rewrite Hcid. destruct (decide (cid = "")); [done|].
    apply lookup_insert_eq. }
  split; [done|]. intros env' ctx' prompt'.
  destruct (toolCall_bound (mcp.bridge w') ctx' ch prompt' cid Hb) as (args' & Htc' & Hargs').
  pose proof (ChatMulti_chatted env' ctx' ch prompt' w' Hc') as H'.
  rewrite Htc' in H'.
  apply wp_returns in H' as (r' & w'' & Hrun' & _ & _ & _ & new' & Hnew' & Hall' & Hnone').
  by exists r', w'', new', args'.
Qed.

Lemma ChatMulti_starts_then_replies_witness :
  mcp.consistent scenario.fresh ∧
  mcp.convo (mcp.bridge scenario.fresh) !! config.ChannelID scenario.C = None ∧
  ∃ r w' new args,
    mcp.ChatMulti scenario.healthy scenario.anonymous scenario.C "list files"
      scenario.fresh = mcp.Returns r w' ∧
    mcp.after scenario.fresh new w' ∧
    args !! "prompt" = Some (JStr "list files") ∧
    Forall (λ c, c = mcp.callParams "codex" args) (mcp.calls new).
Proof.
  assert (mcp.consistent scenario.fresh) as Hc by (intros H; discriminate H).
  assert (mcp.convo (mcp.bridge scenario.fresh) !! config.ChannelID scenario.C
          = None) as Hun by reflexivity.
  split_and!; [exact Hc|exact Hun|].
  destruct (ChatMulti_starts_then_replies scenario.healthy scenario.anonymous
              scenario.C "list files" scenario.fresh Hc Hun)
    as (r & w' & new & args & Hrun & Hnew & Hargs & Hall & _).
  exists r, w', new, args. split_and!; [exact Hrun|exact Hnew| |exact Hall].
  exact (proj1 Hargs).
Defined.

(** C2, as stated, fails on the word "only": when the caller's context
    carries a user tag, as the chat front-end's contexts do, the
    "codex-reply" call carries it next to the conversation id and the
    prompt.  The scenario is the specification's, with user "alice". *)
Lemma ChatMulti_reply_carries_the_user_tag :
  let w1 := scenario.left
              (mcp.ChatMulti scenario.healthy scenario.alice scenario.C "list files")
              scenario.fresh in
  let w2 := scenario.left
              (mcp.ChatMulti scenario.healthy scenario.alice scenario.C "show a.txt")
              w1 in
  mcp.convo (mcp.bridge w1) !! "C" = Some "abc123" ∧
  mcp.calls (drop (length (mcp.trace w1)) (mcp.trace w2)) =
    [mcp.callParams "codex-reply"
       {[ "conversationId" := JStr "abc123"; "prompt" := JStr "show a.txt";
          "user" := JStr "alice" ]}] ∧
  ({[ "conversationId" := JStr "abc123"; "prompt" := JStr "show a.txt";
      "user" := JStr "alice" ]} : gmap string json)
  ≠ {[ "conversationId" := JStr "abc123"; "prompt" := JStr "show a.txt" ]}.
Proof.
  split_and!.
  - vm_compute. reflexivity.
  - vm_compute. reflexivity.
  - intros H. apply (f_equal (λ m : gmap string json, m !! "user")) in H.
    vm_compute in H. discriminate H.
Qed.

(** ** Bindings and [Reset] *)

Section bindings.
Import mcp.

(** A turn of an owner with no binding: "codex". *)
Lemma ChatMulti_unbound (env : Env) (ctx : Context) (ch : config.Channel)
    (prompt : string) (w : World) :
  consistent w →
  convo (bridge w) !! config.ChannelID ch = None →
  ∃ r w' new args,
    ChatMulti env ctx ch prompt w = Returns r w' ∧ after w new w' ∧
    startArguments (conf (opts (bridge w))) ctx ch prompt args ∧
    Forall (λ c, c = callParams "codex" args) (calls new) ∧
    (calls new = [] → ∃ s, r = Err (StartError s)).
Proof.
  intros Hc Hun.
  destruct (toolCall_unbound (bridge w) ctx ch prompt Hun) as (args & Htc & Hargs).
  pose proof (ChatMulti_chatted env ctx ch prompt w Hc) as H.
  rewrite Htc in H.
  apply wp_returns in H as (r & w' & Hrun & _ & _ & _ & new & Hnew & Hall & Hnone).
  by exists r, w', new, args.
Qed.

Lemma Reset_unbound (channelID : string) (w : World) :
  convo (bridge w) !! channelID = None → Reset channelID w = Returns tt w.
Proof.
  intros Hun. unfold Reset. destruct (decide (channelID = "")); [done|].
  unfold update. rewrite delete_id by done. by destruct w as [[]].
Qed.

Lemma Reset_unbinds (channelID : string) (w : World) :
  channelID ≠ "" →
  ∃ w1, Reset channelID w = Returns tt w1 ∧
        convo (bridge w1) !! channelID = None ∧
        (consistent w → consistent w1).
Proof.
  intros Hne. unfold Reset. destruct (decide (channelID = "")); [done|].
  eexists. split; [done|]. wsimpl. split; [apply lookup_delete_eq|done].
Qed.

End bindings.

(** C9.  [Reset] is idempotent, and a no-op when the owner has no
    conversation binding; after [Reset] of an owner (a channel id, which is
    not empty) the owner has no binding, so that every [tools/call] of the
    owner's next chat turn names the tool "codex" again, with the
    arguments of a "start" call. *)
Theorem Reset_idempotent_then_start_again (channelID : string) (w : mcp.World) :
  (mcp.Reset channelID;; mcp.Reset channelID) w = mcp.Reset channelID w ∧
  (mcp.convo (mcp.bridge w) !! channelID = None →
   mcp.Reset channelID w = mcp.Returns tt w) ∧
  (channelID ≠ "" → mcp.consistent w →
   ∃ w1, mcp.Reset channelID w = mcp.Returns tt w1 ∧
     mcp.convo (mcp.bridge w1) !! channelID = None ∧
     ∀ env ctx ch prompt, config.ChannelID ch = channelID →
       ∃ r w' new args,
         mcp.ChatMulti env ctx ch prompt w1 = mcp.Returns r w' ∧
         mcp.after w1 new w' ∧
         mcp.startArguments (mcp.conf (mcp.opts (mcp.bridge w))) ctx ch prompt args ∧
         Forall (λ c, c = mcp.callParams "codex" args) (mcp.calls new) ∧
         (mcp.calls new = [] → ∃ s, r = mcp.Err (mcp.StartError s))).
Proof.
  split_and!.
  - unfold mcp.Reset. destruct (decide (channelID = "")); [done|].
    unfold mbind, mcp.M_bind, mcp.update. wsimpl. by rewrite delete_delete_eq.
  - apply Reset_unbound.
  - intros Hne Hc. destruct (Reset_unbinds channelID w Hne) as (w1 & Hr & Hun & Hc1).
    exists w1. split_and!; try done.
    intros env ctx ch prompt <-.
    assert (mcp.opts (mcp.bridge w) = mcp.opts (mcp.bridge w1)) as ->.
    { unfold mcp.Reset in Hr. destruct (decide _); [done|]. by injection Hr as <-. }
    apply ChatMulti_unbound; auto.
Qed.

(** The specification's scenario: C is bound to "abc123" by its first turn,
    is reset, and starts again. *)
Lemma Reset_witness :
  let w := scenario.left
             (mcp.ChatMulti scenario.healthy scenario.anonymous scenario.C "list files")
             scenario.fresh in
  mcp.convo (mcp.bridge w) !! "C" = Some "abc123" ∧
  "C" ≠ "" ∧ mcp.consistent w ∧
  ∃ w1, mcp.Reset "C" w = mcp.Returns tt w1 ∧
    mcp.convo (mcp.bridge w1) !! "C" = None ∧
    ∃ r w' new args,
      mcp.ChatMulti scenario.healthy scenario.anonymous scenario.C "show a.txt" w1
        = mcp.Returns r w' ∧
      mcp.after w1 new w' ∧
      Forall (λ c, c = mcp.callParams "codex" args) (mcp.calls new).
Proof.
  intros w.
  assert ("C" ≠ "") as Hne by discriminate.
  assert (mcp.consistent w) as Hc.
  { intros _. exists 0%nat. split; vm_compute; reflexivity. }
  split; [vm_compute; reflexivity|]. split; [exact Hne|]. split; [exact Hc|].
  destruct (Reset_idempotent_then_start_again "C" w) as (_ & _ & H).
  destruct (H Hne Hc) as (w1 & Hr & Hun & Hnext).
  exists w1. split; [exact Hr|]. split; [exact Hun|].
  destruct (Hnext scenario.healthy scenario.anonymous scenario.C "show a.txt" eq_refl)
    as (r & w' & new & args & Hrun & Hnew & _ & Hall & _).
  exists r, w', new, args. split; [exact Hrun|]. split; [exact Hnew|exact Hall].
Defined.

(** The empty channel id is no owner for [Reset]: it returns at once,
    whatever the bindings.  ([config.Load] rejects a channel without id.) *)
Example Reset_of_the_empty_id (w : mcp.World) : mcp.Reset "" w = mcp.Returns tt w.
Proof. reflexivity. Qed.

(** ** The request correlator *)

Section correlator.
Import mcp.

(** [deliver] takes the slot out before it sends: a second response with
    the same id finds no slot and is dropped, so a waiter receives at most
    one response. *)
Lemma deliver_twice (id : Z) (v v' : json) (w : World) :
  (deliver id v;; deliver id v') w = deliver id v w.
Proof.
  unfold mbind, M_bind.
  pose proof (deliver_spec id v w) as H. unfold wp in H.
  destruct (deliver id v w) as [[] w1|]; [|done]. subst w1.
  pose proof (deliver_spec id v' w) as H'. unfold wp in H'.
  destruct (pending (bridge w) !! id) as [ch|] eqn:Hid.
  - unfold deliver, mbind, M_bind, get. wsimpl. by rewrite lookup_delete_eq.
  - unfold deliver, mbind, M_bind, get. by rewrite Hid.
Qed.

(** An answered request returns the response and leaves no slot behind. *)
Lemma requestForChannel_answered (env : Env) (method : string) (p : params)
    (owner : string) (w : World) (pipe : nat) (v : json) :
  stdin (bridge w) = Some pipe →
  writeError env (written w) = None →
  waitFor env (wrap64 (reqID (bridge w) + 1)) = Answered v →
  ∃ w', requestForChannel env method p owner w = Returns (Ok v) w' ∧
        pending (bridge w') = delete (wrap64 (reqID (bridge w) + 1)) (pending (bridge w)).
Proof.
  intros Hin Hw Ha.
  pose proof (requestForChannel_spec env method p owner w pipe Hin) as H.
  apply wp_returns in H as (r & w' & Hrun & _ & _ & _ & _ & _ & _ & H).
  rewrite Hw in H. unfold answer in H. rewrite Ha in H. destruct H as (-> & _ & H).
  eauto.
Qed.

End correlator.

(** C1 (where the code departs from it).  A request whose wait ends by the
    per-request timeout or by the caller's cancellation returns the error
    and leaves its slot in the pending table: nothing on these two paths
    removes it. *)
Theorem requestForChannel_unanswered_leaves_the_slot
    (env : mcp.Env) (method : string) (p : mcp.params) (owner : string)
    (w : mcp.World) (pipe : nat) :
  let id := wrap64 (mcp.reqID (mcp.bridge w) + 1) in
  mcp.stdin (mcp.bridge w) = Some pipe →
  mcp.writeError env (mcp.written w) = None →
  mcp.waitFor env id = mcp.TimedOut ∨ mcp.waitFor env id = mcp.Cancelled →
  ∃ e w',
    mcp.requestForChannel env method p owner w = mcp.Returns (mcp.Err e) w' ∧
    (e = mcp.RequestTimeout ∨ e = mcp.ContextError) ∧
    mcp.pending (mcp.bridge w') !! id = Some (fresh (dom (mcp.chans w))).
Proof.
  intros id Hin Hw Hwait.
  pose proof (requestForChannel_spec env method p owner w pipe Hin) as H.
  apply wp_returns in H as (r & w' & Hrun & _ & _ & _ & _ & _ & _ & H).
  rewrite Hw in H. unfold mcp.answer in H. fold id in H.
  destruct Hwait as [Hwait|Hwait]; rewrite Hwait in H; destruct H as (-> & _ & Hp).
  - exists mcp.RequestTimeout, w'. split_and!; auto. rewrite Hp. apply lookup_insert_eq.
  - exists mcp.ContextError, w'. split_and!; auto. rewrite Hp. apply lookup_insert_eq.
Qed.

(** An agent that never answers: the [tools/call] with id 2 times out and
    is still in the table afterwards. *)
Lemma requestForChannel_timeout_witness :
  mcp.stdin (mcp.bridge scenario.running) = Some 0%nat ∧
  mcp.writeError scenario.silent (mcp.written scenario.running) = None ∧
  mcp.waitFor scenario.silent 2 = mcp.TimedOut ∧
  ∃ w',
    mcp.requestForChannel scenario.silent "tools/call" mcp.noParams "C"
      scenario.running = mcp.Returns (mcp.Err mcp.RequestTimeout) w' ∧
    is_Some (mcp.pending (mcp.bridge w') !! 2).
Proof.
  assert (mcp.stdin (mcp.bridge scenario.running) = Some 0%nat) as Hin
    by (vm_compute; reflexivity).
  split; [exact Hin|]. split; [reflexivity|]. split; [reflexivity|].
  destruct (requestForChannel_unanswered_leaves_the_slot scenario.silent
              "tools/call" mcp.noParams "C" scenario.running 0%nat Hin eq_refl
              (or_introl eq_refl)) as (e & w' & Hrun & _ & Hp).
  exists w'. split.
  - rewrite Hrun. f_equal.
    assert (mcp.requestForChannel scenario.silent "tools/call" mcp.noParams "C"
              scenario.running
            = mcp.Returns (mcp.Err mcp.RequestTimeout)
                (scenario.left (mcp.requestForChannel scenario.silent "tools/call"
                                  mcp.noParams "C") scenario.running)) as Heq
      by (vm_compute; reflexivity).
    rewrite Heq in Hrun. by injection Hrun as <-.
  - eexists. exact Hp.
Defined.

(** ** Starting the process *)

Section supervision.
Import mcp.

Lemma spawnedIn_life (t : list effect) : spawnedIn (life t) = spawnedIn t.
Proof.
  unfold spawnedIn, life. induction t as [|e t IH]; [done|].
  destruct e as [pid| |pipe m|pipe m err|pipe|pid|pid|c|d|d]; cbn; rewrite ?IH; try done.
  all: match goal with |- context [isToolsCall ?x] => destruct (isToolsCall x) end.
  all: cbn; by rewrite ?IH.
Qed.

Lemma already_started (n : nat) (w : World) :
  started n w → n ∉ exited w → already w = true.
Proof.
  intros (_ & _ & Hd & Hr) Hex. unfold already, isDead. rewrite Hr, Hd.
  rewrite (bool_decide_eq_false_2 (n ∈ exited w)) by done.
  rewrite (bool_decide_eq_true_2 (is_Some (Some n))) by eauto. done.
Qed.

End supervision.

(** C4.  [ensureStarted] is idempotent: when a session exists, is marked
    ready and its death signal has not fired, it returns nil at once and
    changes nothing.  But the start is not guarded: the three fields are
    read under the mutex, the mutex is released, and only then is [start]
    called.  Two callers of which the second makes its check after the
    first has finished spawn one process; two callers that both make
    their check before either has started, as two goroutines that find
    the bridge not started or that recover from the same failure do,
    both call [start]: two agent processes are spawned, neither is closed
    or killed, and the bridge keeps the second one only. *)
Theorem ensureStarted_check_then_start_spawns_twice
    (env : mcp.Env) (ch : config.Channel) (w : mcp.World) :
  let p1 := mcp.spawned w in
  let p2 := S (mcp.spawned w) in
  let callers := [mcp.Calling; mcp.Calling] in
  let finished := [mcp.Finished None; mcp.Finished None] in
  (mcp.already w = true → mcp.ensureStarted env ch w = mcp.Returns None w) ∧
  (mcp.already w = false → mcp.startError env p1 = None →
   (∀ pid, pid ∈ mcp.exited w → (pid < p1)%nat) →
   ∃ w' new,
     mcp.interleave env ch [0; 0; 1; 1]%nat (w, callers) = (w', finished) ∧
     mcp.after w new w' ∧
     mcp.life new = [mcp.Spawned p1] ∧
     mcp.started p1 w' ∧ mcp.exited w' = mcp.exited w) ∧
  (mcp.already w = false → mcp.startError env p1 = None →
   mcp.startError env p2 = None →
   ∃ w' new,
     mcp.interleave env ch [0; 1; 0; 1]%nat (w, callers) = (w', finished) ∧
     mcp.after w new w' ∧
     mcp.life new = [mcp.Spawned p1; mcp.Spawned p2] ∧
     mcp.started p2 w' ∧ mcp.exited w' = mcp.exited w).
Proof.
  intros p1 p2 callers finished. split_and!.
  - intros Hal. unfold mcp.ensureStarted, mbind, mcp.M_bind. by rewrite Hal.
  - intros Hal H1 Hex.
    pose proof (start_spec env ch w) as Hs.
    apply wp_returns in Hs as (e1 & w1 & Hrun1 & (_ & _ & Hex1) & _ & _ & Hc1).
    fold p1 in Hc1. rewrite H1 in Hc1.
    destruct Hc1 as (-> & Hst1 & _ & _ & n1 & Hn1 & Hl1).
    assert (mcp.already w1 = true) as Hal1.
    { apply (already_started p1); [done|]. rewrite Hex1. intros Hin%Hex. lia. }
    exists w1, (mcp.Spawned p1 :: n1). split_and!; try done.
    + unfold mcp.interleave, callers. cbn. rewrite Hal. cbn. rewrite Hrun1. cbn.
      by rewrite Hal1.
    + change (mcp.life (mcp.Spawned ?a :: ?l)) with (mcp.Spawned a :: mcp.life l).
      by rewrite Hl1.
  - intros Hal H1 H2.
    pose proof (start_spec env ch w) as Hs.
    apply wp_returns in Hs as (e1 & w1 & Hrun1 & (_ & _ & Hex1) & _ & Hsp1 & Hc1).
    fold p1 in Hc1. rewrite H1 in Hc1.
    destruct Hc1 as (-> & _ & _ & _ & n1 & Hn1 & Hl1).
    pose proof (start_spec env ch w1) as Hs.
    apply wp_returns in Hs as (e2 & w2 & Hrun2 & (_ & _ & Hex2) & _ & _ & Hc2).
    rewrite Hsp1 in Hc2. fold p2 in Hc2. rewrite H2 in Hc2.
    destruct Hc2 as (-> & Hst2 & _ & _ & n2 & Hn2 & Hl2).
    exists w2, (mcp.Spawned p1 :: n1 ++ mcp.Spawned p2 :: n2). split_and!.
    + unfold mcp.interleave, callers. cbn. rewrite Hal. cbn. rewrite Hrun1. cbn.
      by rewrite Hrun2.
    + unfold mcp.after in *. rewrite Hn2, Hn1. by rewrite <-(assoc_L (++)).
    + change (mcp.life (mcp.Spawned ?a :: ?l)) with (mcp.Spawned a :: mcp.life l).
      rewrite life_app.
      change (mcp.life (mcp.Spawned ?a :: ?l)) with (mcp.Spawned a :: mcp.life l).
      by rewrite Hl1, Hl2.
    + done.
    + congruence.
Qed.

(** Two goroutines call [ensureStarted] on a bridge that has not been
    started yet, and both make their check before either starts. *)
Lemma ensureStarted_race_witness :
  mcp.already scenario.fresh = false ∧
  mcp.startError scenario.healthy 0 = None ∧
  mcp.startError scenario.healthy 1 = None ∧
  ∃ w' new,
    mcp.interleave scenario.healthy scenario.C [0; 1; 0; 1]%nat
      (scenario.fresh, [mcp.Calling; mcp.Calling])
    = (w', [mcp.Finished None; mcp.Finished None]) ∧
    mcp.after scenario.fresh new w' ∧
    mcp.life new = [mcp.Spawned 0; mcp.Spawned 1] ∧
    mcp.started 1 w' ∧ mcp.exited w' = ∅.
Proof.
  assert (mcp.already scenario.fresh = false) as Hal by reflexivity.
  assert (mcp.startError scenario.healthy 0 = None) as H1 by reflexivity.
  assert (mcp.startError scenario.healthy 1 = None) as H2 by reflexivity.
  split; [exact Hal|]. split; [exact H1|]. split; [exact H2|].
  destruct (ensureStarted_check_then_start_spawns_twice
              scenario.healthy scenario.C scenario.fresh) as (_ & _ & Hrace).
  destruct (Hrace Hal H1 H2) as (w' & new & Hrun & Hnew & Hlife & Hst & Hex).
  exists w', new. split; [exact Hrun|]. split; [exact Hnew|].
  split; [exact Hlife|]. split; [exact Hst|exact Hex].
Defined.

(** The processes of that run: 0 and 1 were spawned, none has exited, and
    the first process to exit afterwards takes [ready] down although the
    process that the bridge holds is running. *)
Example two_callers_leave_two_processes :
  let s := mcp.interleave scenario.healthy scenario.C [0; 1; 0; 1]%nat
             (scenario.fresh, [mcp.Calling; mcp.Calling]) in
  let w' := scenario.left (mcp.procExit 0) s.1 in
  s.2 = [mcp.Finished None; mcp.Finished None] ∧
  mcp.spawnedIn (mcp.trace s.1) = [0; 1]%nat ∧
  mcp.exited s.1 = ∅ ∧
  mcp.cmd (mcp.bridge w') = Some 1%nat ∧ mcp.exited w' = {[ 0%nat ]} ∧
  mcp.already w' = false.
Proof. vm_compute. split_and!; reflexivity. Qed.

(** ** Events *)

Section events.
Import mcp.

Lemma ownerOf_unowned (m : MCPBridge) (raw : gmap string json) :
  unowned m raw → ownerOf m (metaOf raw) = "".
Proof.
  unfold unowned, ownerOf.
  destruct (field (metaOf raw) "requestId") as [[| |t|t| |]|]; try done.
  - by intros ->.
  - intros H. destruct (parseID t) as [id|]; [|done]. by rewrite (H id).
Qed.

(** Destructs what the code under [wp] branches on. *)
Ltac wp_case :=
  lazymatch goal with
  | |- wp (match ?x with _ => _ end) _ _ => destruct x eqn:?
  end.

Lemma handleNotify_spec (raw : gmap string json) (w : World) :
  wp (handleNotify raw) (λ _ w',
    eventKept w w' ∧
    ∃ new, after w new w' ∧ life new = [] ∧
      (ownerOf (bridge w) (metaOf raw) = "" → callbacksIn new = []) ∧
      (asString (raw !! "method") = "codex/event" → is_Some (msgOf raw) →
       touchedAt (clock w) w') ∧
      (asString (raw !! "method") ≠ "codex/event" ∨ msgOf raw = None → w' = w)) w.
Proof.
  unfold handleNotify. fold (metaOf raw) (msgOf raw).
  destruct (decide (asString (raw !! "method") = "codex/event")) as [Hm|Hm]; wp_run.
  2:{ split; [by unfold eventKept, sameSession|]. exists [].
      split_and!; try done. apply after_refl. }
  destruct (msgOf raw) as [msg|] eqn:Hmsg; wp_run.
  2:{ split; [by unfold eventKept, sameSession|]. exists [].
      split_and!; try done; try apply after_refl; by intros _ []. }
  eapply wp_mono; [apply touchActivity_spec|]. cbv beta.
  intros _ w1 (Hs1 & Hp1 & Hid1 & Hown1 & Hc1 & Hw1 & Hck1 & Ht1 & Hta1 & _).
  set (owner := ownerOf (bridge w) (metaOf raw)).
  unfold reasoningDone, callOwner.
  assert (∀ (rb : gmap Z string) (extra : list effect) (w2 : World),
    bridge w2 = set_reasonBuf rb (bridge w1) → chans w2 = chans w1 →
    exited w2 = exited w1 → spawned w2 = spawned w1 → written w2 = written w1 →
    clock w2 = clock w1 → trace w2 = trace w1 ++ extra →
    life extra = [] → (owner = "" → callbacksIn extra = []) →
    eventKept w w2 ∧
    ∃ new, after w new w2 ∧ life new = [] ∧
      (owner = "" → callbacksIn new = []) ∧
      (asString (raw !! "method") = "codex/event" → is_Some (Some msg) →
       touchedAt (clock w) w2) ∧
      (asString (raw !! "method") ≠ "codex/event" ∨ Some msg = None → w2 = w))
    as Hleaf.
  { intros rb extra w2 Hb Hc Hex Hsp Hw Hck Ht Hl Hcb.
    unfold eventKept, sameSession, touchedAt, after in *. rewrite Hb. wsimpl.
    destruct Hs1 as (? & ? & ? & ? & ? & ? & ? & ?).
    split; [split_and!; congruence|].
    exists (touchEffects w ++ extra). split_and!.
    - by rewrite Ht, Ht1, (assoc_L (++)).
    - by rewrite life_app, life_touchEffects, Hl.
    - intros Ho. unfold callbacksIn in *. rewrite omap_app, (Hcb Ho), app_nil_r.
      unfold touchEffects. destruct (_ <=? 0); [done|].
      by destruct (idleTimer (bridge w)).
    - intros _ _. exact Hta1.
    - intros [?|?]; done. }
  assert (bridge w1 = set_reasonBuf (reasonBuf (bridge w1)) (bridge w1)) as Hsame.
  { by destruct w1 as [[]]. }
  repeat first [wp_step | wp_case].
  all: repeat match goal with
       | |- context [if ?b then with_trace _ _ else _] => destruct b eqn:?
       end.
  all: try (eapply (Hleaf _ []); wsimpl;
            first [exact Hsame | reflexivity | by rewrite app_nil_r | done]).
  all: try (eapply (Hleaf _ [_]); wsimpl; first [exact Hsame | reflexivity | done]).
  all: try (eapply (Hleaf _ [_; _]); wsimpl;
            first [exact Hsame | reflexivity | by rewrite <-(assoc_L (++)) | done]).
Qed.

Lemma readLine_returns (l : line) (w : World) : wp (readLine l) (λ _ _, True) w.
Proof.
  assert (∀ id raw w, wp (respond id raw) (λ _ _, True) w) as Hrespond.
  { intros id raw w0. unfold respond.
    destruct (raw !! "result"); [|destruct (raw !! "error"); [|done]].
    all: eapply wp_mono; [apply deliver_spec|done]. }
  unfold readLine. destruct l as [| |raw]; try done.
  destruct (decide _).
  - destruct (raw !! "id") as [[| |v|v| |]|]; try done.
    destruct (parseID v); [apply Hrespond|done].
  - eapply wp_mono; [apply handleNotify_spec|done].
Qed.

(** The reader never panics: it gets through any lines. *)
Lemma readLoop_returns (lines : list (time.Duration * line)) (w : World) :
  ∃ w', readLoop lines w = Returns tt w'.
Proof.
  revert w. induction lines as [|[d l] lines IH]; intros w; [by eexists|].
  cbn [readLoop]. unfold mbind, M_bind, sleep.
  pose proof (readLine_returns l (with_clock (clock w + d) w)) as H.
  unfold wp in H. destruct (readLine l _) as [[] w1|]; [|done]. apply IH.
Qed.

Lemma Seconds_exact (T : Z) :
  0 ≤ T → T * time.Second < 2 ^ 63 → time.Seconds T = T * time.Second.
Proof.
  intros H0 H1. unfold time.Seconds, wrap64, time.Second in *.
  rewrite Z.mod_small; lia.
Qed.

End events.

(** C8.  A [codex/event] notification whose embedded request id has no
    registered owner is dropped: the reader handles the line without
    error, no streaming, reasoning or end callback is called, the pending
    table, the owners and the response channels are as before, and the
    reader goes on with the lines that follow, all of which it handles. *)
Theorem unowned_event_is_dropped
    (raw : gmap string json) (d : time.Duration)
    (rest : list (time.Duration * mcp.line)) (w : mcp.World) :
  mcp.isEvent raw →
  mcp.unowned (mcp.bridge w) raw →
  ∃ w1 new,
    (mcp.sleep d;; mcp.readLine (mcp.Object raw)) w = mcp.Returns tt w1 ∧
    mcp.after w new w1 ∧ mcp.callbacksIn new = [] ∧
    mcp.pending (mcp.bridge w1) = mcp.pending (mcp.bridge w) ∧
    mcp.owners (mcp.bridge w1) = mcp.owners (mcp.bridge w) ∧
    mcp.chans w1 = mcp.chans w ∧
    mcp.readLoop ((d, mcp.Object raw) :: rest) w = mcp.readLoop rest w1 ∧
    ∃ w2, mcp.readLoop rest w1 = mcp.Returns tt w2.
Proof.
  unfold mcp.isEvent. intros Hm Hun.
  pose proof (handleNotify_spec raw (mcp.with_clock (mcp.clock w + d) w)) as H.
  apply wp_returns in H as ([] & w1 & Hrun & Hk & new & Hnew & _ & Hcb & _).
  assert (mcp.readLine (mcp.Object raw) (mcp.with_clock (mcp.clock w + d) w)
          = mcp.Returns tt w1) as Hline.
  { unfold mcp.readLine. rewrite Hm. by destruct (decide _). }
  destruct Hk as (_ & Hp & Ho & _ & Hc & _).
  assert ((mcp.sleep d;; mcp.readLine (mcp.Object raw)) w = mcp.Returns tt w1) as Hgo.
  { unfold mbind, mcp.M_bind, mcp.sleep. cbv beta iota. by rewrite Hline. }
  assert (mcp.readLoop ((d, mcp.Object raw) :: rest) w = mcp.readLoop rest w1) as Hon.
  { cbn [mcp.readLoop]. unfold mbind, mcp.M_bind, mcp.sleep. cbv beta iota.
    by rewrite Hline. }
  assert (mcp.callbacksIn new = []) as Hnone by (by apply Hcb, ownerOf_unowned).
  exists w1, new. split_and!; try done. apply readLoop_returns.
Qed.

Lemma unowned_event_witness :
  mcp.isEvent scenario.strayDelta ∧
  mcp.unowned (mcp.bridge scenario.streaming) scenario.strayDelta ∧
  ∃ w1 new,
    (mcp.sleep 5;; mcp.readLine (mcp.Object scenario.strayDelta)) scenario.streaming
      = mcp.Returns tt w1 ∧
    mcp.after scenario.streaming new w1 ∧ mcp.callbacksIn new = [].
Proof.
  assert (mcp.isEvent scenario.strayDelta) as Hm by reflexivity.
  assert (mcp.unowned (mcp.bridge scenario.streaming) scenario.strayDelta) as Hun
    by (vm_compute; reflexivity).
  split; [exact Hm|]. split; [exact Hun|].
  destruct (unowned_event_is_dropped scenario.strayDelta 5 [] scenario.streaming Hm Hun)
    as (w1 & new & Hrun & Hnew & Hcb & _).
  exists w1, new. split; [exact Hrun|]. split; [exact Hnew|exact Hcb].
Defined.

(** The events of a request that has an owner do reach the callbacks, in
    their order: the specification's "Hel", "lo", "Hello". *)
Example owned_events_reach_the_callbacks :
  let w := scenario.streaming in
  let w' := scenario.left
              (mcp.readLoop
                 [(1, mcp.Object (scenario.event 2 (scenario.delta "Hel")));
                  (1, mcp.Object (scenario.event 2 (scenario.delta "lo")));
                  (1, mcp.Object (scenario.event 2 (scenario.final "Hello")))]) w in
  mcp.callbacksIn (drop (length (mcp.trace w)) (mcp.trace w')) =
    [mcp.AgentDelta "C" 2 "Hel"; mcp.AgentDelta "C" 2 "lo";
     mcp.AgentDone "C" 2 "Hello"; mcp.ReasoningEnd "C"].
Proof. vm_compute. reflexivity. Qed.

(** ** Idle supervision *)

Section idle.
Import mcp.

(** [start] ends with [touchActivity]: a start that succeeds leaves the
    idle state of activity at the instant it returns; one that fails
    leaves the bridge as it was. *)
Lemma start_touched (env : Env) (ch : config.Channel) (w : World) :
  wp (start env ch) (λ e w',
    opts (bridge w') = opts (bridge w) ∧
    match e with
    | None => touchedAt (clock w') w'
    | Some _ => bridge w' = bridge w
    end) w.
Proof.
  unfold start. wp_run.
  destruct (startError env (spawned w)) as [s|]; wp_run; [done|].
  eapply wp_mono; [by eapply request_spec|]. cbv beta.
  intros r1 w1 (Hs1 & _).
  unfold sameSession in Hs1. wsimpl. destruct Hs1 as (Ho & _ & Hi & _).
  wp_run. eapply wp_mono; [eapply notify_spec; by rewrite Hi|]. cbv beta.
  intros _ w2 (Hb2 & _). wp_run.
  eapply wp_mono; [apply touchActivity_spec|]. cbv beta.
  intros _ w3 (Hs3 & _ & _ & _ & _ & _ & Hck & _ & Hta & _). wp_run.
  destruct Hs3 as (Ho3 & _). rewrite <-Hck in Hta.
  destruct (onUp (opts (bridge w2))); wsimpl; split; try done; congruence.
Qed.

End idle.

(** C5 (as amended).  With idle threshold [T] > 0 (and [T] seconds within
    the range of a duration): [touchActivity] records the activity time,
    stops the armed timer and arms one for now + [T].  It is called at
    the end of a [start] that succeeds, at the beginning of every chat
    turn, before the [tools/call] of the turn is written, again when the
    result of the turn has arrived, and for every [codex/event]
    notification that carries a [msg] object.  Any other notification,
    and a [codex/event] without [msg], changes nothing; neither does
    [request] or [requestForChannel] by itself reset the timer.  The
    timer's handler compares the time elapsed since the last recorded
    activity with [T] and invokes [Close] exactly when at least [T] has
    elapsed, so that activity before expiry opens a fresh window of
    length [T]. *)
Theorem idle_timer_follows_latest_activity
    (env : mcp.Env) (w : mcp.World) (T : Z) :
  mcp.idleSeconds (mcp.opts (mcp.bridge w)) = T →
  0 < T → T * time.Second < 2 ^ 63 →
  let rearm (w : mcp.World) :=
    match mcp.idleTimer (mcp.bridge w) with
    | Some d => [mcp.TimerStopped d]
    | None => []
    end ++ [mcp.TimerArmed (mcp.clock w + T * time.Second)] in
  let kept (w' : mcp.World) :=
    mcp.lastActive (mcp.bridge w') = mcp.lastActive (mcp.bridge w) ∧
    mcp.idleTimer (mcp.bridge w') = mcp.idleTimer (mcp.bridge w) in
  (∃ w', mcp.touchActivity w = mcp.Returns tt w' ∧
         mcp.lastActive (mcp.bridge w') = mcp.clock w ∧
         mcp.idleTimer (mcp.bridge w') = Some (mcp.clock w + T * time.Second) ∧
         mcp.after w (rearm w) w') ∧
  mcp.idleExpired env T w =
    (if mcp.clock w - mcp.lastActive (mcp.bridge w) <? T * time.Second
     then mcp.Returns tt w else mcp.Close env w) ∧
  (∀ raw, mcp.isEvent raw → is_Some (mcp.msgOf raw) →
     ∃ w', mcp.handleNotify raw w = mcp.Returns tt w' ∧
           mcp.lastActive (mcp.bridge w') = mcp.clock w ∧
           mcp.idleTimer (mcp.bridge w') = Some (mcp.clock w + T * time.Second)) ∧
  (∀ raw, ¬ mcp.isEvent raw ∨ mcp.msgOf raw = None →
     mcp.handleNotify raw w = mcp.Returns tt w) ∧
  (∀ ch, ∃ e w',
     mcp.start env ch w = mcp.Returns e w' ∧
     match e with
     | None =>
         mcp.lastActive (mcp.bridge w') = mcp.clock w' ∧
         mcp.idleTimer (mcp.bridge w') = Some (mcp.clock w' + T * time.Second)
     | Some _ => kept w'
     end) ∧
  (∀ method p owner pipe, mcp.stdin (mcp.bridge w) = Some pipe →
     (∃ r w', mcp.request env method p w = mcp.Returns r w' ∧ kept w') ∧
     (∃ r w', mcp.requestForChannel env method p owner w = mcp.Returns r w' ∧ kept w')) ∧
  (∀ ctx ch prompt w1, mcp.consistent w →
     mcp.ensureStarted env ch w = mcp.Returns None w1 →
     ∃ r w' first rest,
       mcp.ChatMulti env ctx ch prompt w = mcp.Returns r w' ∧
       mcp.after w1 (rearm w1 ++ first :: rest) w' ∧
       mcp.callOf first ≠ None ∧
       (∀ res, r = mcp.Ok res →
          mcp.lastActive (mcp.bridge w') = mcp.clock w' ∧
          mcp.idleTimer (mcp.bridge w') = Some (mcp.clock w' + T * time.Second))).
Proof.
  intros HT Hpos Hsmall rearm kept.
  pose proof (Seconds_exact T ltac:(lia) Hsmall) as Hsec.
  assert (∀ w0, mcp.opts (mcp.bridge w0) = mcp.opts (mcp.bridge w) →
            mcp.touchEffects w0 = rearm w0) as Heff.
  { intros w0 Ho. unfold mcp.touchEffects, rearm. rewrite Ho, HT, Hsec.
    by destruct (Z.leb_spec T 0); [lia|]. }
  assert (∀ t w', mcp.opts (mcp.bridge w') = mcp.opts (mcp.bridge w) →
            mcp.touchedAt t w' →
            mcp.lastActive (mcp.bridge w') = t ∧
            mcp.idleTimer (mcp.bridge w') = Some (t + T * time.Second)) as Htouched.
  { intros t w' Ho Hta. unfold mcp.touchedAt in Hta. rewrite Ho, HT, Hsec in Hta.
    by apply Hta. }
  split_and!.
  - pose proof (touchActivity_spec w) as H.
    apply wp_returns in H as ([] & w' & Hrun & Hs & _ & _ & _ & _ & _ & _ & Hnew & Hta & _).
    destruct Hs as (Ho & _). destruct (Htouched _ _ Ho Hta) as [Hla Hti].
    exists w'. rewrite <-(Heff w eq_refl). by split_and!.
  - unfold mcp.idleExpired, mbind, mcp.M_bind, mcp.get, mcp.now. rewrite HT, Hsec.
    destruct (Z.leb_spec T 0); [lia|]. by destruct (_ <? _).
  - intros raw Hev Hmsg. pose proof (handleNotify_spec raw w) as H.
    apply wp_returns in H as ([] & w' & Hrun & Hk & new & _ & _ & _ & Hta & _).
    destruct Hk as ((Ho & _) & _). specialize (Hta Hev Hmsg).
    destruct (Htouched _ _ Ho Hta) as [Hla Hti]. by exists w'.
  - intros raw Hraw. pose proof (handleNotify_spec raw w) as H.
    apply wp_returns in H as ([] & w' & Hrun & _ & new & _ & _ & _ & _ & Hsame).
    rewrite Hrun. f_equal. by apply Hsame.
  - intros ch. pose proof (start_touched env ch w) as H.
    apply wp_returns in H as (e & w' & Hrun & Ho & H).
    exists e, w'. split; [done|]. destruct e as [err|].
    + unfold kept. by rewrite H.
    + by apply Htouched.
  - intros method p owner pipe Hin. split.
    + pose proof (request_spec env method p w pipe Hin) as H.
      apply wp_returns in H as (r & w' & Hrun & _ & _ & _ & Hti & Hla & _).
      by exists r, w'.
    + pose proof (requestForChannel_spec env method p owner w pipe Hin) as H.
      apply wp_returns in H as (r & w' & Hrun & _ & _ & _ & Hti & Hla & _).
      by exists r, w'.
  - intros ctx ch prompt w1 Hc He.
    destruct (ensureStarted_session env ch w w1 Hc He) as (p1 & Hin & Hcmd & Ho & _).
    pose proof (turn_spec env ctx ch prompt w1 p1 Hin Hcmd) as H.
    apply wp_returns in H as (r & w' & Hrun & Ho' & _ & _ & Hta & rest & Hnew & _).
    rewrite (Heff w1 Ho) in Hnew. eexists r, w', _, rest.
    rewrite (ChatMulti_started _ _ _ _ _ _ He).
    split; [done|]. split; [exact Hnew|]. split.
    { unfold mcp.attemptEffect. destruct (mcp.writeError env _); cbn; by case_decide. }
    intros res Hr. apply Htouched; [congruence|]. by apply (Hta res).
Qed.

Lemma idle_timer_witness :
  mcp.idleSeconds (mcp.opts (mcp.bridge scenario.later)) = 600 ∧
  0 < 600 ∧ 600 * time.Second < 2 ^ 63 ∧
  ∃ w', mcp.touchActivity scenario.later = mcp.Returns tt w' ∧
        mcp.lastActive (mcp.bridge w') = mcp.clock scenario.later ∧
        mcp.idleTimer (mcp.bridge w')
        = Some (mcp.clock scenario.later + 600 * time.Second).
Proof.
  assert (mcp.idleSeconds (mcp.opts (mcp.bridge scenario.later)) = 600) as HT
    by reflexivity.
  assert (0 < 600) as Hpos by lia.
  assert (600 * time.Second < 2 ^ 63) as Hsmall by (vm_compute; reflexivity).
  split; [exact HT|]. split; [exact Hpos|]. split; [exact Hsmall|].
  destruct (idle_timer_follows_latest_activity scenario.healthy scenario.later 600
              HT Hpos Hsmall) as ((w' & Hrun & Hla & Hti & _) & _).
  exists w'. split; [exact Hrun|]. split; [exact Hla|exact Hti].
Defined.

(** C5, as stated, fails on "every notification received": a notification
    whose method is not [codex/event] is returned from before
    [touchActivity] is reached, and leaves the recorded activity time and
    the timer as they were. *)
Lemma other_notification_does_not_reset_the_timer :
  mcp.idleSeconds (mcp.opts (mcp.bridge scenario.later)) = 600 ∧
  mcp.handleNotify scenario.progress scenario.later = mcp.Returns tt scenario.later ∧
  mcp.clock scenario.later = 30 * time.Second ∧
  mcp.lastActive (mcp.bridge scenario.later) = 5 * time.Millisecond ∧
  mcp.idleTimer (mcp.bridge scenario.later)
  = Some (5 * time.Millisecond + 600 * time.Second).
Proof. split_and!; vm_compute; reflexivity. Qed.

(** ** The tail transport: discovery of the session file *)

Section discovery.
Import tail.

Lemma skipped_false (e : DirEntry) :
  skipped e = false →
  walkErr e = false ∧ isDir e = false ∧ infoErr e = false ∧
  strings.HasSuffix (strings.ToLower (name e)) ".jsonl" = true.
Proof.
  unfold skipped. destruct (walkErr e), (isDir e), (strings.HasSuffix _ _); cbn; auto;
    discriminate.
Qed.

(** One visit keeps the pair or replaces it by a qualifying file. *)
Lemma visit_cases (before : gmap string Z) (since : Z) (acc : string * Z) (e : DirEntry) :
  visit before since acc e = acc ∨
  (visit before since acc e = (path e, modTime e) ∧ qualifies before since e).
Proof.
  unfold visit, qualifies.
  destruct (skipped e) eqn:Hs; [auto|]. apply skipped_false in Hs as (? & ? & ? & ?).
  destruct (Z.ltb_spec (modTime e) (since - 2 * time.Second)); [auto|].
  destruct (before !! path e) as [bt|] eqn:Hb.
  - destruct (Z.ltb_spec bt (modTime e)); cbn [negb]; [|auto].
    destruct (_ <? _); [|auto]. right. by split_and!.
  - destruct (_ <? _); [|auto]. right. by split_and!.
Qed.

Lemma walk_from (before : gmap string Z) (since : Z) (entries : list DirEntry) :
  ∀ acc, foldl (visit before since) acc entries = acc ∨
    ∃ e, e ∈ entries ∧ qualifies before since e ∧
         foldl (visit before since) acc entries = (path e, modTime e).
Proof.
  induction entries as [|e entries IH]; intros acc; cbn [foldl]; [auto|].
  destruct (IH (visit before since acc e)) as [->|(e' & Hin & Hq & ->)].
  - destruct (visit_cases before since acc e) as [->|[-> Hq]]; [auto|].
    right. exists e. split_and!; [left|done..].
  - right. exists e'. split_and!; [by right|done..].
Qed.

(** A candidate of a walk is a file of the listing that qualifies. *)
Lemma walk_candidate (before : gmap string Z) (since : Z) (entries : list DirEntry) :
  (walk before since entries).1 ≠ "" →
  ∃ e, e ∈ entries ∧ qualifies before since e ∧
       (walk before since entries).1 = path e.
Proof.
  unfold walk. destruct (walk_from before since entries ("", 0)) as [->|(e & ? & ? & ->)];
    [done|eauto].
Qed.

Lemma walk_nothing (before : gmap string Z) (since : Z) (entries : list DirEntry) :
  (∀ e, e ∈ entries → ¬ qualifies before since e) →
  (walk before since entries).1 = "".
Proof.
  intros Hno. unfold walk.
  destruct (walk_from before since entries ("", 0)) as [->|(e & Hin & Hq & _)]; [done|].
  by destruct (Hno e Hin).
Qed.

(** A returned path was seen, qualifying, by a walk before the deadline. *)
Lemma poll_sound (dir : Dir) (root : string) (before : gmap string Z)
    (since deadline : Z) (p : string) (fuel : nat) : ∀ t,
  poll fuel dir root before since deadline t = Some (Ok p) →
  ∃ t' e, t' < deadline ∧ e ∈ listing dir t' ∧ path e = p ∧
          qualifies before since e.
Proof.
  induction fuel as [|fuel IH]; intros t; cbn [poll]; [done|].
  destruct (Z.ltb_spec t deadline); [|done].
  destruct (decide _) as [|Hne]; [apply IH|].
  intros [= <-]. destruct (walk_candidate _ _ _ Hne) as (e & ? & ? & ?).
  by exists t, e.
Qed.

(** With the loop sleeping 300ms a round, the fuel that [rounds] provides
    is never used up. *)
Lemma poll_returns (dir : Dir) (root : string) (before : gmap string Z)
    (since deadline : Z) (fuel : nat) : ∀ t,
  (∀ t, 0 ≤ lag dir t) →
  (1 ≤ fuel)%nat →
  deadline - t ≤ (Z.of_nat fuel - 1) * (300 * time.Millisecond) →
  is_Some (poll fuel dir root before since deadline t).
Proof.
  unfold time.Millisecond.
  induction fuel as [|fuel IH]; intros t Hlag H1 Hfuel; cbn [poll]; [lia|].
  destruct (Z.ltb_spec t deadline); [|by eexists].
  destruct (decide _); [|by eexists].
  specialize (Hlag t) as Hl. unfold time.Millisecond. apply IH; [done|lia|lia].
Qed.

Lemma poll_nothing (dir : Dir) (root : string) (before : gmap string Z)
    (since deadline : Z) (fuel : nat) : ∀ t,
  (∀ t e, e ∈ listing dir t → ¬ qualifies before since e) →
  is_Some (poll fuel dir root before since deadline t) →
  poll fuel dir root before since deadline t = Some (Err (SessionNotFound root)).
Proof.
  induction fuel as [|fuel IH]; intros t Hno; cbn [poll]; [by intros []|].
  destruct (Z.ltb_spec t deadline); [|done].
  rewrite walk_nothing by eauto. destruct (decide _); [|done]. by apply IH.
Qed.

(** Only the walks count, and they are made between the start of the
    loop and its deadline. *)
Lemma poll_sound_from (dir : Dir) (root : string) (before : gmap string Z)
    (since deadline : Z) (p : string) (fuel : nat) : ∀ t,
  (∀ t, 0 ≤ lag dir t) →
  poll fuel dir root before since deadline t = Some (Ok p) →
  ∃ t' e, t ≤ t' < deadline ∧ e ∈ listing dir t' ∧ path e = p ∧
          qualifies before since e.
Proof.
  unfold time.Millisecond.
  induction fuel as [|fuel IH]; intros t Hlag; cbn [poll]; [done|].
  destruct (Z.ltb_spec t deadline); [|done].
  destruct (decide _) as [Hnone|Hne].
  - intros (t' & e & ? & ?)%IH; [|done]. exists t', e. split; [|done].
    specialize (Hlag t). unfold time.Millisecond in *. lia.
  - intros [= <-]. destruct (walk_candidate _ _ _ Hne) as (e & ? & ? & ?).
    exists t, e. split; [lia|done].
Qed.

Lemma poll_nothing_before (dir : Dir) (root : string) (before : gmap string Z)
    (since deadline : Z) (fuel : nat) : ∀ t,
  (∀ t, 0 ≤ lag dir t) →
  (∀ t' e, t ≤ t' < deadline → e ∈ listing dir t' → ¬ qualifies before since e) →
  is_Some (poll fuel dir root before since deadline t) →
  poll fuel dir root before since deadline t = Some (Err (SessionNotFound root)).
Proof.
  induction fuel as [|fuel IH]; intros t Hlag Hno; cbn [poll]; [by intros []|].
  destruct (Z.ltb_spec t deadline); [|done].
  rewrite walk_nothing by (intros e0 He0; apply (Hno t); [lia|done]).
  destruct (decide _) as [Hnone|]; [|done]. apply IH; [done|].
  intros t' e' Ht'. apply Hno. specialize (Hlag t). unfold time.Millisecond in *. lia.
Qed.

Lemma rounds_enough (timeout : time.Duration) :
  (1 ≤ rounds timeout)%nat ∧
  timeout ≤ (Z.of_nat (rounds timeout) - 1) * (300 * time.Millisecond).
Proof.
  unfold rounds, time.Millisecond. split; [lia|].
  destruct (Z.le_gt_cases 0 timeout).
  - rewrite Nat2Z.inj_add, Z2Nat.id by (apply Z.div_pos; lia).
    pose proof (Z.mod_pos_bound timeout (300 * 1000000) ltac:(lia)).
    pose proof (Z.div_mod timeout (300 * 1000000) ltac:(lia)). lia.
  - lia.
Qed.


End discovery.

(** C6.  Discovery, given the baseline snapshot taken before the process
    is spawned, returns only a [.jsonl] file that a walk between the
    start and the deadline has seen new, or with a later modification
    time than its baseline entry, and modified no earlier than 2s before
    the process start; so a file unchanged from the baseline, or modified
    earlier than that, is never returned.  The loop ends within its
    timeout; if no qualifying file appears within the 20s of the timeout,
    whatever appears later, discovery fails with the session-not-found
    error, and [ensure] then kills the process it has spawned and
    registers no session. *)
Theorem discovery_returns_only_new_session_files
    (env : tail.Env) (b : tail.InteractiveTailBridge) (ch : config.Channel)
    (r : string) (t : Z) :
  let dir := tail.dir env in
  let before := tail.snapshotSessionFiles (tail.listing dir t) in
  let found := tail.waitNewSessionFileFromSnapshot dir r before t
                 (20 * time.Second) t in
  (∀ t, 0 ≤ tail.lag dir t) →
  tail.m b !! config.ChannelID ch = None →
  tail.root env = Some r → tail.startError env = None →
  is_Some found ∧
  (∀ p, found = Some (tail.Ok p) →
     (∃ t' e, t ≤ t' < t + 20 * time.Second ∧ e ∈ tail.listing dir t' ∧
              tail.path e = p ∧ tail.qualifies before t e) ∧
     ∃ ns, tail.ensure env b ch t
           = Some (tail.Ok ns,
                   {| tail.conf := tail.conf b;
                      tail.m := <[config.ChannelID ch := ns]> (tail.m b) |},
                   [tail.Spawned (tail.pid env); tail.Tailing p (tail.out ns)])) ∧
  ((∀ t' e, t ≤ t' < t + 20 * time.Second →
            e ∈ tail.listing dir t' → ¬ tail.qualifies before t e) →
     found = Some (tail.Err (tail.SessionNotFound r)) ∧
     tail.ensure env b ch t
     = Some (tail.Err (tail.SessionNotFound r), b,
             [tail.Spawned (tail.pid env); tail.Killed (tail.pid env)])).
Proof.
  intros dir before found Hlag Hnew Hroot Hstart.
  assert (is_Some found) as Hsome.
  { destruct (rounds_enough (20 * time.Second)). apply poll_returns; [done..|lia]. }
  split; [done|]. split.
  - intros p Hp. split; [by eapply poll_sound_from|].
    unfold tail.ensure. rewrite Hnew, Hroot, Hstart. fold dir before found.
    rewrite Hp. by eexists.
  - intros Hno.
    assert (found = Some (tail.Err (tail.SessionNotFound r))) as Hf
      by (by apply poll_nothing_before).
    split; [done|].
    unfold tail.ensure. rewrite Hnew, Hroot, Hstart. fold dir before found.
    by rewrite Hf.
Qed.

Lemma discovery_witness :
  let env := tailScenario.env tailScenario.sessions in
  let t := 100 * time.Second in
  (∀ t, 0 ≤ tail.lag (tail.dir env) t) ∧
  tail.m tailScenario.bridge !! config.ChannelID scenario.C = None ∧
  tail.root env = Some "/s" ∧ tail.startError env = None ∧
  ∃ ns, tail.ensure env tailScenario.bridge scenario.C t
        = Some (tail.Ok ns,
                {| tail.conf := scenario.conf; tail.m := {[ "C" := ns ]} |},
                [tail.Spawned 7; tail.Tailing "/s/2024/new.JSONL" (tail.out ns)]).
Proof.
  intros env t.
  assert (∀ t, 0 ≤ tail.lag (tail.dir env) t) as Hlag by (intros; reflexivity).
  split; [exact Hlag|]. split; [reflexivity|]. split; [reflexivity|].
  split; [reflexivity|].
  destruct (discovery_returns_only_new_session_files env tailScenario.bridge
              scenario.C "/s" t Hlag eq_refl eq_refl eq_refl) as (_ & Hfound & _).
  destruct (Hfound "/s/2024/new.JSONL") as (_ & ns & Hns).
  - vm_compute. reflexivity.
  - exists ns. exact Hns.
Defined.

(** When the agent writes no log, discovery gives up after its 20s and the
    process is killed. *)
Example discovery_gives_up :
  tail.ensure (tailScenario.env tailScenario.stale) tailScenario.bridge scenario.C
    (100 * time.Second)
  = Some (tail.Err (tail.SessionNotFound "/s"), tailScenario.bridge,
          [tail.Spawned 7; tail.Killed 7]).
Proof. vm_compute. reflexivity. Qed.

(** A log that the agent writes only after the 20s is not waited for. *)
Example discovery_misses_a_late_log :
  tail.ensure (tailScenario.env tailScenario.tardy) tailScenario.bridge scenario.C
    (100 * time.Second)
  = Some (tail.Err (tail.SessionNotFound "/s"), tailScenario.bridge,
          [tail.Spawned 7; tail.Killed 7]).
Proof. vm_compute. reflexivity. Qed.

(** ** The tail transport: collecting the reply *)

Section collecting.
Import tail.

Lemma lastAt_cons (a : Z) (e : Z * selected) (evs : list (Z * selected)) :
  lastAt a (e :: evs) = lastAt e.1 evs.
Proof. done. Qed.

Lemma idleAfter_cons (idleAt : Z) (e : Z * selected) (evs : list (Z * selected)) :
  idleAfter idleAt (e :: evs) = idleAfter (e.1 + idleGap) evs.
Proof.
  unfold idleAfter. destruct evs as [|e' evs]; [done|]. by rewrite !lastAt_cons.
Qed.

Lemma idleAfter_lastAt (t0 : Z) (evs : list (Z * selected)) :
  idleAfter (t0 + idleGap) evs = lastAt t0 evs + idleGap.
Proof.
  revert t0. induction evs as [|e evs IH]; intros t0; [done|].
  by rewrite idleAfter_cons, lastAt_cons, IH.
Qed.

(** As long as the loop is in its [select], what the cases taken so far
    leave is the latest message, the instant of the last case and the
    idle timer it reset. *)
Lemma collect_app (deadline : Z) (pre post : list (Z * selected)) :
  ∀ idleAt prev last,
  collect deadline idleAt prev last pre = Waiting →
  collect deadline idleAt prev last (pre ++ post) =
  collect deadline (idleAfter idleAt pre) (lastAt prev pre) (latest last pre) post.
Proof.
  induction pre as [|[t ev] pre IH]; intros idleAt prev last; [done|].
  cbn [collect app]. rewrite idleAfter_cons, lastAt_cons. cbn [fst].
  destruct (t <? prev); [done|].
  destruct ev as [| |msg|]; try done.
  - by destruct (t <? deadline).
  - apply IH.
  - destruct (t <? idleAt); [done|]. destruct (decide (last = "")); [|done].
    apply IH.
Qed.


End collecting.



(** * Further properties of the code *)

(** ** The library functions *)

Section strings_facts.
Import strings.

Lemma TrimLeft_cases (s : string) :
  TrimLeft s = "" ∨ ∃ c r, TrimLeft s = String c r ∧ isSpace c = false.
Proof.
  induction s as [|c s IH]; [by left|]. cbn [TrimLeft].
  destruct (isSpace c) eqn:Hc; [done|]. right. by exists c, s.
Qed.

Lemma TrimRight_cons (c : ascii) (r : string) :
  isSpace c = false → TrimRight (String c r) = String c (TrimRight r).
Proof. intros Hc. cbn [TrimRight]. destruct (TrimRight r); by rewrite ?Hc. Qed.

Lemma TrimRight_idem (s : string) : TrimRight (TrimRight s) = TrimRight s.
Proof.
  induction s as [|c s IH]; [done|]. cbn [TrimRight].
  destruct (TrimRight s) as [|c' r'] eqn:Hr.
  - destruct (isSpace c) eqn:Hc; [done|]. cbn. by rewrite Hc.
  - cbn [TrimRight]. cbn [TrimRight] in IH. by rewrite IH.
Qed.

(** A trimmed string stays as it is under [TrimSpace]. *)
Lemma TrimSpace_idem (s : string) : TrimSpace (TrimSpace s) = TrimSpace s.
Proof.
  unfold TrimSpace. destruct (TrimLeft_cases s) as [->|(c & r & -> & Hc)]; [done|].
  rewrite TrimRight_cons by done. cbn [TrimLeft]. rewrite Hc.
  by rewrite TrimRight_cons, TrimRight_idem.
Qed.

Lemma app_cons (c : ascii) (a b : string) : String c a +:+ b = String c (a +:+ b).
Proof. reflexivity. Qed.

Lemma length_app (a b : string) :
  String.length (a +:+ b) = (String.length a + String.length b)%nat.
Proof.
  induction a as [|c a IH]; [done|]. rewrite app_cons. cbn [String.length].
  by rewrite IH.
Qed.

Lemma app_empty_r (a : string) : a +:+ "" = a.
Proof. induction a as [|c a IH]; [done|]. by rewrite app_cons, IH. Qed.

Lemma app_assoc_s (a b c : string) : (a +:+ b) +:+ c = a +:+ (b +:+ c).
Proof. induction a as [|x a IH]; [done|]. by rewrite !app_cons, IH. Qed.

Lemma length_substring0 (k : nat) (s : string) :
  String.length (String.substring 0 k s) = (k `min` String.length s)%nat.
Proof.
  revert s. induction k as [|k IH]; intros [|c s]; cbn; try done. by rewrite IH.
Qed.

Lemma length_substring (i k : nat) (s : string) :
  (i + k ≤ String.length s)%nat → String.length (String.substring i k s) = k.
Proof.
  revert s. induction i as [|i IH]; intros s H.
  - rewrite length_substring0. lia.
  - destruct s as [|c s]; cbn in *; [lia|]. apply IH. lia.
Qed.

Lemma substring_all (s : string) : String.substring 0 (String.length s) s = s.
Proof. induction s as [|c s IH]; [done|]. cbn. by rewrite IH. Qed.

Lemma substring0_app (a b : nat) (s : string) :
  String.substring 0 (a + b) s = String.substring 0 a s +:+ String.substring a b s.
Proof.
  revert s. induction a as [|a IHa]; intros s; [by destruct s|].
  destruct s as [|c s]; [done|].
  change (String c (String.substring 0 (a + b) s)
          = String c (String.substring 0 a s) +:+ String.substring a b s).
  by rewrite app_cons, IHa.
Qed.

Lemma substring_app (i a b : nat) (s : string) :
  String.substring i (a + b) s
  = String.substring i a s +:+ String.substring (i + a) b s.
Proof.
  revert s. induction i as [|i IH]; intros s; [apply substring0_app|].
  destruct s as [|c s]; [done|]. apply IH.
Qed.

End strings_facts.

(** ** Request ids as text ([parseID], [%d]) and [truncate] *)

Section ids.

Lemma wrap64_small (z : Z) : - 2 ^ 63 ≤ z < 2 ^ 63 → wrap64 z = z.
Proof. intros H. unfold wrap64. rewrite Z.mod_small; lia. Qed.

Lemma digit_code (d : Z) :
  0 ≤ d < 10 → Z.of_nat (nat_of_ascii (fmt.digit d)) = 48 + d.
Proof.
  intros H. unfold fmt.digit. rewrite nat_ascii_embedding; lia.
Qed.

Lemma parseID_from_digit (n d : Z) (s : string) :
  0 ≤ d < 10 →
  parseID_from n (String (fmt.digit d) s) = parseID_from (wrap64 (n * 10 + d)) s.
Proof.
  intros H. cbn [parseID_from]. rewrite digit_code by done.
  destruct (Z.ltb_spec (48 + d) 48); [lia|].
  destruct (Z.ltb_spec 57 (48 + d)); [lia|]. cbn [orb].
  do 2 f_equal. lia.
Qed.

Lemma parseID_digits (fuel : nat) : ∀ (n : Z) (acc : string),
  0 ≤ n < 2 ^ 63 → n < 10 ^ Z.of_nat fuel →
  parseID_from 0 (fmt.digits fuel n acc) = parseID_from n acc.
Proof.
  induction fuel as [|fuel IH]; intros n acc Hn Hf.
  { cbn in Hf. by replace n with 0 by lia. }
  cbn [fmt.digits]. pose proof (Z.mod_pos_bound n 10 ltac:(lia)) as Hm.
  destruct (Z.ltb_spec n 10) as [Hlt|Hge].
  - rewrite parseID_from_digit by done. rewrite Z.mod_small by lia.
    by rewrite wrap64_small by lia.
  - rewrite IH.
    + rewrite parseID_from_digit by done.
      rewrite wrap64_small; [do 2 f_equal|]; pose proof (Z.div_mod n 10); lia.
    + split; [apply Z.div_pos; lia|]. apply Z.div_lt_upper_bound; lia.
    + apply Z.div_lt_upper_bound; [lia|].
      rewrite Nat2Z.inj_succ, Z.pow_succ_r in Hf; lia.
Qed.

Lemma parseID_from_None (s : string) : ∀ n,
  parseID_from n s = None ↔
  Exists (λ c, ¬ (48 ≤ nat_of_ascii c ≤ 57)%nat) (String.list_ascii_of_string s).
Proof.
  induction s as [|c s IH]; intros n; cbn [parseID_from String.list_ascii_of_string].
  { split; [done|]. by intros ?%Exists_nil. }
  rewrite Exists_cons.
  destruct (Z.ltb_spec (Z.of_nat (nat_of_ascii c)) 48);
    [split; [left; lia|done]|].
  destruct (Z.ltb_spec 57 (Z.of_nat (nat_of_ascii c)));
    [split; [left; lia|done]|].
  cbn [orb]. rewrite IH. split; [by right|]. intros [?|?]; [lia|done].
Qed.

End ids.

(** [parseID] takes back what [%d] prints of a request id: a response
    whose id comes as the decimal string of the id of the request is
    attributed to that request.  A negative number is no id. *)
Theorem parseID_of_decimal (n : Z) :
  - 2 ^ 63 ≤ n < 2 ^ 63 →
  parseID (fmt.decimal n) = if n <? 0 then None else Some n.
Proof.
  intros Hn. unfold parseID, fmt.decimal. destruct (Z.ltb_spec n 0).
  - reflexivity.
  - by rewrite parseID_digits by lia.
Qed.

Lemma parseID_of_decimal_witness :
  - 2 ^ 63 ≤ 9223372036854775807 < 2 ^ 63 ∧
  fmt.decimal 9223372036854775807 = "9223372036854775807" ∧
  parseID "9223372036854775807" = Some 9223372036854775807.
Proof.
  assert (- 2 ^ 63 ≤ 9223372036854775807 < 2 ^ 63) as H by lia.
  split; [exact H|]. split; [reflexivity|].
  exact (parseID_of_decimal 9223372036854775807 H).
Defined.

(** [parseID] reports an error exactly for a string with a byte that is
    not a decimal digit.  The empty string has none: it is the id 0. *)
Theorem parseID_fails_on_a_non_digit (s : string) :
  (parseID s = None ↔
   Exists (λ c, ¬ (48 ≤ nat_of_ascii c ≤ 57)%nat) (String.list_ascii_of_string s)) ∧
  parseID "" = Some 0.
Proof. split; [apply parseID_from_None|done]. Qed.

(** [truncate s n], for [n] that is not negative, is [s] when [s] has at
    most [n] bytes and has exactly [n] bytes otherwise; with more than
    three bytes allowed, the last three are then dots behind the first
    [n - 3] bytes of [s]. *)
Theorem truncate_length (s : string) (n : Z) :
  0 ≤ n →
  len (truncate s n) = Z.min (len s) n ∧
  (len s ≤ n → truncate s n = s) ∧
  (3 < n < len s →
   truncate s n = String.substring 0 (Z.to_nat (n - 3)) s +:+ "...").
Proof.
  intros Hn. unfold truncate, len.
  destruct (Z.leb_spec (Z.of_nat (String.length s)) n) as [Hfit|Hcut].
  { split_and!; [lia|done|lia]. }
  destruct (Z.leb_spec n 3).
  - rewrite length_substring0. split_and!; lia.
  - rewrite length_app, length_substring0. cbn [String.length].
    split_and!; [lia|lia|done].
Qed.

Lemma truncate_length_witness :
  0 ≤ 8 ∧ truncate "reasoning about it" 8 = "reaso..." ∧
  len (truncate "reasoning about it" 8) = 8.
Proof.
  assert (0 ≤ 8) as H by lia. split; [exact H|]. split; [reflexivity|].
  exact (proj1 (truncate_length "reasoning about it" 8 H)).
Defined.

(** ** The texts of a result *)

Section texts.
Import mcp codex.

Lemma size_lookup (obj : gmap string json) (k : string) (v : json) :
  obj !! k = Some v → (size v < size (JObj obj))%nat.
Proof.
  intros Hk. cbn [size].
  rewrite (map_fold_delete_L _ _ k v obj); [lia| |done].
  intros. lia.
Qed.

(** The equations of the two functions, as the source has them. *)
Lemma extractText_JObj (obj : gmap string json) :
  extractText (JObj obj) =
    match obj !! "message" with
    | Some (JStr s) => strings.TrimSpace s
    | _ =>
    match obj !! "content" with
    | Some (JStr s) => strings.TrimSpace s
    | _ =>
    match asArray (obj !! "messages") ≫= fromEnd pickMessage with
    | Some s => s
    | None =>
    match asArray (obj !! "content") ≫= fromEnd pickText with
    | Some s => s
    | None =>
        let under (k : string) : string :=
          match obj !! k with
          | Some (JObj _) => default "" ((extractText <$> obj) !! k)
          | _ => ""
          end in
        if decide (under "result" = "") then under "data" else under "result"
    end end end end.
Proof. reflexivity. Qed.

Lemma under_text (obj : gmap string json) (k : string) :
  match obj !! k with
  | Some (JObj _) => default "" ((extractText <$> obj) !! k)
  | _ => ""
  end
  = match asObject (obj !! k) with
    | Some res => extractTextFromResult res
    | None => ""
    end.
Proof.
  rewrite lookup_fmap. unfold extractTextFromResult.
  by destruct (obj !! k) as [[]|].
Qed.

Lemma extractText_unfold (obj : gmap string json) :
  extractTextFromResult obj =
    match obj !! "message" with
    | Some (JStr s) => strings.TrimSpace s
    | _ =>
    match obj !! "content" with
    | Some (JStr s) => strings.TrimSpace s
    | _ =>
    match asArray (obj !! "messages") ≫= fromEnd pickMessage with
    | Some s => s
    | None =>
    match asArray (obj !! "content") ≫= fromEnd pickText with
    | Some s => s
    | None =>
        let under (k : string) :=
          match asObject (obj !! k) with
          | Some res => extractTextFromResult res
          | None => ""
          end in
        if decide (under "result" = "") then under "data" else under "result"
    end end end end.
Proof.
  unfold extractTextFromResult at 1. rewrite extractText_JObj. cbv beta zeta.
  by rewrite !under_text.
Qed.

Lemma agentMessages_JObj (obj : gmap string json) :
  agentMessages (JObj obj) =
    let under (k : string) : list string :=
      match obj !! k with
      | Some (JObj _) => default [] ((agentMessages <$> obj) !! k)
      | _ => []
      end in
    match under "result" with
    | (_ :: _) as out => out
    | [] =>
        match under "data" with
        | (_ :: _) as out => out
        | [] => omap agentMessage (default [] (asArray (obj !! "messages")))
        end
    end.
Proof. reflexivity. Qed.

Lemma under_messages (obj : gmap string json) (k : string) :
  match obj !! k with
  | Some (JObj _) => default [] ((agentMessages <$> obj) !! k)
  | _ => []
  end
  = match asObject (obj !! k) with
    | Some res => extractAgentMessages res
    | None => []
    end.
Proof.
  rewrite lookup_fmap. unfold extractAgentMessages.
  by destruct (obj !! k) as [[]|].
Qed.

Lemma agentMessages_unfold (obj : gmap string json) :
  extractAgentMessages obj =
    let under (k : string) :=
      match asObject (obj !! k) with
      | Some res => extractAgentMessages res
      | None => []
      end in
    match under "result" with
    | (_ :: _) as out => out
    | [] =>
        match under "data" with
        | (_ :: _) as out => out
        | [] => omap agentMessage (default [] (asArray (obj !! "messages")))
        end
    end.
Proof.
  unfold extractAgentMessages at 1. rewrite agentMessages_JObj. cbv beta zeta.
  by rewrite !under_messages.
Qed.

Lemma fromEnd_Some (pick : gmap string json → option string) (arr : list json)
    (s : string) :
  fromEnd pick arr = Some s → ∃ m, JObj m ∈ arr ∧ pick m = Some s.
Proof.
  induction arr as [|v arr IH]; [done|]. cbn [fromEnd].
  destruct (fromEnd pick arr) as [s'|].
  - intros [= <-]. destruct IH as (m & ? & ?); [done|]. exists m. split; [by right|done].
  - destruct v as [| | | | |m]; try done. intros ?. exists m. split; [by left|done].
Qed.

Lemma pickMessage_trimmed (m : gmap string json) (s : string) :
  pickMessage m = Some s → trimmed s.
Proof.
  unfold pickMessage, trimmed.
  destruct (m !! "message") as [[]|], (m !! "content") as [[]|];
    intros [= <-]; apply TrimSpace_idem.
Qed.

Lemma pickText_trimmed (m : gmap string json) (s : string) :
  pickText m = Some s → trimmed s.
Proof.
  unfold pickText, trimmed.
  destruct (m !! "text") as [[]|]; intros [= <-]; apply TrimSpace_idem.
Qed.

Lemma fromEnd_trimmed (pick : gmap string json → option string)
    (v : option json) (s : string) :
  (∀ m s, pick m = Some s → trimmed s) →
  asArray v ≫= fromEnd pick = Some s → trimmed s.
Proof.
  intros Hpick. destruct (asArray v) as [arr|]; [|done]. cbn.
  intros (m & _ & Hs)%fromEnd_Some. by eapply Hpick.
Qed.

Lemma extractText_trimmed (n : nat) : ∀ obj : gmap string json,
  (size (JObj obj) < n)%nat → trimmed (extractTextFromResult obj).
Proof.
  induction n as [|n IH]; intros obj Hn; [lia|].
  assert (∀ k, trimmed match asObject (obj !! k) with
                       | Some res => extractTextFromResult res
                       | None => ""
                       end) as Hunder.
  { intros k. destruct (obj !! k) as [[| | | | |res]|] eqn:Hk; try done. cbn.
    apply IH. apply size_lookup in Hk. lia. }
  rewrite extractText_unfold. cbv beta zeta.
  pose proof (Hunder "result") as Hr. pose proof (Hunder "data") as Hd.
  destruct (asArray (obj !! "messages") ≫= fromEnd pickMessage) as [s1|] eqn:H1;
    [apply (fromEnd_trimmed _ _ _ pickMessage_trimmed) in H1|].
  all: destruct (asArray (obj !! "content") ≫= fromEnd pickText) as [s2|] eqn:H2;
    [apply (fromEnd_trimmed _ _ _ pickText_trimmed) in H2|].
  all: destruct (obj !! "message") as [[| | |s| |]|]; try apply TrimSpace_idem.
  all: destruct (obj !! "content") as [[| | |s'| |]|]; try apply TrimSpace_idem.
  all: try done.
  all: by case_decide.
Qed.

Lemma TrimSpace_trimmed (s : string) : trimmed (strings.TrimSpace s).
Proof. apply TrimSpace_idem. Qed.

Lemma agentMessage_ok (it : json) (s : string) :
  agentMessage it = Some s → s ≠ "" ∧ trimmed s.
Proof.
  unfold agentMessage. destruct it as [| | | | |m]; try done.
  repeat case_decide; try done.
  - destruct (m !! "content") as [[| | | |parts|]|]; try done.
    case_decide; [done|]. intros [= <-]. split; [done|apply TrimSpace_trimmed].
  - intros [= <-]. split; [done|apply TrimSpace_trimmed].
  - intros [= <-]. split; [done|apply TrimSpace_trimmed].
Qed.

Lemma agentMessages_ok (n : nat) : ∀ obj : gmap string json,
  (size (JObj obj) < n)%nat →
  Forall (λ s, s ≠ "" ∧ trimmed s) (extractAgentMessages obj).
Proof.
  induction n as [|n IH]; intros obj Hn; [lia|].
  assert (∀ k, Forall (λ s, s ≠ "" ∧ trimmed s)
                 match asObject (obj !! k) with
                 | Some res => extractAgentMessages res
                 | None => []
                 end) as Hunder.
  { intros k. destruct (obj !! k) as [[| | | | |res]|] eqn:Hk; try done. cbn.
    apply IH. apply size_lookup in Hk. lia. }
  rewrite agentMessages_unfold. cbv beta zeta.
  pose proof (Hunder "result") as Hr. pose proof (Hunder "data") as Hd.
  destruct (match asObject (obj !! "result") with
            | Some res => extractAgentMessages res
            | None => []
            end); [|exact Hr].
  destruct (match asObject (obj !! "data") with
            | Some res => extractAgentMessages res
            | None => []
            end); [|exact Hd].
  apply Forall_forall. intros s (it & _ & Hs)%list_elem_of_omap.
  by eapply agentMessage_ok.
Qed.

Lemma replies_ok (o : Options) (res : json) (text : string) :
  Forall (λ s, s ≠ "" ∧ trimmed s) (replies o res text).
Proof.
  assert (Forall (λ s, s ≠ "" ∧ trimmed s)
            (let s := strings.TrimSpace text in if decide (s = "") then [] else [s]))
    as Hwhole.
  { cbv zeta. case_decide; [done|]. repeat constructor; [done|apply TrimSpace_trimmed]. }
  assert (∀ obj, Forall (λ s, s ≠ "" ∧ trimmed s)
            (if onAgentDelta o || onAgentDone o then []
             else match extractAgentMessages obj with
                  | (_ :: _) as arr => arr
                  | [] =>
                      let msg := extractTextFromResult obj in
                      if decide (msg = "")
                      then let s := strings.TrimSpace text in
                           if decide (s = "") then [] else [s]
                      else [msg]
                  end)) as Hobj.
  { intros obj. destruct (_ || _); [done|].
    pose proof (agentMessages_ok _ obj (Nat.lt_succ_diag_r _)) as Ha.
    destruct (extractAgentMessages obj); [|done]. cbv zeta.
    case_decide; [done|]. repeat constructor; [done|].
    apply (extractText_trimmed _ obj (Nat.lt_succ_diag_r _)). }
  unfold replies. destruct res; try done; apply Hobj.
Qed.

Lemma Join_nonempty (msgs : list string) (sep : string) :
  msgs ≠ [] → Forall (λ s, s ≠ "") msgs → strings.Join msgs sep ≠ "".
Proof.
  destruct msgs as [|a rest]; [done|]. intros _ [Ha _]%Forall_cons.
  cbn [strings.Join]. destruct rest; [done|]. by destruct a.
Qed.

End texts.

(** [extractTextFromResult] returns a trimmed string, whatever the nesting
    of the object, and the empty string for an object that has none of the
    keys it looks under. *)
Theorem extractTextFromResult_trimmed (obj : gmap string json) :
  strings.TrimSpace (codex.extractTextFromResult obj)
  = codex.extractTextFromResult obj ∧
  (obj !! "message" = None → obj !! "content" = None →
   obj !! "messages" = None → obj !! "result" = None → obj !! "data" = None →
   codex.extractTextFromResult obj = "").
Proof.
  split; [apply (extractText_trimmed _ obj (Nat.lt_succ_diag_r _))|].
  intros H1 H2 H3 H4 H5. rewrite extractText_unfold. cbv beta zeta.
  by rewrite H1, H2, H3, H4, H5.
Qed.

(** [extractAgentMessages] returns no empty message and no message with
    white space around it. *)
Theorem extractAgentMessages_nonempty_trimmed (obj : gmap string json) :
  Forall (λ s, s ≠ "" ∧ strings.TrimSpace s = s) (codex.extractAgentMessages obj).
Proof. apply (agentMessages_ok _ obj (Nat.lt_succ_diag_r _)). Qed.

Lemma extractTextFromResult_witness :
  let obj : gmap string json := {[ "conversationId" := JStr "abc123" ]} in
  obj !! "message" = None ∧ codex.extractTextFromResult obj = "".
Proof.
  intros obj. split; [reflexivity|].
  exact (proj2 (extractTextFromResult_trimmed obj) eq_refl eq_refl eq_refl eq_refl eq_refl).
Defined.

(** Every message that [ChatMulti] returns is non-empty and has no white
    space around it, whatever the agent answered: a list of agent
    messages, a text, or a value that is returned as its JSON text. *)
Theorem ChatMulti_messages_nonempty_trimmed
    (marshal : json → string) (env : mcp.Env) (ctx : mcp.Context)
    (ch : config.Channel) (prompt : string) (w w' : mcp.World) (msgs : list string) :
  codex.ChatMultiMessages marshal env ctx ch prompt w = mcp.Returns (mcp.Ok msgs) w' →
  Forall (λ s, s ≠ "" ∧ strings.TrimSpace s = s) msgs.
Proof.
  unfold codex.ChatMultiMessages, mbind, mcp.M_bind.
  destruct (mcp.ChatMulti env ctx ch prompt w) as [[res|e] w1|]; [|done..].
  cbn. intros [= <- _]. apply replies_ok.
Qed.

Lemma ChatMulti_messages_witness :
  ∃ w',
    codex.ChatMultiMessages (λ _, "{}") scenario.healthy scenario.anonymous
      scenario.C "list files" scenario.fresh
    = mcp.Returns (mcp.Ok ["a.txt b.txt"]) w' ∧
    Forall (λ s, s ≠ "" ∧ strings.TrimSpace s = s) ["a.txt b.txt"].
Proof.
  eexists. 
  assert (codex.ChatMultiMessages (λ _, "{}") scenario.healthy scenario.anonymous
            scenario.C "list files" scenario.fresh
          = mcp.Returns (mcp.Ok ["a.txt b.txt"])
              (scenario.left (mcp.ChatMulti scenario.healthy scenario.anonymous
                                scenario.C "list files") scenario.fresh)) as Hrun
    by (vm_compute; reflexivity).
  split; [exact Hrun|].
  exact (ChatMulti_messages_nonempty_trimmed _ _ _ _ _ _ _ _ Hrun).
Defined.

(** With a stream handler registered, [ChatMulti] returns no message for a
    result that is an object: the texts have gone through the callbacks.
    The handlers stay registered through the whole turn, restart
    included. *)
Theorem ChatMulti_streaming_returns_no_message
    (marshal : json → string) (env : mcp.Env) (ctx : mcp.Context)
    (ch : config.Channel) (prompt : string) (w w' : mcp.World)
    (obj : gmap string json) :
  mcp.consistent w →
  mcp.onAgentDelta (mcp.opts (mcp.bridge w)) || mcp.onAgentDone (mcp.opts (mcp.bridge w))
  = true →
  mcp.ChatMulti env ctx ch prompt w = mcp.Returns (mcp.Ok (JObj obj)) w' →
  codex.ChatMultiMessages marshal env ctx ch prompt w = mcp.Returns (mcp.Ok []) w'.
Proof.
  intros Hc Hon Hrun.
  pose proof (ChatMulti_chatted env ctx ch prompt w Hc) as H.
  unfold mcp.wp in H. rewrite Hrun in H. destruct H as (_ & Ho & _).
  unfold codex.ChatMultiMessages, mbind, mcp.M_bind. rewrite Hrun.
  unfold mcp.get, mret, mcp.M_ret. unfold codex.replies. by rewrite Ho, Hon.
Qed.

Lemma ChatMulti_streaming_witness :
  let w := mcp.boot (mcp.WithHandlers (mcp.NewMCPBridge scenario.conf false)) 0 in
  mcp.consistent w ∧
  codex.ChatMultiMessages (λ _, "{}") scenario.healthy scenario.alice scenario.C
    "list files" w
  = mcp.Returns (mcp.Ok []) scenario.streaming.
Proof.
  intros w.
  assert (mcp.consistent w) as Hc by (intros Hr; discriminate Hr).
  split; [exact Hc|].
  refine (ChatMulti_streaming_returns_no_message _ scenario.healthy scenario.alice
            scenario.C "list files" w scenario.streaming
            {[ "conversationId" := JStr "abc123"; "content" := JStr "a.txt b.txt" ]}
            Hc eq_refl _).
  vm_compute. reflexivity.
Defined.

(** [Chat] returns the empty string exactly when [ChatMulti] returned no
    message, and otherwise the messages joined by blank lines. *)
Theorem Chat_joins_the_messages
    (marshal : json → string) (env : mcp.Env) (ctx : mcp.Context)
    (ch : config.Channel) (prompt : string) (w w' : mcp.World) (s : string) :
  codex.Chat marshal env ctx ch prompt w = mcp.Returns (mcp.Ok s) w' →
  ∃ msgs,
    codex.ChatMultiMessages marshal env ctx ch prompt w = mcp.Returns (mcp.Ok msgs) w' ∧
    s = strings.Join msgs (mcp.nl +:+ mcp.nl) ∧
    (s = "" ↔ msgs = []).
Proof.
  unfold codex.Chat, mbind, mcp.M_bind.
  destruct (codex.ChatMultiMessages marshal env ctx ch prompt w)
    as [[msgs|e] w1|] eqn:Hrun; [|done..].
  pose proof (replies_ok) as Hok.
  assert (Forall (λ s, s ≠ "") msgs) as Hne.
  { unfold codex.ChatMultiMessages, mbind, mcp.M_bind in Hrun.
    destruct (mcp.ChatMulti env ctx ch prompt w) as [[res|e] w2|]; [|done..].
    cbn in Hrun. injection Hrun as <- _.
    eapply Forall_impl; [apply replies_ok|]. by intros ? [? _]. }
  destruct msgs as [|a rest].
  - intros [= <- <-]. by exists [].
  - intros Heq.
    assert (s = strings.Join (a :: rest) (mcp.nl +:+ mcp.nl) ∧ w1 = w') as [-> ->]
      by (by injection Heq).
    exists (a :: rest). split_and!; [done..|].
    split; [|done]. intros Hs. by apply Join_nonempty in Hs.
Qed.

Lemma Chat_witness :
  ∃ w',
    codex.Chat (λ _, "{}") scenario.healthy scenario.anonymous scenario.C
      "list files" scenario.fresh
    = mcp.Returns (mcp.Ok "a.txt b.txt") w' ∧
    "a.txt b.txt" = strings.Join ["a.txt b.txt"] (mcp.nl +:+ mcp.nl).
Proof.
  eexists.
  assert (codex.Chat (λ _, "{}") scenario.healthy scenario.anonymous scenario.C
            "list files" scenario.fresh
          = mcp.Returns (mcp.Ok "a.txt b.txt")
              (scenario.left (mcp.ChatMulti scenario.healthy scenario.anonymous
                                scenario.C "list files") scenario.fresh)) as Hrun
    by (vm_compute; reflexivity).
  split; [exact Hrun|].
  destruct (Chat_joins_the_messages _ _ _ _ _ _ _ _ Hrun) as (msgs & Hm & Hs & _).
  reflexivity.
Defined.

(** ** The texts of the Discord front-end *)

Section discord_texts.
Import discordbot.

Lemma substring_none (i : nat) (s : string) : String.substring i 0 s = "".
Proof. revert s. induction i as [|i IH]; intros [|c s]; try done. apply IH. Qed.

Lemma chunksFrom_joined (s : string) (fuel : nat) : ∀ i : Z,
  0 ≤ i ≤ len s → len s - i ≤ Z.of_nat fuel * lim →
  joined (chunksFrom fuel s i)
  = String.substring (Z.to_nat i) (Z.to_nat (len s - i)) s.
Proof.
  unfold lim, len. induction fuel as [|fuel IH]; intros i Hi Hf.
  { cbn [chunksFrom joined foldr]. replace (Z.of_nat (String.length s) - i) with 0 by lia.
    by rewrite substring_none. }
  cbn [chunksFrom]. unfold len, lim.
  destruct (Z.ltb_spec i (Z.of_nat (String.length s))) as [Hlt|Hge].
  2:{ cbn [joined foldr]. replace (Z.of_nat (String.length s) - i) with 0 by lia.
      by rewrite substring_none. }
  cbn [joined foldr]. fold (joined (chunksFrom fuel s (i + 1900))).
  destruct (Z.ltb_spec (Z.of_nat (String.length s)) (i + 1900)) as [Hlast|Hmore].
  - destruct fuel as [|fuel]; cbn [chunksFrom joined foldr]; unfold len.
    + by rewrite app_empty_r.
    + destruct (Z.ltb_spec (i + 1900) (Z.of_nat (String.length s))); [lia|].
      by rewrite app_empty_r.
  - rewrite IH by lia.
    replace (Z.to_nat (Z.of_nat (String.length s) - i))
      with (Z.to_nat (i + 1900 - i) + Z.to_nat (Z.of_nat (String.length s) - (i + 1900)))%nat
      by lia.
    rewrite substring_app. do 2 f_equal. lia.
Qed.

Lemma chunksFrom_bounds (s : string) (fuel : nat) : ∀ i : Z,
  0 ≤ i →
  Forall (λ c, 0 < len c ≤ lim) (chunksFrom fuel s i).
Proof.
  unfold lim, len. induction fuel as [|fuel IH]; intros i Hi; [done|].
  cbn [chunksFrom]. unfold len, lim.
  destruct (Z.ltb_spec i (Z.of_nat (String.length s))) as [Hlt|Hge]; [|done].
  constructor; [|apply IH; lia].
  rewrite length_substring; destruct (Z.ltb_spec (Z.of_nat (String.length s)) (i + 1900)); lia.
Qed.

Lemma HasPrefix_false_replace (old new : string) (s : string) :
  strings.Contains s old = false → strings.replaceFrom 0 s old new = s.
Proof.
  induction s as [|c s IH]; [done|].
  cbn [strings.Contains]. intros [Hp Hc]%orb_false_elim.
  cbn [strings.replaceFrom]. rewrite Hp. by rewrite IH.
Qed.

Lemma ToLower_empty (t : string) : strings.ToLower t = "" ↔ t = "".
Proof. by destruct t. Qed.

Lemma ToLower_zero (t : string) : strings.ToLower t = "0" ↔ t = "0".
Proof.
  split; [|by intros ->]. destruct t as [|c [|c' t]]; try done.
  cbn [strings.ToLower]. intros [= Hc]. f_equal.
  unfold strings.lowerByte in Hc.
  destruct ((65 <=? nat_of_ascii c)%nat && (nat_of_ascii c <=? 90)%nat) eqn:Hup; [|done].
  apply andb_prop in Hup as [H1%Nat.leb_le H2%Nat.leb_le].
  apply (f_equal nat_of_ascii) in Hc. rewrite nat_ascii_embedding in Hc by lia.
  change (nat_of_ascii "0"%char) with 48%nat in Hc. lia.
Qed.

End discord_texts.

(** [splitDiscordMessage] cuts a text into chunks of at most 1900 bytes
    that make the text again when put together; there is always a chunk,
    and an empty one only for the empty text. *)
Theorem splitDiscordMessage_chunks (s : string) :
  foldr String.append "" (discordbot.splitDiscordMessage s) = s ∧
  Forall (λ c, len c ≤ 1900) (discordbot.splitDiscordMessage s) ∧
  discordbot.splitDiscordMessage s ≠ [] ∧
  (Forall (λ c, c ≠ "") (discordbot.splitDiscordMessage s) ∨ s = "").
Proof.
  unfold discordbot.splitDiscordMessage, discordbot.lim.
  destruct (Z.leb_spec (len s) 1900) as [Hfit|Hcut].
  { split_and!; [by cbn; rewrite app_empty_r|by repeat constructor|done|].
    destruct s; [by right|left]. by repeat constructor. }
  assert (0 < String.length s)%nat as Hpos by (unfold len in Hcut; lia).
  pose proof (chunksFrom_bounds s (String.length s) 0 ltac:(lia)) as Hb.
  split_and!.
  - fold (discordbot.joined (discordbot.chunksFrom (String.length s) s 0)).
    rewrite chunksFrom_joined; unfold len, discordbot.lim; [|lia..].
    rewrite Z.sub_0_r, Nat2Z.id. apply substring_all.
  - eapply Forall_impl; [exact Hb|]. unfold discordbot.lim. intros c; cbv beta. lia.
  - destruct (String.length s) as [|n] eqn:Hn; [lia|]. cbn [discordbot.chunksFrom].
    unfold len. rewrite Hn. by destruct (Z.ltb_spec 0 (Z.of_nat (S n))); [|lia].
  - left. eapply Forall_impl; [exact Hb|]. intros c; cbv beta. intros [H _] ->.
    unfold len in H. cbn in H. lia.
Qed.

(** A text without mention of the bot is only trimmed by [stripMention];
    and what [stripMention] returns is trimmed in any case. *)
Theorem stripMention_without_mention (content botID : string) :
  strings.TrimSpace (discordbot.stripMention content botID)
  = discordbot.stripMention content botID ∧
  (discordbot.isMentioned content botID = false →
   discordbot.stripMention content botID = strings.TrimSpace content).
Proof.
  unfold discordbot.stripMention, discordbot.isMentioned. split; [apply TrimSpace_idem|].
  intros [H1 H2]%orb_false_elim. unfold strings.ReplaceAll.
  rewrite !decide_False by done.
  by rewrite (HasPrefix_false_replace _ _ _ H1), (HasPrefix_false_replace _ _ _ H2).
Qed.

Lemma stripMention_witness :
  discordbot.isMentioned "  list the files " "42" = false ∧
  discordbot.stripMention "  list the files " "42" = "list the files" ∧
  discordbot.stripMention "<@42> list <@!42>the files" "42" = "list the files".
Proof.
  assert (discordbot.isMentioned "  list the files " "42" = false) as H by reflexivity.
  split; [exact H|]. split; [|reflexivity].
  exact (proj2 (stripMention_without_mention "  list the files " "42") H).
Defined.

(** The debug switch of the bot and that of the bridge read
    [DISCODEX_DEBUG] alike, except that the bot trims the value first. *)
Theorem debugEnabled_is_osDebug_of_the_trimmed_value (v : option string) :
  discordbot.debugEnabled v = codex.osDebug (strings.TrimSpace <$> v).
Proof.
  destruct v as [v|]; [|done]. cbn [fmap option_fmap option_map].
  unfold discordbot.debugEnabled, codex.osDebug.
  set (t := strings.TrimSpace v). do 2 f_equal.
  - f_equal. apply bool_decide_ext, ToLower_empty.
  - f_equal. apply bool_decide_ext, ToLower_zero.
Qed.

(** ** Loading the configuration and the channel map *)

Section loading.
Import loader.

Lemma firstEmpty_spec (chs : list config.Channel) : ∀ i : nat,
  match firstEmpty i chs with
  | None => Forall (λ ch, config.ChannelID ch ≠ "") chs
  | Some k =>
      ∃ j ch, k = (i + j)%nat ∧ chs !! j = Some ch ∧ config.ChannelID ch = "" ∧
              Forall (λ ch, config.ChannelID ch ≠ "") (take j chs)
  end.
Proof.
  induction chs as [|ch chs IH]; intros i; cbn [firstEmpty]; [done|].
  case_decide as Hid.
  - exists 0%nat, ch. split_and!; [lia|done|done|done].
  - specialize (IH (S i)). destruct (firstEmpty (S i) chs) as [k|].
    + destruct IH as (j & ch' & -> & Hj & He & Hall).
      exists (S j), ch'. split_and!; [lia|done|done|]. cbn [take]. by constructor.
    + by constructor.
Qed.

Lemma channelMap_snoc (chs : list config.Channel) (ch : config.Channel) :
  channelMap (chs ++ [ch]) = <[config.ChannelID ch := ch]> (channelMap chs).
Proof. unfold channelMap. by rewrite foldl_app. Qed.

End loading.

(** [Load] accepts a decoded configuration exactly when every channel has
    an id, and returns it as it is; otherwise its error names the first
    channel without id. *)
Theorem Load_rejects_the_first_channel_without_id (c : loader.Config) :
  match loader.Load (loader.Decoded c) with
  | inl c' => c' = c ∧ Forall (λ ch, config.ChannelID ch ≠ "") (loader.Channels c)
  | inr (loader.EmptyChannelID i) =>
      (∃ ch, loader.Channels c !! i = Some ch ∧ config.ChannelID ch = "") ∧
      Forall (λ ch, config.ChannelID ch ≠ "") (take i (loader.Channels c))
  | inr _ => False
  end.
Proof.
  unfold loader.Load. pose proof (firstEmpty_spec (loader.Channels c) 0) as H.
  destruct (loader.firstEmpty 0 (loader.Channels c)) as [k|]; [|done].
  destruct H as (j & ch & -> & Hj & He & Hall). cbn [Nat.add]. eauto.
Qed.

(** The channel map of [main] holds, under an id, the last channel of
    the configuration with that id: a later entry replaces an earlier
    one, and every channel found under a key has that key as its id. *)
Theorem channelMap_holds_the_last_channel_of_an_id
    (chs : list config.Channel) (k : string) :
  loader.channelMap chs !! k
  = last (filter (λ ch, config.ChannelID ch = k) chs) ∧
  ∀ ch, loader.channelMap chs !! k = Some ch → config.ChannelID ch = k ∧ ch ∈ chs.
Proof.
  assert (loader.channelMap chs !! k
          = last (filter (λ ch, config.ChannelID ch = k) chs)) as Heq.
  { induction chs as [|ch chs IH] using rev_ind; [done|].
    rewrite channelMap_snoc, filter_app, filter_cons, filter_nil.
    case_decide as Hid.
    - rewrite <-Hid, lookup_insert_eq. by rewrite last_snoc.
    - rewrite lookup_insert_ne by done. by rewrite app_nil_r. }
  split; [exact Heq|]. intros ch. rewrite Heq. intros Hl.
  apply last_Some in Hl as (l' & Hl).
  assert (ch ∈ filter (λ ch, config.ChannelID ch = k) chs) as Hin.
  { rewrite Hl. apply elem_of_app. right. by left. }
  by apply list_elem_of_filter in Hin.
Qed.

(** ** The tailer *)

Section tailing.
Import tail tailer.

Lemma agentText_trimmed (m : gmap string json) (s : string) :
  agentText m = Some s → codex.trimmed s.
Proof.
  unfold agentText. repeat case_decide; try done. intros [= <-]. apply TrimSpace_idem.
Qed.

Lemma extractAgentMessage_trimmed (l : mcp.line) :
  codex.trimmed (extractAgentMessageFromAnyJSON l).
Proof.
  destruct l as [| |v]; try done. cbn [extractAgentMessageFromAnyJSON].
  destruct (asObject (v !! "msg") ≫= agentText) as [s|] eqn:H1.
  { destruct (asObject (v !! "msg")) as [msg|]; [|done]. by eapply agentText_trimmed. }
  destruct (agentText v) as [s|] eqn:H2; [by eapply agentText_trimmed|].
  destruct (codex.asArray (v !! "messages") ≫= codex.fromEnd agentText) as [s|] eqn:H3;
    [|done].
  eapply fromEnd_trimmed; [apply agentText_trimmed|exact H3].
Qed.

Lemma tailJSONL_ok (lines : list mcp.line) :
  Forall (λ m, m ≠ "" ∧ codex.trimmed m) (tailJSONL lines).
Proof.
  apply Forall_forall. intros m (l & _ & Hm)%list_elem_of_omap. cbv zeta in Hm.
  case_decide; [done|]. injection Hm as <-. split; [done|].
  apply extractAgentMessage_trimmed.
Qed.

(** With no empty message among them, the latest message is the last
    one received. *)
Lemma received_snoc (evs : list (Z * selected)) (t : Z) (ev : selected) :
  received (evs ++ [(t, ev)])
  = received evs ++ match ev with Received msg => [msg] | _ => [] end.
Proof. unfold received. rewrite omap_app. by destruct ev. Qed.

Lemma latest_snoc (last0 : string) (evs : list (Z * selected)) (t : Z) (ev : selected) :
  latest last0 (evs ++ [(t, ev)])
  = match ev with
    | Received msg => if decide (msg = "") then latest last0 evs else msg
    | _ => latest last0 evs
    end.
Proof. unfold latest. by rewrite foldl_app. Qed.

Lemma latest_received (evs : list (Z * selected)) : ∀ last0 : string,
  Forall (λ m, m ≠ "") (received evs) →
  latest last0 evs = default last0 (last (received evs)).
Proof.
  induction evs as [|[t ev] evs IH] using rev_ind; intros last0 Hne; [done|].
  rewrite received_snoc in Hne. rewrite received_snoc, latest_snoc.
  apply Forall_app in Hne as [Hne Hmsg].
  destruct ev as [| |msg|]; rewrite ?app_nil_r; try by apply IH.
  apply Forall_cons in Hmsg as [Hmsg _].
  rewrite decide_False by done. by rewrite last_snoc.
Qed.

Lemma visitLatest_visit (since : Z) (acc : string * Z) (e : DirEntry) :
  visitLatest since acc e = visit ∅ since acc e.
Proof. unfold visitLatest, visit. by rewrite lookup_empty. Qed.

Lemma walkLatest_walk (since : Z) (entries : list DirEntry) :
  foldl (visitLatest since) ("", 0) entries = walk ∅ since entries.
Proof.
  unfold walk. generalize ("", 0). induction entries as [|e entries IH]; intros acc; [done|].
  cbn [foldl]. by rewrite visitLatest_visit, IH.
Qed.

Lemma pollLatest_poll (dir : Dir) (root : string) (since deadline : Z) (fuel : nat) :
  ∀ t, pollLatest fuel dir root since deadline t = poll fuel dir root ∅ since deadline t.
Proof.
  induction fuel as [|fuel IH]; intros t; [done|]. cbn [pollLatest poll].
  by rewrite walkLatest_walk, IH.
Qed.

Lemma snapshot_snoc (entries : list DirEntry) (x : DirEntry) :
  snapshotSessionFiles (entries ++ [x])
  = if skipped x then snapshotSessionFiles entries
    else <[path x := modTime x]> (snapshotSessionFiles entries).
Proof. unfold snapshotSessionFiles. by rewrite foldl_app. Qed.

Lemma snapshot_lookup (entries : list DirEntry) (e : DirEntry) :
  NoDup (path <$> entries) → e ∈ entries → skipped e = false →
  snapshotSessionFiles entries !! path e = Some (modTime e).
Proof.
  induction entries as [|x entries IH] using rev_ind; [by intros _ ?%elem_of_nil|].
  rewrite fmap_app. intros (Hnd & Hx & _)%NoDup_app Hin Hsk. rewrite snapshot_snoc.
  apply elem_of_app in Hin as [Hin|Hin].
  - assert (path e ≠ path x) as Hne.
    { intros Heq. apply (Hx (path e)); [by apply list_elem_of_fmap_2|].
      rewrite Heq. cbn. by left. }
    destruct (skipped x); [by apply IH|]. rewrite lookup_insert_ne by done. by apply IH.
  - apply list_elem_of_singleton in Hin as ->. rewrite Hsk. apply lookup_insert_eq.
Qed.

End tailing.

(** [tailJSONL] sends no empty message and no message with white space
    around it: what it sends is the trimmed text of an [agent_message] of
    the line. *)
Theorem tailJSONL_sends_nonempty_trimmed (lines : list mcp.line) :
  Forall (λ m, m ≠ "" ∧ strings.TrimSpace m = m) (tailer.tailJSONL lines).
Proof. apply tailJSONL_ok. Qed.

(** With the messages that [tailJSONL] sends, the test [m != ""] of
    [Chat] always holds, and the reply that [Chat] returns at the idle
    gap is the last message that the tailer has sent; on the session that
    the owner has as on the one that [ensure] discovers for the owner's
    first turn. *)
Theorem tail_Chat_returns_the_last_tailed_message
    (env : tail.Env) (turn : tail.Turn) (b b' : tail.InteractiveTailBridge)
    (ch : config.Channel) (prompt : string) (t : Z) (s : tail.itSession)
    (eff : list tail.effect)
    (lines : list mcp.line) (pre post : list (Z * tail.selected)) (t' : Z) :
  let to := if config.TimeoutSeconds (tail.conf b) <=? 0 then 180
            else config.TimeoutSeconds (tail.conf b) in
  let t0 := tail.writtenAt turn in
  tail.ensure env b ch t = Some (tail.Ok s, b', eff) →
  tail.writeError turn = None →
  tail.taken turn = pre ++ (t', tail.IdleFired) :: post →
  tail.collect (t0 + time.Seconds to) (t0 + tail.idleGap) t0 "" pre = tail.Waiting →
  tailer.received pre = tailer.tailJSONL lines →
  tail.lastAt t0 pre + tail.idleGap ≤ t' →
  match last (tailer.tailJSONL lines) with
  | Some msg =>
      tail.Chat env turn b ch prompt t
      = Some (tail.Returned (tail.Ok msg), b',
              eff ++ [tail.Wrote (tail.stdin s)
                        (strings.TrimSpace prompt +:+ String (ascii_of_nat 10) EmptyString)])
  | None => tail.latest "" pre = ""
  end.
Proof.
  intros to t0 He Hw Htaken Hpre Hrecv Hgap.
  assert (tail.latest "" pre = default "" (last (tailer.tailJSONL lines))) as Hlatest.
  { rewrite <-Hrecv. apply latest_received. rewrite Hrecv.
    eapply Forall_impl; [apply tailJSONL_ok|]. by intros ? [? _]. }
  destruct (last (tailer.tailJSONL lines)) as [msg|] eqn:Hlast; [|done].
  assert (msg ≠ "") as Hmsg.
  { apply last_Some in Hlast as (l' & Hl).
    pose proof (tailJSONL_ok lines) as Hok. rewrite Hl in Hok.
    apply Forall_app in Hok as [_ Hok]. by apply Forall_cons in Hok as [[? _] _]. }
  unfold tail.Chat. rewrite He, Hw. fold to t0. rewrite Htaken.
  rewrite (collect_app _ _ _ _ _ _ Hpre), idleAfter_lastAt, Hlatest. cbn [default].
  cbn [tail.collect].
  destruct (Z.ltb_spec t' (tail.lastAt t0 pre)).
  { unfold tail.idleGap, time.Millisecond in *. lia. }
  destruct (Z.ltb_spec t' (tail.lastAt t0 pre + tail.idleGap)); [lia|].
  by rewrite decide_False by done.
Qed.

(** The first turn of C, with the lines that the agent appends to its
    log. *)
Lemma tail_Chat_last_tailed_witness :
  let line (text : string) : mcp.line :=
    mcp.Object {[ "msg" := JObj {[ "type" := JStr "agent_message";
                                   "message" := JStr text ]} ]} in
  let lines := [line "Hel "; mcp.Blank; mcp.Object {[ "type" := JStr "token_count" ]};
                line " Hello"] in
  let env := tailScenario.env tailScenario.sessions in
  let ns := {| tail.cmd := 7; tail.stdin := 7; tail.out := 7 |} in
  let b' := {| tail.conf := scenario.conf; tail.m := {[ "C" := ns ]} |} in
  let eff := [tail.Spawned 7; tail.Tailing "/s/2024/new.JSONL" 7] in
  tailer.tailJSONL lines = ["Hel"; "Hello"] ∧
  tail.ensure env tailScenario.bridge scenario.C (100 * time.Second)
  = Some (tail.Ok ns, b', eff) ∧
  tail.Chat env tailScenario.first tailScenario.bridge scenario.C "show a.txt"
    (100 * time.Second)
  = Some (tail.Returned (tail.Ok "Hello"), b',
          eff ++ [tail.Wrote 7 ("show a.txt" +:+ String (ascii_of_nat 10) EmptyString)]).
Proof.
  intros line lines env ns b' eff.
  assert (tailer.tailJSONL lines = ["Hel"; "Hello"]) as Hl by (vm_compute; reflexivity).
  assert (tail.ensure env tailScenario.bridge scenario.C (100 * time.Second)
          = Some (tail.Ok ns, b', eff)) as He by (vm_compute; reflexivity).
  split; [exact Hl|]. split; [exact He|].
  pose proof (tail_Chat_returns_the_last_tailed_message
                env tailScenario.first tailScenario.bridge b' scenario.C "show a.txt"
                (100 * time.Second) ns eff
                lines tailScenario.firstArrivals []
                (103 * time.Second + 700 * time.Millisecond)
                He eq_refl eq_refl) as H.
  rewrite Hl in H. apply H.
  - vm_compute. reflexivity.
  - reflexivity.
  - vm_compute. discriminate.
Defined.

(** The older discovery loop is the newer one with an empty baseline:
    [waitLatestSessionFileAt] returns what
    [waitNewSessionFileFromSnapshot] returns for the cleaned root and a
    snapshot without entries. *)
Theorem waitLatestSessionFileAt_is_discovery_without_baseline
    (Clean : string → string) (dir : tail.Dir) (root : string) (since : Z)
    (timeout : time.Duration) (t : Z) :
  tailer.waitLatestSessionFileAt Clean dir root since timeout t
  = tail.waitNewSessionFileFromSnapshot dir (Clean root) ∅ since timeout t.
Proof.
  unfold tailer.waitLatestSessionFileAt, tail.waitNewSessionFileFromSnapshot.
  apply pollLatest_poll.
Qed.

(** When the sessions directory stays as it was at the snapshot (every
    path listed once), no file qualifies: [ensure] gives up after its 20s
    with the session-not-found error, kills the process it has spawned
    and registers no session. *)
Theorem ensure_fails_when_the_directory_is_unchanged
    (env : tail.Env) (b : tail.InteractiveTailBridge) (ch : config.Channel)
    (r : string) (t : Z) :
  (∀ t', 0 ≤ tail.lag (tail.dir env) t') →
  (∀ t', tail.listing (tail.dir env) t' = tail.listing (tail.dir env) t) →
  NoDup (tail.path <$> tail.listing (tail.dir env) t) →
  tail.m b !! config.ChannelID ch = None →
  tail.root env = Some r → tail.startError env = None →
  tail.ensure env b ch t
  = Some (tail.Err (tail.SessionNotFound r), b,
          [tail.Spawned (tail.pid env); tail.Killed (tail.pid env)]).
Proof.
  intros Hlag Hsame Hnd Hnew Hroot Hstart.
  unfold tail.ensure. rewrite Hnew, Hroot, Hstart.
  unfold tail.waitNewSessionFileFromSnapshot.
  rewrite poll_nothing; [done| |].
  - intros t' e Hin (He & Hd & Hi & Hsuf & _ & Hq).
    rewrite Hsame in Hin.
    assert (tail.skipped e = false) as Hsk.
    { unfold tail.skipped. by rewrite He, Hd, Hsuf, Hi. }
    rewrite (snapshot_lookup _ _ Hnd Hin Hsk) in Hq. lia.
  - destruct (rounds_enough (20 * time.Second)). apply poll_returns; [done..|lia].
Qed.

Lemma ensure_unchanged_witness :
  let env := tailScenario.env tailScenario.stale in
  (∀ t', 0 ≤ tail.lag (tail.dir env) t') ∧
  NoDup (tail.path <$> tail.listing (tail.dir env) (100 * time.Second)) ∧
  tail.ensure env tailScenario.bridge scenario.C (100 * time.Second)
  = Some (tail.Err (tail.SessionNotFound "/s"), tailScenario.bridge,
          [tail.Spawned 7; tail.Killed 7]).
Proof.
  intros env.
  assert (∀ t', 0 ≤ tail.lag (tail.dir env) t') as Hlag by (intros; reflexivity).
  assert (NoDup (tail.path <$> tail.listing (tail.dir env) (100 * time.Second))) as Hnd.
  { cbn. apply NoDup_singleton. }
  split; [exact Hlag|]. split; [exact Hnd|].
  exact (ensure_fails_when_the_directory_is_unchanged env tailScenario.bridge
           scenario.C "/s" (100 * time.Second) Hlag (λ _, eq_refl) Hnd
           eq_refl eq_refl eq_refl).
Defined.

(** ** The Discord front-end: messages and streams *)

Section front_end.
Import discordgo discordbot.

Lemma handlerCalls_app (l1 l2 : list effect) :
  handlerCalls (l1 ++ l2) = handlerCalls l1 ++ handlerCalls l2.
Proof. apply List.filter_app. Qed.

Lemma handlerCalls_startTyping (c : string) (b : Bot) :
  handlerCalls (startTyping c b).2 = [].
Proof.
  unfold startTyping. destruct (negb (session b) || bool_decide (c = "")); [done|].
  by destruct (bool_decide (c ∈ typing b)).
Qed.

Lemma handlerCalls_stopTyping (c : string) (b : Bot) :
  handlerCalls (stopTyping c b).2 = [].
Proof. unfold stopTyping. by destruct (bool_decide _). Qed.

Lemma handlerCalls_sends (c : string) (l : list string) :
  handlerCalls (Send c <$> l) = [].
Proof. by induction l. Qed.

Lemma handlerCalls_reportErrorf (tag err : string) (b : Bot) :
  handlerCalls (reportErrorf tag err b) = [].
Proof.
  unfold reportErrorf. destruct (_ && _); [apply handlerCalls_sends|done].
Qed.

Lemma handlerCalls_cons (e : effect) (l : list effect) :
  handlerCalls (e :: l) = if isHandlerCall e then e :: handlerCalls l else handlerCalls l.
Proof. done. Qed.

Lemma handlerCalls_post (c : string) (l : list string) :
  handlerCalls (post c l) = [].
Proof.
  unfold post. induction l as [|x l IH]; [done|]. cbn [omap list_omap]. cbv zeta.
  case_decide; [exact IH|]. rewrite handlerCalls_cons. exact IH.
Qed.

Lemma handlerCalls_ClearStatus (b : Bot) : handlerCalls (ClearStatus b) = [].
Proof. unfold ClearStatus. by destruct (session b). Qed.

Lemma handlerCalls_ResetChannelStreams (c : string) (b : Bot) :
  handlerCalls (ResetChannelStreams c b).2 = [].
Proof. apply handlerCalls_stopTyping. Qed.

End front_end.

(** [onMessageCreate] calls at most one handler, and calls it with a
    channel whose id is the channel of the message (the channel map being
    keyed by the ids of its channels, as [main] builds it).  The prompt
    that the chat handler gets is trimmed, not empty and not [/reset]; its
    context carries the user tag of the author unless that is empty; and
    the author is not a bot. *)
Theorem onMessageCreate_calls_one_handler_for_the_channel
    (h : discordbot.Handlers) (botID : string) (m : discordgo.MessageCreate)
    (b : discordbot.Bot) :
  (∀ k ch, discordbot.channelMap b !! k = Some ch → config.ChannelID ch = k) →
  match discordbot.handlerCalls (discordbot.onMessageCreate h botID m b).2 with
  | [] => True
  | [discordbot.ResetCalled ch] => config.ChannelID ch = discordgo.ChannelID m
  | [discordbot.ChatCalled ctx ch prompt] =>
      config.ChannelID ch = discordgo.ChannelID m ∧
      prompt ≠ "" ∧ strings.TrimSpace prompt = prompt ∧ prompt ≠ "/reset" ∧
      mcp.userTag ctx = (if decide (discordbot.buildUserTag m = "") then None
                         else Some (discordbot.buildUserTag m)) ∧
      ∃ a, discordgo.Author m = Some a ∧ discordgo.Bot a = false
  | _ => False
  end.
Proof.
  intros Hmap. unfold discordbot.onMessageCreate.
  destruct (discordgo.Author m) as [author|] eqn:Ha; [|done].
  destruct (discordgo.Bot author) eqn:Hbot; [done|].
  set (sel := match discordbot.channelMap b !! discordgo.ChannelID m with
              | Some _ => _
              | None => _
              end).
  assert (∀ prompt ch, sel = Some (prompt, ch) →
            config.ChannelID ch = discordgo.ChannelID m) as Hch.
  { unfold sel. intros prompt ch.
    destruct (discordbot.channelMap b !! discordgo.ChannelID m) as [ch0|] eqn:Hk.
    - intros [= _ <-]. cbn [default]. by apply Hmap.
    - destruct (_ && _); [done|]. cbn [default]. by intros [= _ <-]. }
  destruct sel as [[prompt ch]|]; [|done]. specialize (Hch _ _ eq_refl).
  cbv zeta. set (p := strings.TrimSpace prompt).
  destruct (decide (p = "/reset")) as [Hr|Hr].
  { destruct (discordbot.onReset b); [|done].
    destruct (discordbot.resetError h ch).
    - cbn [snd]. rewrite handlerCalls_cons. cbn [discordbot.isHandlerCall].
      rewrite handlerCalls_app, handlerCalls_reportErrorf. done.
    - pose proof (handlerCalls_ResetChannelStreams (discordgo.ChannelID m) b) as Hrs.
      destruct (discordbot.ResetChannelStreams (discordgo.ChannelID m) b) as [b' e].
      cbn [snd] in *. rewrite handlerCalls_cons. cbn [discordbot.isHandlerCall].
      rewrite !handlerCalls_app, Hrs, handlerCalls_ClearStatus. done. }
  destruct (decide (strings.TrimSpace p = "")) as [He|He]; [done|].
  assert (strings.TrimSpace p = p) as Htrim by apply TrimSpace_idem.
  assert (p ≠ "") as Hne by (by rewrite <-Htrim).
  pose proof (handlerCalls_startTyping (discordgo.ChannelID m) b) as Hst.
  destruct (discordbot.startTyping (discordgo.ChannelID m) b) as [b1 e1].
  cbn [snd] in Hst.
  destruct (discordbot.onChat b1); cbn [negb].
  2:{ cbn [snd]. by rewrite handlerCalls_app, Hst. }
  set (ctx := {| mcp.userTag := _ |}).
  assert (discordbot.handlerCalls
            (match discordbot.chatResult h ctx ch p with
             | inl replies => (replies, [])
             | inr err => ([discordbot.errorOccurred],
                           discordbot.reportErrorf "chat" err b1)
             end).2 = []) as He2.
  { destruct (discordbot.chatResult h ctx ch p); [done|].
    apply handlerCalls_reportErrorf. }
  destruct (match discordbot.chatResult h ctx ch p with
            | inl replies => (replies, [])
            | inr err => _
            end) as [replies e2].
  cbn [snd] in He2.
  destruct replies as [|r replies].
  - cbn [snd]. rewrite handlerCalls_app, Hst, handlerCalls_cons.
    cbn [discordbot.isHandlerCall app]. rewrite He2. split_and!; eauto.
  - pose proof (handlerCalls_stopTyping (discordgo.ChannelID m) b1) as Hsp.
    destruct (discordbot.stopTyping (discordgo.ChannelID m) b1) as [b2 e3].
    cbn [snd] in *. rewrite handlerCalls_app, Hst, handlerCalls_cons.
    cbn [discordbot.isHandlerCall app].
    rewrite !handlerCalls_app, He2, Hsp, handlerCalls_post. split_and!; eauto.
Qed.

Lemma onMessageCreate_witness :
  (∀ k ch, discordbot.channelMap botScenario.bot !! k = Some ch →
           config.ChannelID ch = k) ∧
  discordbot.handlerCalls
    (discordbot.onMessageCreate botScenario.handlers "42"
       (botScenario.message " list files ") botScenario.bot).2
  = [discordbot.ChatCalled {| mcp.userTag := Some "alice" |} scenario.C "list files"] ∧
  config.ChannelID scenario.C = "C".
Proof.
  assert (∀ k ch, discordbot.channelMap botScenario.bot !! k = Some ch →
                  config.ChannelID ch = k) as Hmap.
  { intros k ch. cbn. unfold loader.channelMap. cbn [foldl].
    by intros [[<- <-]|[_ ?]]%lookup_insert_Some. }
  split; [exact Hmap|].
  assert (discordbot.handlerCalls
            (discordbot.onMessageCreate botScenario.handlers "42"
               (botScenario.message " list files ") botScenario.bot).2
          = [discordbot.ChatCalled {| mcp.userTag := Some "alice" |} scenario.C
               "list files"]) as Hrun by (vm_compute; reflexivity).
  split; [exact Hrun|].
  pose proof (onMessageCreate_calls_one_handler_for_the_channel
                botScenario.handlers "42" (botScenario.message " list files ")
                botScenario.bot Hmap) as H.
  rewrite Hrun in H. exact (proj1 H).
Defined.

Section streams.
Import discordbot.

Lemma startTyping_keeps (c : string) (b : Bot) :
  session (startTyping c b).1 = session b ∧ streams (startTyping c b).1 = streams b.
Proof.
  unfold startTyping. destruct (negb (session b) || bool_decide (c = "")); [done|].
  by destruct (bool_decide (c ∈ typing b)).
Qed.

Lemma stopTyping_keeps (c : string) (b : Bot) :
  session (stopTyping c b).1 = session b ∧ streams (stopTyping c b).1 = streams b ∧
  c ∉ typing (stopTyping c b).1.
Proof.
  unfold stopTyping. case_bool_decide; cbn; [|done]. split_and!; [done..|set_solver].
Qed.

Lemma ApplyStreamDelta_existing (now : Z) (sent : option string) (c : string)
    (id : Z) (d : string) (b : Bot) (st : streamState) :
  session b = true → streams b !! streamKey c id = Some st →
  session (ApplyStreamDelta now sent c id d b).1 = true ∧
  ∃ st', streams (ApplyStreamDelta now sent c id d b).1 !! streamKey c id = Some st' ∧
         messageID st' = messageID st ∧ content st' = content st +:+ d.
Proof.
  intros Hse Hst. unfold ApplyStreamDelta. rewrite Hse. cbn [negb].
  destruct (startTyping_keeps c b) as [Hk1 Hk2].
  destruct (startTyping c b) as [b1 e0]. cbn [fst] in Hk1, Hk2.
  rewrite Hk2, Hst.
  destruct (_ <? _); cbn [fst session streams set_streams];
    rewrite Hk1, Hse, lookup_insert_eq; split; try done; by eexists.
Qed.

Lemma applyDeltas_existing (c : string) (id : Z)
    (ds : list (Z * option string * string)) : ∀ (b : Bot) (st : streamState),
  session b = true → streams b !! streamKey c id = Some st →
  session (applyDeltas c id ds b) = true ∧
  ∃ st', streams (applyDeltas c id ds b) !! streamKey c id = Some st' ∧
         messageID st' = messageID st ∧
         content st' = content st +:+ joined (snd <$> ds).
Proof.
  induction ds as [|[[t sent] d] ds IH]; intros b st Hse Hst.
  { split; [done|]. exists st. split_and!; [done..|]. cbn. by rewrite app_empty_r. }
  unfold applyDeltas. cbn [foldl fst snd]. fold (applyDeltas c id ds).
  destruct (ApplyStreamDelta_existing t sent c id d b st Hse Hst)
    as (Hse1 & st1 & Hst1 & Hm1 & Hc1).
  destruct (IH _ st1 Hse1 Hst1) as (Hse2 & st2 & Hst2 & Hm2 & Hc2).
  split; [done|]. exists st2. split_and!; [done|congruence|].
  rewrite Hc2, Hc1. cbn [fmap list_fmap snd joined foldr].
  by rewrite app_assoc_s.
Qed.

Lemma HasPrefix_app (p s : string) : strings.HasPrefix (p +:+ s) p = true.
Proof.
  induction p as [|x p IH]; [by destruct s|]. rewrite app_cons.
  cbn [strings.HasPrefix]. by rewrite decide_True.
Qed.

Lemma Contains_cons_false (x : ascii) (c : string) :
  strings.Contains (String x c) "#" = false →
  x ≠ "#"%char ∧ strings.Contains c "#" = false.
Proof.
  cbn [strings.Contains]. intros [Hp Hc]%orb_false_elim. split; [|done].
  intros ->. cbn [strings.HasPrefix] in Hp. rewrite decide_True in Hp by done.
  by destruct c.
Qed.

(** The key of a stream begins with the key prefix of one channel only,
    for channel ids without [#]. *)
Lemma HasPrefix_key (c c' : string) (rest : string) :
  strings.Contains c "#" = false → strings.Contains c' "#" = false →
  strings.HasPrefix (c' +:+ "#" +:+ rest) (c +:+ "#") = true → c' = c.
Proof.
  revert c'. induction c as [|y c IH]; intros c' Hc Hc'.
  - destruct c' as [|x c']; [done|]. apply Contains_cons_false in Hc' as [Hx _].
    change ("" +:+ "#") with "#". rewrite app_cons. cbn [strings.HasPrefix].
    case_decide; [congruence|done].
  - apply Contains_cons_false in Hc as [Hy Hc]. rewrite (app_cons y).
    destruct c' as [|x c'].
    + change ("" +:+ "#" +:+ rest) with (String "#" rest). cbn [strings.HasPrefix].
      case_decide; [congruence|done].
    + apply Contains_cons_false in Hc' as [Hx Hc']. rewrite (app_cons x).
      cbn [strings.HasPrefix]. case_decide as Hxy; [|done]. intros Hp. subst.
      f_equal. by apply IH.
Qed.

End streams.

(** The deltas of a stream accumulate: whatever the instants of the
    deltas (the throttle only spares edits), once the first delta has
    made the message, [EndStream] edits that message to all the deltas in
    their order, or to the final text when that is not blank; it removes
    the stream and stops the typing indicator of the channel. *)
Theorem stream_deltas_accumulate
    (b : discordbot.Bot) (c : string) (id : Z) (mid d0 : string) (t0 : Z)
    (ds : list (Z * option string * string)) (final : string) :
  discordbot.session b = true →
  discordbot.streams b !! discordbot.streamKey c id = None →
  let b1 := (discordbot.ApplyStreamDelta t0 (Some mid) c id d0 b).1 in
  let bn := discordbot.applyDeltas c id ds b1 in
  let text := d0 +:+ discordbot.joined (snd <$> ds) in
  ∃ b' e,
    discordbot.EndStream c id final bn
    = (b', discordbot.Edit c mid (if decide (strings.TrimSpace final = "")
                                  then text else final) :: e) ∧
    discordbot.streams b' !! discordbot.streamKey c id = None ∧
    c ∉ discordbot.typing b'.
Proof.
  intros Hse Hnone b1 bn text.
  assert (discordbot.session b1 = true ∧
          ∃ st, discordbot.streams b1 !! discordbot.streamKey c id = Some st ∧
                discordbot.messageID st = mid ∧ discordbot.content st = d0)
    as (Hse1 & st1 & Hst1 & Hm1 & Hc1).
  { unfold b1, discordbot.ApplyStreamDelta. rewrite Hse. cbn [negb].
    destruct (startTyping_keeps c b) as [Hk1 Hk2].
    destruct (discordbot.startTyping c b) as [b0 e0]. cbn [fst] in Hk1, Hk2.
    rewrite Hk2, Hnone. cbn [fst discordbot.session discordbot.streams
                             discordbot.set_streams].
    rewrite Hk1, Hse, lookup_insert_eq. split; [done|]. by eexists. }
  destruct (applyDeltas_existing c id ds b1 st1 Hse1 Hst1)
    as (Hse2 & st2 & Hst2 & Hm2 & Hc2). fold bn in Hse2, Hst2.
  unfold discordbot.EndStream. rewrite Hse2, Hst2. cbn [negb].
  destruct (stopTyping_keeps c
              (discordbot.set_streams
                 (delete (discordbot.streamKey c id) (discordbot.streams bn)) bn))
    as (_ & Hk & Hty).
  destruct (discordbot.stopTyping c _) as [b' e]. cbn [fst] in Hk, Hty.
  exists b', e. split_and!.
  - do 2 f_equal. rewrite Hm2, Hm1. f_equal. unfold text. by rewrite Hc2, Hc1.
  - rewrite Hk. cbn [discordbot.streams discordbot.set_streams]. apply lookup_delete_eq.
  - done.
Qed.

Lemma stream_deltas_witness :
  discordbot.session botScenario.bot = true ∧
  discordbot.streams botScenario.bot !! discordbot.streamKey "C" 2 = None ∧
  ∃ b' e,
    discordbot.EndStream "C" 2 ""
      (discordbot.applyDeltas "C" 2 [(100 * time.Millisecond, None, "lo")]
         (discordbot.ApplyStreamDelta 0 (Some "m1") "C" 2 "Hel" botScenario.bot).1)
    = (b', discordbot.Edit "C" "m1" "Hello" :: e) ∧
    discordbot.streams b' !! discordbot.streamKey "C" 2 = None.
Proof.
  assert (discordbot.session botScenario.bot = true) as Hse by reflexivity.
  assert (discordbot.streams botScenario.bot !! discordbot.streamKey "C" 2 = None)
    as Hnone by reflexivity.
  split; [exact Hse|]. split; [exact Hnone|].
  destruct (stream_deltas_accumulate botScenario.bot "C" 2 "m1" "Hel" 0
              [(100 * time.Millisecond, None, "lo")] "" Hse Hnone)
    as (b' & e & Hend & Hgone & _).
  exists b', e. split; [exact Hend|exact Hgone].
Defined.

(** [ResetChannelStreams] removes every stream of the channel, whatever
    the request, stops its typing indicator, and keeps every stream whose
    key does not begin with the id of the channel and [#]: the streams of
    the other channels, ids being without [#]. *)
Theorem ResetChannelStreams_clears_the_channel (c : string) (b : discordbot.Bot) :
  let b' := (discordbot.ResetChannelStreams c b).1 in
  (∀ id, discordbot.streams b' !! discordbot.streamKey c id = None) ∧
  (c ∉ discordbot.typing b') ∧
  (∀ c' id, strings.Contains c "#" = false → strings.Contains c' "#" = false →
            c' ≠ c →
            discordbot.streams b' !! discordbot.streamKey c' id
            = discordbot.streams b !! discordbot.streamKey c' id).
Proof.
  intros b'. unfold b', discordbot.ResetChannelStreams.
  destruct (stopTyping_keeps c
              (discordbot.set_streams
                 (filter (λ kv, strings.HasPrefix kv.1 (c +:+ "#") = false)
                         (discordbot.streams b)) b)) as (_ & Hk & Hty).
  rewrite Hk. cbn [discordbot.streams discordbot.set_streams].
  split_and!; [|done|].
  - intros id. apply map_lookup_filter_None. right. intros st _. cbn [fst].
    unfold discordbot.streamKey. rewrite <-app_assoc_s, HasPrefix_app. done.
  - intros c' id Hc Hc' Hne.
    destruct (discordbot.streams b !! discordbot.streamKey c' id) as [st|] eqn:Hst.
    + apply map_lookup_filter_Some. split; [done|]. cbn [fst].
      destruct (strings.HasPrefix _ _) eqn:Hp; [|done].
      by apply HasPrefix_key in Hp.
    + apply map_lookup_filter_None. by left.
Qed.

Lemma ResetChannelStreams_witness :
  let b := (discordbot.ApplyStreamDelta 0 (Some "m2") "D" 7 "other"
              (discordbot.ApplyStreamDelta 0 (Some "m1") "C" 2 "Hel"
                 botScenario.bot).1).1 in
  let b' := (discordbot.ResetChannelStreams "C" b).1 in
  strings.Contains "C" "#" = false ∧ strings.Contains "D" "#" = false ∧ "D" ≠ "C" ∧
  discordbot.streams b' !! discordbot.streamKey "C" 2 = None ∧
  discordbot.streams b' !! discordbot.streamKey "D" 7
  = discordbot.streams b !! discordbot.streamKey "D" 7.
Proof.
  intros b b'.
  assert ("D" ≠ "C") as Hne by discriminate.
  destruct (ResetChannelStreams_clears_the_channel "C" b) as (Hgone & _ & Hkept).
  split; [reflexivity|]. split; [reflexivity|]. split; [exact Hne|].
  split; [apply Hgone|]. exact (Hkept "D" 7 eq_refl eq_refl Hne).
Defined.
